(** * Portrait4D: the reconstruction-loss training step

    A shallow embedding of [AnimatablePortraitReconLoss] from
    [portrait4d/training/loss/loss_recon_v1.py]: the schedule computed at the
    top of [accumulate_gradients], the conditioning built by [run_G], the
    discriminator wrapper [run_D] and the phase dispatcher itself.

    Conventions of the embedding.
    - A configured number is given by its value, a rational ([Q]); the
      images-seen counter and the resolutions are integers ([Z]).  The
      resolution schedule and the blur half-width are computed as Python
      computes them, in binary64 floating point with its rounding, overflow
      and exceptions; the thresholds the step compares the counter with
      are exact.
    - Tensors are symbolic terms: the networks are external, what the code
      decides is which terms are built, which calls are issued and which
      losses are back-propagated.
    - Exceptions are values of [exn]; the step runs in a small state and
      error monad whose state holds the log of external calls and the
      position in the stream of uniform random draws.
    - A Python local that is assigned on some paths only is an [option]
      ([None] is "unbound"); reading it goes through [load]. *)

From Stdlib Require Import ZArith QArith Qround Qabs Qpower Bool List String Lia Lqa.
Import ListNotations.

Close Scope Q_scope.
Set Implicit Arguments.

(** ** Python numbers *)

Definition Qltb (a b : Q) : bool := negb (Qle_bool b a).
Definition Qgeb (a b : Q) : bool := Qle_bool b a.

(** [max(a, b)] and [min(a, b)] of Python: the first argument wins ties. *)
Definition py_max (a b : Q) : Q := if Qltb a b then b else a.
Definition py_min (a b : Q) : Q := if Qltb b a then b else a.

(** [np.rint]: round to the nearest integer, ties to even. *)
Definition rint (x : Q) : Z :=
  let f := Qfloor x in
  match (x - inject_Z f ?= 1 # 2)%Q with
  | Lt => f
  | Gt => (f + 1)%Z
  | Eq => if Z.even f then f else (f + 1)%Z
  end.

(** ** Exceptions and results *)

Inductive exn : Type :=
| UnboundLocalError (var : string)
| ZeroDivisionError
| TypeError (what : string)
| KeyError (key : string)
| RuntimeError (what : string)
| AttributeError (what : string)
| OverflowError
| ValueError (what : string).

Inductive result (A : Type) : Type :=
| Ok (a : A)
| Raise (e : exn).
Arguments Ok {A} a.
Arguments Raise {A} e.

(** Reading a local that may be unbound. *)
Definition load {A} (name : string) (v : option A) : result A :=
  match v with
  | Some a => Ok a
  | None => Raise (UnboundLocalError name)
  end.

(** A small error monad for the pure parts. *)
Definition rbind {A B} (r : result A) (k : A -> result B) : result B :=
  match r with
  | Ok a => k a
  | Raise e => Raise e
  end.
Notation "x <~ r ;; k" := (rbind r (fun x => k))
  (at level 61, r at next level, right associativity).

(** Calling a collaborator that may be [None]. *)
Definition call (present : bool) : result unit :=
  if present then Ok tt else Raise (TypeError "call").

(** ** binary64 arithmetic

    Python's [float] is the IEEE 754 binary64 format.  A finite value is
    kept as the rational it denotes (the sign of a zero is not kept: no
    operation below can tell the two zeros apart); the operations round
    the exact result to the nearest value of the format, ties to even. *)

(** [2 ^ e] *)
Definition pow2 (e : Z) : Q := (2 ^ e)%Q.

(** The exponent [e] with [2^e <= x < 2^(e+1)], for a positive [x]. *)
Definition ilog2 (x : Q) : Z :=
  let e := (Z.log2 (Qnum x) - Z.log2 (Zpos (Qden x)))%Z in
  if Qle_bool (pow2 e) x then e else (e - 1)%Z.

(** The exponent of the spacing of the format around a positive [x]: 53
    significant bits, and no finer than [2^-1074]. *)
Definition spacing (x : Q) : Z := Z.max (ilog2 x - 52) (-1074).

(** The nearest multiple of the spacing, ties to even, for a positive [x]. *)
Definition round_pos (x : Q) : Q :=
  let s := spacing x in
  (inject_Z (rint (x / pow2 s)) * pow2 s)%Q.

Definition round64 (x : Q) : Q :=
  Qred match (x ?= 0)%Q with
       | Eq => 0%Q
       | Gt => round_pos x
       | Lt => (- round_pos (- x))%Q
       end.

Inductive binary64 : Type :=
| Finite (q : Q)
| Infinite (negative : bool)
| NaN.

(** Rounding overflows to an infinity from [2^1024] on. *)
Definition to_binary64 (x : Q) : binary64 :=
  let r := round64 x in
  if Qle_bool (pow2 1024) (Qabs r) then Infinite (Qltb x 0) else Finite r.

Definition fneg (x : binary64) : binary64 :=
  match x with
  | Finite q => Finite (- q)
  | Infinite s => Infinite (negb s)
  | NaN => NaN
  end.

Definition fadd (x y : binary64) : binary64 :=
  match x, y with
  | NaN, _ | _, NaN => NaN
  | Infinite s, Infinite t => if Bool.eqb s t then Infinite s else NaN
  | Infinite s, Finite _ => Infinite s
  | Finite _, Infinite t => Infinite t
  | Finite a, Finite b => to_binary64 (a + b)
  end.

Definition fsub (x y : binary64) : binary64 := fadd x (fneg y).

Definition fmul (x y : binary64) : binary64 :=
  match x, y with
  | NaN, _ | _, NaN => NaN
  | Infinite s, Infinite t => Infinite (xorb s t)
  | Infinite s, Finite b =>
      if Qeq_bool b 0 then NaN else Infinite (xorb s (Qltb b 0))
  | Finite a, Infinite t =>
      if Qeq_bool a 0 then NaN else Infinite (xorb (Qltb a 0) t)
  | Finite a, Finite b => to_binary64 (a * b)
  end.

(** [x / y] on floats: Python raises on a zero divisor, whatever [x] is. *)
Definition float_truediv (x y : binary64) : result binary64 :=
  match y with
  | Finite b =>
      if Qeq_bool b 0 then Raise ZeroDivisionError
      else Ok match x with
              | Finite a => to_binary64 (a / b)
              | Infinite s => Infinite (xorb s (Qltb b 0))
              | NaN => NaN
              end
  | Infinite _ =>
      Ok match x with
         | Finite _ => Finite 0
         | _ => NaN
         end
  | NaN => Ok NaN
  end.

(** [a < b] on floats: false as soon as one side is NaN. *)
Definition flt (x y : binary64) : bool :=
  match x, y with
  | NaN, _ | _, NaN => false
  | Finite a, Finite b => Qltb a b
  | Finite _, Infinite t => negb t
  | Infinite s, Finite _ => s
  | Infinite s, Infinite t => s && negb t
  end.

(** ** Python numbers: [int] and [float] *)

Inductive number : Type :=
| PyInt (n : Z)
| PyFloat (x : binary64).

(** The float operand a number yields.  The conversion of an [int] rounds
    to nearest, ties to even, and raises beyond the range of the format.
    A configured number is given by its value: when it is a float the
    rounding leaves it as it is. *)
Definition as_float (q : Q) : result binary64 :=
  match to_binary64 q with
  | Infinite _ => Raise OverflowError
  | x => Ok x
  end.

Definition to_float (v : number) : result binary64 :=
  match v with
  | PyInt n => as_float (inject_Z n)
  | PyFloat x => Ok x
  end.

Definition py_add (a b : number) : result number :=
  match a, b with
  | PyInt m, PyInt n => Ok (PyInt (m + n))
  | _, _ => x <~ to_float a ;; y <~ to_float b ;; Ok (PyFloat (fadd x y))
  end.

Definition py_sub (a b : number) : result number :=
  match a, b with
  | PyInt m, PyInt n => Ok (PyInt (m - n))
  | _, _ => x <~ to_float a ;; y <~ to_float b ;; Ok (PyFloat (fsub x y))
  end.

Definition py_mul (a b : number) : result number :=
  match a, b with
  | PyInt m, PyInt n => Ok (PyInt (m * n))
  | _, _ => x <~ to_float a ;; y <~ to_float b ;; Ok (PyFloat (fmul x y))
  end.

(** [a < b]: an [int] and a [float] are compared by value, exactly. *)
Definition py_lt (a b : number) : bool :=
  let value v :=
    match v with
    | PyInt n => Finite (inject_Z n)
    | PyFloat x => x
    end in
  flt (value a) (value b).

(** [max(a, b)] and [min(a, b)]: the first argument is kept unless the
    second is strictly beyond it. *)
Definition max_number (a b : number) : number := if py_lt a b then b else a.
Definition min_number (a b : number) : number := if py_lt b a then b else a.

(** [int(np.rint(v))].  numpy turns a Python [int] into a 64-bit integer,
    signed or unsigned, before rounding it as a float; beyond 64 bits it has
    no [rint] for it. *)
Definition int_rint (v : number) : result Z :=
  match v with
  | PyFloat (Finite q) => Ok (rint q)
  | PyFloat (Infinite _) => Raise OverflowError
  | PyFloat NaN => Raise (ValueError "int")
  | PyInt n =>
      if ((- 2 ^ 63 <=? n) && (n <? 2 ^ 64))%Z
      then Ok (rint (round64 (inject_Z n)))
      else Raise (TypeError "rint")
  end.

(** ** Configuration: the fields set by [__init__] and the capability flags
    of the generator and the discriminator that the step reads. *)

Record rendering_kwargs : Type := {
  density_reg : option Q;          (* absent key: [.get('density_reg', 0)] *)
  reg_type : option string;
  density_reg_p_dist : option Q;
  box_warp : option Q
}.

Record config : Type := {
  gmain : Q;
  r1_gamma : Q;
  r1_gamma_patch : Q;
  r1_gamma_uv : Q;
  r1_gamma_seg : Q;
  blur_init_sigma : Q;
  blur_fade_kimg : Q;
  r1_gamma_init : Q;
  r1_gamma_fade_kimg : Q;
  neural_rendering_resolution_initial : Z;
  neural_rendering_resolution_final : option Z;
  neural_rendering_resolution_fade_kimg : Q;
  discrimination_kimg : Q;
  dual_discrimination : bool;
  patch_scale : Q;
  use_D : bool;
  lpips : bool;                      (* [false]: [self.lpips] is [None] *)
  facenet : bool;                    (* [false]: [self.facenet] is [None] *)
  (* self.G *)
  G_has_superresolution : bool;
  G_rendering_kwargs : rendering_kwargs;
  G_img_resolution : Z;
  G_sample_mixed_tuple : option nat; (* [Some n]: sample_mixed returns an n-tuple *)
  (* self.D *)
  D_has_uv : bool;
  D_has_seg : bool
}.

(** [self.blur_raw_target = True] is fixed by the constructor. *)
Definition blur_raw_target : bool := true.

(** ** The half-width of the blur (lines 201 and 251)

    [np.floor(blur_sigma * 3)]: the product is a binary64 value, rounded as
    such, before it is floored.  (A sigma whose triple leaves the range of
    the format is not modelled.) *)
Definition blur_half_width (blur_sigma : Q) : Z :=
  Qfloor (round64 (blur_sigma * 3)).

(** ** Schedule (lines 223-235) *)

(** The hyper-parameters fixed at the top of every step. *)
Record step_params : Type := {
  sp_blur_sigma : Q;
  sp_r1_gamma : Q;
  sp_r1_gamma_patch : Q;
  sp_r1_gamma_uv : Q;
  sp_r1_gamma_seg : Q
}.

Definition step_hyperparams (self : config) (cur_nimg : Z) : step_params :=
  {| sp_blur_sigma := 0;
     sp_r1_gamma := r1_gamma self;
     sp_r1_gamma_patch := r1_gamma_patch self;
     sp_r1_gamma_uv := r1_gamma_uv self;
     sp_r1_gamma_seg := r1_gamma_seg self |}.

(** [alpha] of line 230.  The operands are evaluated from left to right:
    [discrimination_kimg * 1e3], the difference with [cur_nimg], then
    [fade_kimg * 1e3], then the quotient. *)
Definition fade_alpha (self : config) (cur_nimg : Z) : result number :=
  d <~ as_float (discrimination_kimg self) ;;
  let warmup := fmul d (Finite 1000) in
  c <~ as_float (inject_Z cur_nimg) ;;
  let elapsed := fsub c warmup in
  f <~ as_float (neural_rendering_resolution_fade_kimg self) ;;
  let window := fmul f (Finite 1000) in
  x <~ float_truediv elapsed window ;;
  Ok (min_number (max_number (PyFloat x) (PyInt 0)) (PyInt 1)).

(** Line 231: [int(np.rint(initial * (1 - alpha) + final * alpha))]. *)
Definition faded_resolution (initial final : Z) (alpha : number) : result Z :=
  rest <~ py_sub (PyInt 1) alpha ;;
  a <~ py_mul (PyInt initial) rest ;;
  b <~ py_mul (PyInt final) alpha ;;
  v <~ py_add a b ;;
  int_rint v.

(** Lines 229-235: the pair [(neural_rendering_resolution,
    neural_rendering_resolution_patch)]. *)
Definition resolution_schedule (self : config) (cur_nimg : Z) : result (Z * Z) :=
  match neural_rendering_resolution_final self with
  | Some final =>
      alpha <~ fade_alpha self cur_nimg ;;
      r <~ faded_resolution (neural_rendering_resolution_initial self) final alpha ;;
      Ok (r, final)
  | None =>
      Ok (neural_rendering_resolution_initial self,
          neural_rendering_resolution_initial self)
  end.

(** ** Phase tags (lines 216-221)

    Phases are the strings of the source; [d.get(k, default)] on a literal
    dictionary is a lookup in an association list. *)

Fixpoint dict_get_default (d : list (string * string)) (k default : string) : string :=
  match d with
  | [] => default
  | (k', v) :: d' => if String.eqb k' k then v else dict_get_default d' k default
  end.

(** [phase in [...]] *)
Definition phase_in (phase : string) (tags : list string) : bool :=
  existsb (String.eqb phase) tags.

(** [self.G.rendering_kwargs.get('density_reg', 0)] *)
Definition density_reg_or_0 (self : config) : Q :=
  match density_reg (G_rendering_kwargs self) with
  | Some q => q
  | None => 0
  end.

Definition collapse_phase (self : config) (phase : string) : string :=
  let phase :=
    if Qeq_bool (density_reg_or_0 self) 0
    then dict_get_default [("Greg", "none"); ("Gboth", "Gmain")]%string phase phase
    else phase in
  let phase :=
    if Qeq_bool (r1_gamma self) 0
    then dict_get_default [("Dreg", "none"); ("Dboth", "Dmain")]%string phase phase
    else phase in
  let phase :=
    if Qeq_bool (r1_gamma_patch self) 0
    then dict_get_default [("D_patchreg", "none"); ("D_patchboth", "Dmain")]%string phase phase
    else phase in
  phase.

(** ** Batched selection

    [torch.where(cond, a, b)] along the batch axis, with the broadcasting
    rule of that axis: sizes must agree unless one of them is 1. *)

Definition broadcast_size (m n : nat) : option nat :=
  if Nat.eqb m n then Some m
  else if Nat.eqb m 1 then Some n
  else if Nat.eqb n 1 then Some m
  else None.

Definition expand {A} (n : nat) (l : list A) : list A :=
  match l with
  | [x] => repeat x n
  | _ => l
  end.

Fixpoint select {A} (cond : list bool) (a b : list A) : list A :=
  match cond, a, b with
  | c :: cond', x :: a', y :: b' => (if c then x else y) :: select cond' a' b'
  | _, _, _ => []
  end.

Definition torch_where {A} (cond : list bool) (a b : list A) : result (list A) :=
  match broadcast_size (List.length cond) (List.length a) with
  | Some n1 =>
      match broadcast_size n1 (List.length b) with
      | Some n => Ok (select (expand n cond) (expand n a) (expand n b))
      | None => Raise (RuntimeError "size mismatch")
      end
  | None => Raise (RuntimeError "size mismatch")
  end.

(** [torch.zeros_like] on a batch of scalars. *)
Definition zeros_like (l : list Q) : list Q := map (fun _ => 0%Q) l.

(** ** Symbolic tensors

    [data] is the type of the arrays the caller supplies.  The conditioning
    batches ([real_img_app], [real_img_mot], [motions_app], [motions]) are
    lists with one entry per batch element, since the code selects among
    them element by element; every other array is one opaque value. *)

Section Model.

Variable data : Type.

(** The four FLAME parameter arrays that go to the renderer and the deformer. *)
Record flame : Type := {
  shape_params : data;
  exp_params : data;
  pose_params : data;
  eye_pose_params : data
}.

(** Arguments of [self.G.synthesis(...)] as issued on line 194. *)
Record synthesis_args : Type := {
  sa_imgs_app : list data;
  sa_imgs_mot : list data;
  sa_motions_app : list data;
  sa_motions : list data;
  sa_c : data;
  sa_deformer : flame;
  sa_neural_rendering_resolution : Z;
  sa_motion_scale : list Q
}.

(** The conditioning arguments of [self.G.sample_mixed(...)] (line 394). *)
Record sample_args : Type := {
  sm_imgs_app : list data;
  sm_imgs_mot : list data;
  sm_motions_app : list data;
  sm_motions : list data;
  sm_flame : flame;
  sm_motion_scale : list Q
}.

Inductive unop : Type :=
| Abs | Mean | MeanDim1 | Sum | Square | Sum123 | Softplus | Neg | Detach
| Clamp11                      (* torch.clamp(x, -1, 1) *)
| Facenet                      (* self.facenet *)
| ShapeLast                    (* x.shape[-1] *)
| Chan (lo hi : nat)           (* x[:, lo:hi] *)
| LastTo (n : nat)             (* x[..., :n] *)
| LastFrom (n : nat)           (* x[..., n:] *)
| Dim1To (n : nat)             (* x[:, :n] *)
| Dim1FirstHalf                (* x[:, :x.shape[1]//2] *)
| Dim1SecondHalf               (* x[:, x.shape[1]//2:] *)
| ZerosLike
| RandnLike.

Inductive binop : Type :=
| Add | Sub | Mul | Div
| Lpips                        (* self.lpips *)
| EstimateNorm                 (* estimate_norm_torch *)
| WarpAffine112                (* warp_affine(x, m, dsize=(112, 112)) *)
| CosSim                       (* F.cosine_similarity(a, b, dim=-1) *)
| L1Loss                       (* torch.nn.functional.l1_loss *)
| Cat1.                        (* torch.cat([a, b], dim=1) *)

Inductive render_key : Type := RenderUV | RenderLandmarks.

#[warnings="-register-all"] Inductive tensor : Type :=
| TNum (q : Q)                                  (* a Python number *)
| TIn (x : data)                                (* an array of the caller *)
| TRandom (label : string)                      (* torch.rand(...) *)
| TUn (op : unop) (a : tensor)
| TBin (op : binop) (a b : tensor)
| TResize (a : tensor) (size : Z)               (* filtered_resizing *)
| TBlur (a : tensor) (sigma : Q) (blur_size : Z) (* upfirdn2d.filter2d(a, f / f.sum()) *)
| TLeaf (a : tensor) (requires_grad : bool)     (* a.detach().requires_grad_(b) *)
| TRender (fl : flame) (c : data) (half_size : Z) (key : render_key)
| TSynth (a : synthesis_args) (key : string)    (* self.G.synthesis(...)[key] *)
| TDeformCanonical (fl : flame) (coordinates : tensor)
| TRunModel (planes coordinates directions : tensor)
| TSampleMixed (a : sample_args) (coordinates directions : tensor)
               (member : option nat) (key : string)
| TDisc (img : list (string * tensor)) (c : data) (update_emas : bool) (* self.D(img, c) *)
| TGrad (output input : tensor).                (* torch.autograd.grad *)

Definition dict : Type := list (string * tensor).

Fixpoint dict_lookup (d : dict) (k : string) : option tensor :=
  match d with
  | [] => None
  | (k', v) :: d' => if String.eqb k' k then Some v else dict_lookup d' k
  end.

(** [d[k]] *)
Definition dict_get (d : dict) (k : string) : result tensor :=
  match dict_lookup d k with
  | Some v => Ok v
  | None => Raise (KeyError k)
  end.

(** [d[k] = v] *)
Fixpoint dict_set (d : dict) (k : string) (v : tensor) : dict :=
  match d with
  | [] => [(k, v)]
  | (k', v') :: d' =>
      if String.eqb k' k then (k, v) :: d' else (k', v') :: dict_set d' k v
  end.

(** A Python value that may be [None]: using [None] as a tensor raises. *)
Definition need (what : string) (v : option tensor) : result tensor :=
  match v with
  | Some t => Ok t
  | None => Raise (TypeError what)
  end.

(** Is the value a plain Python number (no tensor involved)? *)
Fixpoint is_pynum (t : tensor) : bool :=
  match t with
  | TNum _ => true
  | TBin (Add | Sub | Mul | Div) a b => is_pynum a && is_pynum b
  | _ => false
  end.

(** [x.mean()] and [x.mul(g)] are tensor methods; a Python number has none. *)
Definition method_mean (x : tensor) : result tensor :=
  if is_pynum x then Raise (AttributeError "mean") else Ok (TUn Mean x).

Definition method_mul (x : tensor) (g : Q) : result tensor :=
  if is_pynum x then Raise (AttributeError "mul") else Ok (TBin Mul x (TNum g)).

(** ** Gradient paths

    [through_G t] (resp. [through_D t]): differentiating [t] reaches a module
    of the generator (resp. the discriminator).  [detach] cuts the path. *)

Fixpoint through_G (t : tensor) : bool :=
  match t with
  | TNum _ | TIn _ | TRandom _ | TLeaf _ _ => false
  | TUn Detach _ => false
  | TUn _ a => through_G a
  | TBin _ a b => through_G a || through_G b
  | TResize a _ | TBlur a _ _ => through_G a
  | TRender _ _ _ _ | TSynth _ _ | TDeformCanonical _ _ | TRunModel _ _ _
  | TSampleMixed _ _ _ _ _ => true
  | TDisc img _ _ =>
      (fix any (l : list (string * tensor)) : bool :=
         match l with
         | [] => false
         | (_, v) :: l' => through_G v || any l'
         end) img
  | TGrad output _ => through_G output
  end.

Fixpoint through_D (t : tensor) : bool :=
  match t with
  | TNum _ | TIn _ | TRandom _ | TLeaf _ _ => false
  | TUn Detach _ => false
  | TUn _ a => through_D a
  | TBin _ a b => through_D a || through_D b
  | TResize a _ | TBlur a _ _ => through_D a
  | TRender _ _ _ _ | TSynth _ _ => false
  | TDeformCanonical _ c => through_D c
  | TRunModel p c d => through_D p || through_D c || through_D d
  | TSampleMixed _ c d _ _ => through_D c || through_D d
  | TDisc _ _ _ => true
  | TGrad output _ => through_D output
  end.

(** ** The world: the log of external effects and the random source

    [rand_stream] is the sequence of values that successive scalar draws of
    [torch.rand] will produce; [rand_pos] counts the draws consumed so far.
    Calls to [training_stats.report] are not logged: they do not influence
    any value or gradient. *)

Inductive event : Type :=
| CallSynthesis (a : synthesis_args)
| CallSampleMixed (a : sample_args) (coordinates directions : tensor)
| CallD (img : dict) (c : data) (update_emas : bool)
| Backward (loss : tensor).                     (* loss.backward() *)

Record world : Type := {
  log : list event;
  rand_stream : nat -> Q;
  rand_pos : nat
}.

Definition M (A : Type) : Type := world -> result A * world.

Definition ret {A} (a : A) : M A := fun w => (Ok a, w).

Definition bind {A B} (m : M A) (k : A -> M B) : M B :=
  fun w =>
    match m w with
    | (Ok a, w') => k a w'
    | (Raise e, w') => (Raise e, w')
    end.

Definition lift {A} (r : result A) : M A := fun w => (r, w).

Definition emit (e : event) : M unit :=
  fun w => (Ok tt, {| log := log w ++ [e];
                      rand_stream := rand_stream w;
                      rand_pos := rand_pos w |}).

(** [torch.rand((n, 1))]: the next [n] uniform draws. *)
Definition torch_rand (n : nat) : M (list Q) :=
  fun w => (Ok (map (rand_stream w) (seq (rand_pos w) n)),
            {| log := log w;
               rand_stream := rand_stream w;
               rand_pos := rand_pos w + n |}).

Notation "x <- m ;; k" := (bind m (fun x => k))
  (at level 61, m at next level, right associativity).
Notation "m ;;; k" := (bind m (fun _ => k))
  (at level 61, right associativity).

(** [if b: body] with no [else]. *)
Definition when (b : bool) (body : M unit) : M unit :=
  if b then body else ret tt.

(** ** Conditioning (lines 171-192, repeated verbatim on lines 373-392) *)

Record conditioning : Type := {
  imgs_app_conditioning : list data;
  motion_scale_conditioning : list Q;
  motions_app_conditioning : list data
}.

(** Lines 171-181: swap conditioning.  [motion_scale] is already the batch
    [torch.ones([B, 1, 1]) * motion_scale]. *)
Definition swap_conditioning (imgs_app imgs_mot motions_app motions : list data)
    (motion_scale : list Q) (swapping_prob : option Q) : M conditioning :=
  match swapping_prob with
  | Some p =>
      let imgs_app_swapped := imgs_mot in
      prob <- torch_rand (List.length imgs_app) ;;
      let cond := map (fun u => Qltb u p) prob in
      ia <- lift (torch_where cond imgs_app_swapped imgs_app) ;;
      ms <- lift (torch_where cond (zeros_like motion_scale) motion_scale) ;;
      ma <- lift (torch_where cond motions motions_app) ;;
      ret {| imgs_app_conditioning := ia;
             motion_scale_conditioning := ms;
             motions_app_conditioning := ma |}
  | None =>
      ret {| imgs_app_conditioning := imgs_app;
             motion_scale_conditioning := motion_scale;
             motions_app_conditioning := motions_app |}
  end.

(** Lines 185-192: the half-static override of the motion scale. *)
Definition half_static_override (batch : nat) (motion_scale : list Q)
    (swapping_prob : option Q) (half_static : bool)
    (motion_scale_conditioning : list Q) : M (list Q) :=
  if half_static then
    let num_static := Nat.div batch 2 in
    match swapping_prob with
    | None =>
        ret (firstn num_static motion_scale
             ++ map (fun x => (x * 0)%Q) (skipn num_static motion_scale))
    | Some p =>
        prob <- torch_rand num_static ;;
        motion_scale_static <-
          lift (torch_where (map (fun u => Qltb u (1 - p)) prob)
                            (zeros_like (skipn num_static motion_scale))
                            (skipn num_static motion_scale)) ;;
        ret (firstn num_static motion_scale_conditioning ++ motion_scale_static)
    end
  else ret motion_scale_conditioning.

Definition conditioning_of (imgs_app imgs_mot motions_app motions : list data)
    (motion_scale : Q) (swapping_prob : option Q) (half_static : bool)
    : M conditioning :=
  let batch := List.length imgs_app in
  let motion_scale := map (fun one => (one * motion_scale)%Q) (repeat 1%Q batch) in
  cnd <- swap_conditioning imgs_app imgs_mot motions_app motions
                           motion_scale swapping_prob ;;
  ms <- half_static_override batch motion_scale swapping_prob half_static
                             (motion_scale_conditioning cnd) ;;
  ret {| imgs_app_conditioning := imgs_app_conditioning cnd;
         motion_scale_conditioning := ms;
         motions_app_conditioning := motions_app_conditioning cnd |}.

(** ** [run_G] (lines 164-198) *)

(** The entries of the dictionary returned by [self.G.synthesis] that the
    step reads. *)
Definition synthesis_keys : list string :=
  [ "image_sr"; "image"; "image_wobg"; "seg"; "image_depth"; "image_feature";
    "image_feature_wobg"; "background_feature"; "rgb_bg"; "planes" ]%string.

Definition G_synthesis (a : synthesis_args) : M dict :=
  emit (CallSynthesis a) ;;;
  ret (map (fun k => (k, TSynth a k)) synthesis_keys).

Definition run_G (self : config) (imgs_app imgs_mot : list data) (fl : flame)
    (motions_app motions : list data) (c : data)
    (neural_rendering_resolution neural_rendering_resolution_patch : Z)
    (motion_scale : Q) (swapping_prob : option Q) (half_static : bool) : M dict :=
  let half_size := Z.quot (G_img_resolution self) 2 in
  let uv := TRender fl c half_size RenderUV in
  let landmarks := TRender fl c half_size RenderLandmarks in
  let _deformer := fl in
  cnd <- conditioning_of imgs_app imgs_mot motions_app motions
                         motion_scale swapping_prob half_static ;;
  gen_output <- G_synthesis
    {| sa_imgs_app := imgs_app_conditioning cnd;
       sa_imgs_mot := imgs_mot;
       sa_motions_app := motions_app_conditioning cnd;
       sa_motions := motions;
       sa_c := c;
       sa_deformer := _deformer;
       sa_neural_rendering_resolution := neural_rendering_resolution;
       sa_motion_scale := motion_scale_conditioning cnd |} ;;
  let gen_output := dict_set gen_output "uv" uv in
  let gen_output := dict_set gen_output "landmarks" landmarks in
  ret gen_output.

(** ** [run_D] (lines 200-212)

    The blur writes into the dictionary it was given; the possibly updated
    dictionary is returned next to the logits so that the caller keeps
    seeing the same object. *)
Definition run_D (self : config) (img : dict) (c : data) (blur_sigma : Q)
    (update_emas : bool) : M (tensor * dict) :=
  let blur_size := blur_half_width blur_sigma in
  img <- (if (0 <? blur_size)%Z then
            if G_has_superresolution self then
              x <- lift (dict_get img "image_sr") ;;
              ret (dict_set img "image_sr" (TBlur x blur_sigma blur_size))
            else
              x <- lift (dict_get img "image") ;;
              ret (dict_set img "image" (TBlur x blur_sigma blur_size))
          else ret img) ;;
  emit (CallD img c update_emas) ;;;
  ret (TDisc img c update_emas, img).

(** ** Arguments of [accumulate_gradients] (line 214) *)

Record inputs : Type := {
  phase : string;
  real_img_app : list data;
  real_img_mot : list data;
  real_img_recon : data;
  real_seg_recon : data;
  real_seg_recon_render : option data;
  real_uv_recon : data;
  real_c_recon : data;
  real_c_compose_recon : data;
  shape_params_app : data;
  exp_params_mot : data;
  pose_params_mot : data;
  eye_pose_params_mot : data;
  motions_app : list data;
  motions : list data;
  gain : Q;
  cur_nimg : Z;
  real_depth_recon : option data;
  real_feature_recon : option data;
  real_feature_recon_bg : option data;
  real_triplane_recon : option data;
  motion_scale : Q;
  swapping_prob : option Q;
  half_static : bool
}.

Definition flame_of (inp : inputs) : flame :=
  {| shape_params := shape_params_app inp;
     exp_params := exp_params_mot inp;
     pose_params := pose_params_mot inp;
     eye_pose_params := eye_pose_params_mot inp |}.

(** Tensor arithmetic as written in the source. *)
Notation "a +t b" := (TBin Add a b) (at level 50, left associativity).
Notation "a -t b" := (TBin Sub a b) (at level 50, left associativity).
Notation "a *t b" := (TBin Mul a b) (at level 40, left associativity).
Notation "a /t b" := (TBin Div a b) (at level 40, left associativity).

(** ** Real targets (lines 238-264) *)

(** The locals after line 259.  [v_real_img_raw] and [v_real_seg_raw] are
    bound on the super-resolution branch only; [v_real_seg_recon_render] and
    [v_real_feature_recon_bg] are rebound parameters and may hold [None]. *)
Record targets : Type := {
  v_real_img : dict;
  v_real_img_raw : option tensor;
  v_real_seg_raw : option tensor;
  v_real_seg_recon_render : option tensor;
  v_real_feature_recon_bg : option tensor
}.

Definition blur_targets (blur_sigma : Q) (raw seg : tensor) : tensor * tensor :=
  if blur_raw_target && Qltb 0 blur_sigma then
    let blur_size := blur_half_width blur_sigma in
    if (0 <? blur_size)%Z
    then (TBlur raw blur_sigma blur_size, TBlur seg blur_sigma blur_size)
    else (raw, seg)
  else (raw, seg).

Definition real_targets (self : config) (inp : inputs) (blur_sigma : Q)
    (neural_rendering_resolution : Z) : result targets :=
  if G_has_superresolution self then
    let real_img_raw := TResize (TIn (real_img_recon inp)) neural_rendering_resolution in
    let real_seg_raw := TResize (TIn (real_seg_recon inp)) neural_rendering_resolution in
    let real_seg_recon_render :=
      match real_seg_recon_render inp with
      | None => real_seg_raw
      | Some x => TResize (TIn x) neural_rendering_resolution
      end in
    let real_feature_recon_bg :=
      match real_feature_recon_bg inp with
      | Some x => Some (TResize (TIn x) neural_rendering_resolution)
      | None => None
      end in
    let '(real_img_raw, real_seg_raw) := blur_targets blur_sigma real_img_raw real_seg_raw in
    Ok {| v_real_img :=
            [ ("image_sr", TIn (real_img_recon inp));
              ("uv", TIn (real_uv_recon inp));
              ("image", real_img_raw);
              ("seg", TUn MeanDim1 real_seg_recon_render) ]%string;
          v_real_img_raw := Some real_img_raw;
          v_real_seg_raw := Some real_seg_raw;
          v_real_seg_recon_render := Some real_seg_recon_render;
          v_real_feature_recon_bg := real_feature_recon_bg |}
  else
    match need "mean" (option_map TIn (real_seg_recon_render inp)) with
    | Ok seg =>
        Ok {| v_real_img :=
                [ ("image", TIn (real_img_recon inp));
                  ("uv", TIn (real_uv_recon inp));
                  ("seg", TUn MeanDim1 seg) ]%string;
              v_real_img_raw := None;
              v_real_seg_raw := None;
              v_real_seg_recon_render := option_map TIn (real_seg_recon_render inp);
              v_real_feature_recon_bg := option_map TIn (real_feature_recon_bg inp) |}
    | Raise e => Raise e
    end.

(** Lines 261-264: the foreground-only and background-only raw targets,
    computed on every path. *)
Record masked_targets : Type := {
  real_img_recon_wobg_raw : tensor;
  real_img_bg_raw : tensor
}.

Definition masked_real_targets (tg : targets) : result masked_targets :=
  match load "real_img_raw" (v_real_img_raw tg) with
  | Ok real_img_raw =>
      match need "add" (v_real_seg_recon_render tg) with
      | Ok seg =>
          let wobg := (real_img_raw +t TNum 1) *t TNum (1 # 2)
                      *t (seg +t TNum 1) *t TNum (1 # 2) in
          let wobg := TNum 2 *t wobg -t TNum 1 in
          let bg := (real_img_raw +t TNum 1) *t TNum (1 # 2)
                    *t (TNum 1 -t (seg +t TNum 1) *t TNum (1 # 2)) in
          let bg := TNum 2 *t bg -t TNum 1 in
          Ok {| real_img_recon_wobg_raw := wobg; real_img_bg_raw := bg |}
      | Raise e => Raise e
      end
  | Raise e => Raise e
  end.

(** ** Reconstruction losses (lines 273-346) *)

Record recon_terms : Type := {
  loss_recon_lpips : tensor;
  loss_recon_l1 : tensor;
  loss_recon_seg : tensor;
  loss_recon_depth : tensor;
  loss_recon_feature : tensor;
  loss_recon_triplane : tensor;
  loss_id : tensor
}.

(** Line 346. *)
Definition loss_recon_of (t : recon_terms) : tensor :=
  loss_recon_lpips t +t loss_recon_l1 t +t loss_recon_seg t *t TNum (3 # 10)
  +t loss_recon_depth t +t loss_recon_feature t
  +t loss_recon_triplane t *t TNum (1 # 10) +t loss_id t.

(** [torch.abs(x).mean()] *)
Definition abs_mean (x : tensor) : tensor := TUn Mean (TUn Abs x).

(** The background image of the generator, masked by the rendered
    segmentation (lines 286 and 293). *)
Definition masked_gen_bg (gen_img_bg seg : tensor) : tensor :=
  ((gen_img_bg +t TNum 1) *t TNum (1 # 2)
   *t (TNum 1 -t (seg +t TNum 1) *t TNum (1 # 2))) *t TNum 2 -t TNum 1.

(** The identity term before the gate of line 310 (lines 300-306). *)
Definition identity_distance (landmarks gen_img_recon real_img_recon : tensor) : tensor :=
  let trans_m := TBin EstimateNorm landmarks (TUn ShapeLast real_img_recon) in
  let gen_img_recon_warp := TBin WarpAffine112 gen_img_recon trans_m in
  let real_img_recon_warp := TBin WarpAffine112 real_img_recon trans_m in
  let gen_id := TUn Facenet (TUn Clamp11 gen_img_recon_warp) in
  let real_id := TUn Facenet (TUn Detach (TUn Clamp11 real_img_recon_warp)) in
  TUn Mean (TNum 1 -t TBin CosSim gen_id real_id).

(** [self.lpips] is first called on line 286 (or 288), where its first
    operands are locals already bound; [self.facenet] is first called on
    line 303. *)
Definition recon_losses (self : config) (inp : inputs) (tg : targets)
    (mt : masked_targets) (gen_img : dict) : result recon_terms :=
  gen_img_recon <~ dict_get gen_img "image_sr" ;;
  gen_img_recon_raw <~ dict_get gen_img "image" ;;
  gen_img_recon_raw_wobg <~ dict_get gen_img "image_wobg" ;;
  gen_seg <~ dict_get gen_img "seg" ;;
  gen_depth <~ dict_get gen_img "image_depth" ;;
  gen_feature <~ dict_get gen_img "image_feature" ;;
  gen_feature_wobg <~ dict_get gen_img "image_feature_wobg" ;;
  gen_feature_bg <~ dict_get gen_img "background_feature" ;;
  gen_img_bg <~ dict_get gen_img "rgb_bg" ;;
  gen_triplane <~ dict_get gen_img "planes" ;;
  landmarks <~ dict_get gen_img "landmarks" ;;
  let real_img_recon := TIn (real_img_recon inp) in
  _ <~ call (lpips self) ;;
  real_img_raw <~ load "real_img_raw" (v_real_img_raw tg) ;;
  seg_render <~ need "add" (v_real_seg_recon_render tg) ;;
  let lpips_common :=
    TBin Lpips gen_img_recon real_img_recon
    +t TBin Lpips gen_img_recon_raw real_img_raw
    +t TBin Lpips gen_img_recon_raw_wobg (real_img_recon_wobg_raw mt) in
  let lrecon_lpips :=
    match v_real_feature_recon_bg tg with
    | None =>
        lpips_common
        +t TBin Lpips (masked_gen_bg gen_img_bg seg_render) (real_img_bg_raw mt)
    | Some bg => lpips_common +t TBin Lpips gen_img_bg (TUn (Chan 0 3) bg)
    end in
  let l1_common :=
    abs_mean (gen_img_recon -t real_img_recon)
    +t abs_mean (gen_img_recon_raw -t real_img_raw)
    +t abs_mean (gen_img_recon_raw_wobg -t real_img_recon_wobg_raw mt) in
  let l1 :=
    match v_real_feature_recon_bg tg with
    | None =>
        l1_common
        +t abs_mean (masked_gen_bg gen_img_bg seg_render -t real_img_bg_raw mt)
    | Some bg => l1_common +t abs_mean (gen_img_bg -t TUn (Chan 0 3) bg)
    end in
  _ <~ call (facenet self) ;;
  let lid := identity_distance landmarks gen_img_recon real_img_recon in
  let lid := if (cur_nimg inp <? 400000)%Z then TNum 0 else lid in
  let lseg := abs_mean (seg_render -t gen_seg) in
  ldepth <~
    match real_depth_recon inp with
    | Some d =>
        if (cur_nimg inp <? 400000)%Z then
          seg_raw <~ load "real_seg_raw" (v_real_seg_raw tg) ;;
          Ok (abs_mean ((TIn d -t gen_depth) *t (TUn (Chan 0 1) seg_raw +t TNum 1)
                        *t TNum (1 # 2)))
        else Ok (TNum 0)
    | None => Ok (TNum 0)
    end ;;
  lfeature <~
    match real_feature_recon inp with
    | Some f =>
        if (cur_nimg inp <? 400000)%Z then
          let rf := (TIn f +t TNum 1) *t TNum (1 # 2)
                    *t (TUn (Chan 0 1) seg_render +t TNum 1) *t TNum (1 # 2) in
          let rf := TNum 2 *t rf -t TNum 1 in
          bg <~ need "sub" (v_real_feature_recon_bg tg) ;;
          Ok (abs_mean (rf -t gen_feature_wobg) +t abs_mean (bg -t gen_feature_bg))
        else Ok (TNum 0)
    | None => Ok (TNum 0)
    end ;;
  ltriplane <~
    match real_triplane_recon inp with
    | Some tp =>
        if (cur_nimg inp <? 400000)%Z then
          let coordinates := TUn (LastTo 3) (TIn tp) in
          let coordinates := TDeformCanonical (flame_of inp) coordinates in
          let gen_triplane_recon :=
            TRunModel gen_triplane coordinates (TUn ZerosLike coordinates) in
          Ok (abs_mean (TUn (LastFrom 3) (TIn tp) -t gen_triplane_recon))
        else Ok (TNum 0)
    | None => Ok (TNum 0)
    end ;;
  Ok {| loss_recon_lpips := lrecon_lpips;
        loss_recon_l1 := l1;
        loss_recon_seg := lseg;
        loss_recon_depth := ldepth;
        loss_recon_feature := lfeature;
        loss_recon_triplane := ltriplane;
        loss_id := lid |}.

(** ** The discriminator gate (lines 349 and 414) *)
Definition discriminator_active (self : config) (cur_nimg : Z) : bool :=
  Qgeb (inject_Z cur_nimg) (discrimination_kimg self * 1000) && use_D self.

(** ** Gmain (lines 268-363) *)
Definition Gmain_block (self : config) (inp : inputs) (sp : step_params)
    (neural_rendering_resolution neural_rendering_resolution_patch : Z)
    (tg : targets) (mt : masked_targets) : M unit :=
  gen_img <- run_G self (real_img_app inp) (real_img_mot inp) (flame_of inp)
                   (motions_app inp) (motions inp) (real_c_recon inp)
                   neural_rendering_resolution neural_rendering_resolution_patch
                   (motion_scale inp) (swapping_prob inp) (half_static inp) ;;
  terms <- lift (recon_losses self inp tg mt gen_img) ;;
  let loss_recon := loss_recon_of terms in
  loss_Gmain <-
    (if discriminator_active self (cur_nimg inp) then
       let c_compose_condition := real_c_compose_recon inp in
       r <- run_D self gen_img c_compose_condition (sp_blur_sigma sp) false ;;
       let gen_logits := fst r in
       ret (Some (TUn Softplus (TUn Neg gen_logits)))
     else ret None) ;;
  loss_G <- lift (method_mean loss_recon) ;;
  loss_G <-
    match loss_Gmain with
    | Some l =>
        m <- lift (method_mean l) ;;
        ret (loss_G +t m *t TNum (gmain self))
    | None => ret loss_G
    end ;;
  l <- lift (method_mul loss_G (gain inp)) ;;
  emit (Backward l).

(** ** Density regularization (lines 366-411) *)

(** [d[k]] on [rendering_kwargs]. *)
Definition kwarg {A} (k : string) (v : option A) : result A :=
  match v with
  | Some a => Ok a
  | None => Raise (KeyError k)
  end.

(** The condition of line 366, with the short-circuit of [and]. *)
Definition density_gate (self : config) (phase : string) : result bool :=
  if phase_in phase ["Greg"; "Gboth"]%string then
    if Qltb 0 (density_reg_or_0 self) then
      t <~ kwarg "reg_type" (reg_type (G_rendering_kwargs self)) ;;
      Ok (String.eqb t "l1")
    else Ok false
  else Ok false.

(** One summand of the loop of lines 397-401, or the body of lines 404-408. *)
Definition tv_term (sigma_all : tensor) : tensor :=
  let sigma := TUn (Dim1To (1000 * 2)) sigma_all in
  let sigma_initial := TUn Dim1FirstHalf sigma in
  let sigma_perturbed := TUn Dim1SecondHalf sigma in
  TBin L1Loss sigma_initial sigma_perturbed.

(** One iteration of the loop of lines 397-401, on member [i] of an
    [n]-tuple: [TVloss += l1_loss(...) * density_reg / len(out)]. *)
Definition tv_step (kw : rendering_kwargs) (a : sample_args)
    (coordinates directions : tensor) (n : nat)
    (acc : M tensor) (i : nat) : M tensor :=
  TVloss <- acc ;;
  dr <- lift (kwarg "density_reg" (density_reg kw)) ;;
  ret (TVloss +t tv_term (TSampleMixed a coordinates directions (Some i) "sigma")
                 *t TNum dr /t TNum (inject_Z (Z.of_nat n))).

(** Lines 395-409: [TVloss] from the output of [sample_mixed], which is a
    tuple of dictionaries or one dictionary. *)
Definition tv_loss (self : config) (a : sample_args)
    (coordinates directions : tensor) : M tensor :=
  let kw := G_rendering_kwargs self in
  match G_sample_mixed_tuple self with
  | Some n =>
      fold_left (tv_step kw a coordinates directions n) (seq 0 n) (ret (TNum 0))
  | None =>
      dr <- lift (kwarg "density_reg" (density_reg kw)) ;;
      ret (tv_term (TSampleMixed a coordinates directions None "sigma") *t TNum dr)
  end.

Definition density_block (self : config) (inp : inputs) : M unit :=
  let kw := G_rendering_kwargs self in
  let initial_coordinates := TRandom "initial_coordinates" *t TNum 2 -t TNum 1 in
  p_dist <- lift (kwarg "density_reg_p_dist" (density_reg_p_dist kw)) ;;
  bw <- lift (kwarg "box_warp" (box_warp kw)) ;;
  let perturbed_coordinates :=
    initial_coordinates +t TUn RandnLike initial_coordinates *t TNum p_dist *t TNum bw in
  let all_coordinates := TBin Cat1 initial_coordinates perturbed_coordinates in
  cnd <- conditioning_of (real_img_app inp) (real_img_mot inp) (motions_app inp)
                         (motions inp) (motion_scale inp) (swapping_prob inp)
                         (half_static inp) ;;
  let a := {| sm_imgs_app := imgs_app_conditioning cnd;
              sm_imgs_mot := real_img_mot inp;
              sm_motions_app := motions_app_conditioning cnd;
              sm_motions := motions inp;
              sm_flame := flame_of inp;
              sm_motion_scale := motion_scale_conditioning cnd |} in
  let directions := TUn RandnLike all_coordinates in
  emit (CallSampleMixed a all_coordinates directions) ;;;
  TVloss <- tv_loss self a all_coordinates directions ;;
  l <- lift (method_mul TVloss (gain inp)) ;;
  emit (Backward l).

(** ** R1 regularization (lines 453-488) *)

(** [g.square().sum([1,2,3])] *)
Definition sumsq (g : tensor) : tensor := TUn Sum123 (TUn Square g).

(** The gradient locals of the dual-discrimination branch (lines 456-474);
    all four stay unbound when the generator has no super-resolution. *)
Record r1_grad_vars : Type := {
  r1_grads_image : option tensor;
  r1_grads_image_raw : option tensor;
  r1_grads_uv : option tensor;
  r1_grads_seg : option tensor
}.

Definition dual_r1_grads (self : config) (output : tensor) (real_img_tmp : dict)
    : result r1_grad_vars :=
  if G_has_superresolution self then
    sr <~ dict_get real_img_tmp "image_sr" ;;
    raw <~ dict_get real_img_tmp "image" ;;
    if D_has_uv self && D_has_seg self then
      uv <~ dict_get real_img_tmp "uv" ;;
      seg <~ dict_get real_img_tmp "seg" ;;
      Ok {| r1_grads_image := Some (TGrad output sr);
            r1_grads_image_raw := Some (TGrad output raw);
            r1_grads_uv := Some (TGrad output uv);
            r1_grads_seg := Some (TGrad output seg) |}
    else if D_has_uv self then
      uv <~ dict_get real_img_tmp "uv" ;;
      Ok {| r1_grads_image := Some (TGrad output sr);
            r1_grads_image_raw := Some (TGrad output raw);
            r1_grads_uv := Some (TGrad output uv);
            r1_grads_seg := Some (TUn ZerosLike (TGrad output uv)) |}
    else if D_has_seg self then
      seg <~ dict_get real_img_tmp "seg" ;;
      Ok {| r1_grads_image := Some (TGrad output sr);
            r1_grads_image_raw := Some (TGrad output raw);
            r1_grads_uv := Some (TUn ZerosLike (TGrad output seg));
            r1_grads_seg := Some (TGrad output seg) |}
    else
      Ok {| r1_grads_image := Some (TGrad output sr);
            r1_grads_image_raw := Some (TGrad output raw);
            r1_grads_uv := Some (TUn ZerosLike (TGrad output sr));
            r1_grads_seg := Some (TUn ZerosLike (TGrad output sr)) |}
  else
    Ok {| r1_grads_image := None;
          r1_grads_image_raw := None;
          r1_grads_uv := None;
          r1_grads_seg := None |}.

(** The three penalty locals when line 488 is reached. *)
Record r1_penalty_vars : Type := {
  r1_penalty : option tensor;
  r1_penalty_uv : option tensor;
  r1_penalty_seg : option tensor
}.

Definition r1_penalties (self : config) (real_logits : tensor) (real_img_tmp : dict)
    : result r1_penalty_vars :=
  let output := TUn Sum real_logits in
  if dual_discrimination self then
    g <~ dual_r1_grads self output real_img_tmp ;;
    gi <~ load "r1_grads_image" (r1_grads_image g) ;;
    gr <~ load "r1_grads_image_raw" (r1_grads_image_raw g) ;;
    guv <~ load "r1_grads_uv" (r1_grads_uv g) ;;
    gseg <~ load "r1_grads_seg" (r1_grads_seg g) ;;
    Ok {| r1_penalty := Some (sumsq gi +t sumsq gr);
          r1_penalty_uv := Some (sumsq guv);
          r1_penalty_seg := Some (sumsq gseg) |}
  else
    x <~ dict_get real_img_tmp
           (if G_has_superresolution self then "image_sr" else "image")%string ;;
    let r1_grads_image := TGrad output x in
    let r1_penalty := sumsq r1_grads_image in
    Ok {| r1_penalty := Some r1_penalty;
          r1_penalty_uv := Some (TUn ZerosLike r1_penalty);
          r1_penalty_seg := None |}.

(** Line 488. *)
Definition r1_combine (sp : step_params) (v : r1_penalty_vars) : result tensor :=
  p <~ load "r1_penalty" (r1_penalty v) ;;
  u <~ load "r1_penalty_uv" (r1_penalty_uv v) ;;
  s <~ load "r1_penalty_seg" (r1_penalty_seg v) ;;
  Ok (p *t TNum (sp_r1_gamma sp / 2) +t u *t TNum (sp_r1_gamma_uv sp / 2)
      +t s *t TNum (sp_r1_gamma_seg sp / 2)).

Definition r1_loss (self : config) (sp : step_params) (real_logits : tensor)
    (real_img_tmp : dict) : result tensor :=
  v <~ r1_penalties self real_logits real_img_tmp ;;
  r1_combine sp v.

(** ** Dmain and Dreg (lines 414-493) *)

(** Lines 416-427. *)
Definition Dgen_block (self : config) (inp : inputs) (sp : step_params)
    (neural_rendering_resolution neural_rendering_resolution_patch : Z) : M unit :=
  gen_img <- run_G self (real_img_app inp) (real_img_mot inp) (flame_of inp)
                   (motions_app inp) (motions inp) (real_c_recon inp)
                   neural_rendering_resolution neural_rendering_resolution_patch
                   (motion_scale inp) (swapping_prob inp) (half_static inp) ;;
  let c_compose_condition := real_c_compose_recon inp in
  r <- run_D self gen_img c_compose_condition (sp_blur_sigma sp) true ;;
  let gen_logits := fst r in
  let loss_Dgen := TUn Softplus gen_logits in
  m <- lift (method_mean loss_Dgen) ;;
  l <- lift (method_mul m (gain inp)) ;;
  emit (Backward l).

(** Lines 431-493. *)
Definition Dreal_block (self : config) (inp : inputs) (sp : step_params)
    (phase : string) (tg : targets) : M unit :=
  let reg := phase_in phase ["Dreg"; "Dboth"]%string in
  let real_img := v_real_img tg in
  sr <- lift (dict_get real_img "image_sr") ;;
  uv <- lift (dict_get real_img "uv") ;;
  raw <- lift (dict_get real_img "image") ;;
  seg <- lift (dict_get real_img "seg") ;;
  let real_img_tmp :=
    [ ("image_sr", TLeaf sr reg); ("image", TLeaf raw reg);
      ("uv", TLeaf uv reg); ("seg", TLeaf seg reg) ]%string in
  let c_compose_condition := real_c_compose_recon inp in
  r <- run_D self real_img_tmp c_compose_condition (sp_blur_sigma sp) false ;;
  let real_logits := fst r in
  let real_img_tmp := snd r in
  let loss_Dreal :=
    if phase_in phase ["Dmain"; "Dboth"]%string
    then TUn Softplus (TUn Neg real_logits) else TNum 0 in
  loss_Dr1 <-
    (if phase_in phase ["Dreg"; "Dboth"]%string
     then lift (r1_loss self sp real_logits real_img_tmp)
     else ret (TNum 0)) ;;
  m <- lift (method_mean (loss_Dreal +t loss_Dr1)) ;;
  l <- lift (method_mul m (gain inp)) ;;
  emit (Backward l).

Definition D_block (self : config) (inp : inputs) (sp : step_params)
    (phase : string)
    (neural_rendering_resolution neural_rendering_resolution_patch : Z)
    (tg : targets) : M unit :=
  when (phase_in phase ["Dmain"; "Dboth"]%string)
       (Dgen_block self inp sp neural_rendering_resolution
                   neural_rendering_resolution_patch) ;;;
  when (phase_in phase ["Dmain"; "Dreg"; "Dboth"]%string)
       (Dreal_block self inp sp phase tg).

(** ** [accumulate_gradients] (lines 214-493) *)
Definition accumulate_gradients (self : config) (inp : inputs) : M unit :=
  let phase := collapse_phase self (phase inp) in
  let sp := step_hyperparams self (cur_nimg inp) in
  res <- lift (resolution_schedule self (cur_nimg inp)) ;;
  let neural_rendering_resolution := fst res in
  let neural_rendering_resolution_patch := snd res in
  tg <- lift (real_targets self inp (sp_blur_sigma sp) neural_rendering_resolution) ;;
  mt <- lift (masked_real_targets tg) ;;
  when (phase_in phase ["Gmain"; "Gboth"]%string)
       (Gmain_block self inp sp neural_rendering_resolution
                    neural_rendering_resolution_patch tg mt) ;;;
  dg <- lift (density_gate self phase) ;;
  when dg (density_block self inp) ;;;
  when (discriminator_active self (cur_nimg inp))
       (D_block self inp sp phase neural_rendering_resolution
                neural_rendering_resolution_patch tg).

End Model.

Arguments TNum {data} q.
Arguments TRandom {data} label.

(** ** Vocabulary for the statements *)

Section Vocabulary.

Variable data : Type.

(** The losses handed to [backward()], in order. *)
Fixpoint backward_losses (evs : list (event data)) : list (tensor data) :=
  match evs with
  | [] => []
  | Backward l :: evs' => l :: backward_losses evs'
  | _ :: evs' => backward_losses evs'
  end.

Definition is_backward (e : event data) : bool :=
  match e with
  | Backward _ => true
  | _ => false
  end.

Definition is_call_D (e : event data) : bool :=
  match e with
  | CallD _ _ _ => true
  | _ => false
  end.



(** The dictionary [run_G] returns for a synthesis call. *)
Definition gen_output_of (self : config) (fl : flame data) (c : data)
    (a : synthesis_args data) : dict data :=
  let half_size := Z.quot (G_img_resolution self) 2 in
  dict_set
    (dict_set (map (fun k => (k, TSynth a k)) synthesis_keys)
              "uv" (TRender fl c half_size RenderUV))
    "landmarks" (TRender fl c half_size RenderLandmarks).

(** The loss of line 360-363: [adv] is [loss_Gmain] when it is not [None]. *)
Definition Gmain_total (self : config) (inp : inputs data)
    (terms : recon_terms data) (adv : option (tensor data)) : tensor data :=
  TBin Mul
    match adv with
    | Some l =>
        TBin Add (TUn Mean (loss_recon_of terms))
                 (TBin Mul (TUn Mean l) (TNum (gmain self)))
    | None => TUn Mean (loss_recon_of terms)
    end
    (TNum (gain inp)).

(** Lines 229-264 as one step: the schedule and the real targets. *)
Definition prologue (self : config) (inp : inputs data)
    : result (Z * Z * targets data * masked_targets data) :=
  match resolution_schedule self (cur_nimg inp) with
  | Ok res =>
      match real_targets self inp
              (sp_blur_sigma (step_hyperparams self (cur_nimg inp))) (fst res) with
      | Ok tg =>
          match masked_real_targets tg with
          | Ok mt => Ok (res, tg, mt)
          | Raise e => Raise e
          end
      | Raise e => Raise e
      end
  | Raise e => Raise e
  end.

(** Line 366 as a boolean, when [reg_type] is present. *)
Definition density_on (self : config) (ph : string) : bool :=
  phase_in ph ["Greg"; "Gboth"]%string
  && Qltb 0 (density_reg_or_0 self)
  && match reg_type (G_rendering_kwargs self) with
     | Some t => String.eqb t "l1"
     | None => false
     end.





(** The uniform draws are in [0, 1), as [torch.rand] promises. *)
Definition unit_draws (w : world data) : Prop :=
  forall n, (0 <= rand_stream w n)%Q /\ (rand_stream w n < 1)%Q.

(** [torch.ones([B, 1, 1]) * motion_scale] *)
Definition ones_times (batch : nat) (motion_scale : Q) : list Q :=
  map (fun one => (one * motion_scale)%Q) (repeat 1%Q batch).

(** The draws of a [torch.rand((n, 1))] issued in world [w]. *)
Definition draws (w : world data) (n : nat) : list Q :=
  map (rand_stream w) (seq (rand_pos w) n).

(** Which elements a swap draw of [batch] uniform values selects: those
    whose draw is below [p]. *)
Definition swapped (w : world data) (batch : nat) (p : Q) : list bool :=
  map (fun u => Qltb u p) (draws w batch).

Definition advance (w : world data) (n : nat) : world data :=
  {| log := log w; rand_stream := rand_stream w; rand_pos := rand_pos w + n |}.

Definition logged (w : world data) (evs : list (event data)) : world data :=
  {| log := log w ++ evs; rand_stream := rand_stream w; rand_pos := rand_pos w |}.

(** *** Outcomes

    An outcome relates the result of a computation to the events it logged.
    The outcomes below describe the blocks of [accumulate_gradients]. *)

Definition outcome : Type := result unit -> list (event data) -> Prop.

(** A block that raised: it issued no backward pass, and called the
    discriminator only where [allow_D] permits. *)
Definition aborted (allow_D : bool) (evs : list (event data)) : Prop :=
  Forall (fun e => is_backward e = false /\ (is_call_D e = true -> allow_D = true))
         evs.

(** Every run of [m] appends events which, with the result, satisfy [O]. *)
Definition runs (m : M data unit) (O : outcome) : Prop :=
  forall w, exists evs,
    log (snd (m w)) = log w ++ evs /\ O (fst (m w)) evs.

Definition skipped : outcome := fun r evs => r = Ok tt /\ evs = [].

Definition guarded (b : bool) (O : outcome) : outcome :=
  if b then O else skipped.

(** [O1] followed by [O2], unless [O1] raised. *)
Definition followed_by (O1 O2 : outcome) : outcome :=
  fun r evs =>
    exists r1 evs1,
      O1 r1 evs1 /\
      match r1 with
      | Raise e => r = Raise e /\ evs = evs1
      | Ok _ => exists evs2, O2 r evs2 /\ evs = evs1 ++ evs2
      end.

(** [loss_Gmain] of line 352. *)
Definition adversarial_term (gen_img : dict data) (c : data) : tensor data :=
  TUn Softplus (TUn Neg (TDisc gen_img c false)).

Definition Gmain_outcome (self : config) (inp : inputs data)
    (tg : targets data) (mt : masked_targets data) : outcome :=
  fun r evs =>
    match r with
    | Ok _ =>
        exists a terms,
          let gen_img := gen_output_of self (flame_of inp) (real_c_recon inp) a in
          let c := real_c_compose_recon inp in
          recon_losses self inp tg mt gen_img = Ok terms /\
          evs = CallSynthesis a ::
                (if discriminator_active self (cur_nimg inp)
                 then [CallD gen_img c false;
                       Backward (Gmain_total self inp terms
                                   (Some (adversarial_term gen_img c)))]
                 else [Backward (Gmain_total self inp terms None)])
    | Raise _ => aborted (discriminator_active self (cur_nimg inp)) evs
    end.

Definition density_outcome (inp : inputs data) : outcome :=
  fun r evs =>
    match r with
    | Ok _ =>
        exists a coordinates directions TVloss,
          evs = [CallSampleMixed a coordinates directions;
                 Backward (TBin Mul TVloss (TNum (gain inp)))] /\
          through_D TVloss = false
    | Raise _ => aborted false evs
    end.

(** Line 366 and the block it guards. *)
Definition density_part (self : config) (inp : inputs data) (ph : string)
    : outcome :=
  fun r evs =>
    match density_gate self ph with
    | Ok dg => guarded dg (density_outcome inp) r evs
    | Raise e => r = Raise e /\ evs = []
    end.

Definition Dgen_outcome (self : config) (inp : inputs data) : outcome :=
  fun r evs =>
    match r with
    | Ok _ =>
        exists a,
          let gen_img := gen_output_of self (flame_of inp) (real_c_recon inp) a in
          let c := real_c_compose_recon inp in
          evs = [CallSynthesis a; CallD gen_img c true;
                 Backward (TBin Mul (TUn Mean (TUn Softplus (TDisc gen_img c true)))
                                    (TNum (gain inp)))]
    | Raise _ => aborted true evs
    end.

Definition Dreal_outcome (inp : inputs data) : outcome :=
  fun r evs =>
    match r with
    | Ok _ =>
        exists real_img_tmp loss,
          evs = [CallD real_img_tmp (real_c_compose_recon inp) false;
                 Backward (TBin Mul (TUn Mean loss) (TNum (gain inp)))]
    | Raise _ => aborted true evs
    end.

Definition D_outcome (self : config) (inp : inputs data) (ph : string) : outcome :=
  followed_by
    (guarded (phase_in ph ["Dmain"; "Dboth"]%string) (Dgen_outcome self inp))
    (guarded (phase_in ph ["Dmain"; "Dreg"; "Dboth"]%string) (Dreal_outcome inp)).

(** The whole step. *)
Definition step_outcome (self : config) (inp : inputs data) : outcome :=
  fun r evs =>
    match prologue self inp with
    | Raise e => r = Raise e /\ evs = []
    | Ok (_, tg, mt) =>
        let ph := collapse_phase self (phase inp) in
        followed_by
          (guarded (phase_in ph ["Gmain"; "Gboth"]%string)
                   (Gmain_outcome self inp tg mt))
          (followed_by
             (density_part self inp ph)
             (guarded (discriminator_active self (cur_nimg inp))
                      (D_outcome self inp ph)))
          r evs
    end.

End Vocabulary.

(** The clamped linear fade as the specification words it: a value
    interpolated from [initial] to [final] over [window] images starting at
    [start], the fraction clamped to [0, 1]. *)
Definition spec_clamped_fade (initial final start window cur : Q) : Q :=
  let fraction := py_min (py_max ((cur - start) / window) 0) 1 in
  (initial * (1 - fraction) + final * fraction)%Q.




(** The least product [blur_sigma * 3] that binary64 rounds up to 1: half a
    spacing below 1, [1 - 2^-54]. *)
Definition blur_threshold : Q := (1 - pow2 (-54))%Q.




(** ** Sample configurations and inputs

    Concrete values on which the statements below are exercised.  The
    caller's arrays are named by strings. *)

Definition sample_kwargs (density : Q) : rendering_kwargs :=
  {| density_reg := Some density;
     reg_type := Some "l1"%string;
     density_reg_p_dist := Some (4 # 1000)%Q;
     box_warp := Some 1%Q |}.

(** The defaults of the constructor, with the perceptual and the identity
    network supplied, for a generator with a super-resolution stage unless
    [sr] says otherwise. *)
Definition sample_config (final : option Z) (fade_kimg : Q)
    (dual sr used : bool) (density : Q) : config :=
  {| gmain := 1;
     r1_gamma := 10;
     r1_gamma_patch := 10;
     r1_gamma_uv := 30;
     r1_gamma_seg := 10;
     blur_init_sigma := 0;
     blur_fade_kimg := 0;
     r1_gamma_init := 0;
     r1_gamma_fade_kimg := 0;
     neural_rendering_resolution_initial := 64;
     neural_rendering_resolution_final := final;
     neural_rendering_resolution_fade_kimg := fade_kimg;
     discrimination_kimg := 1000;
     dual_discrimination := dual;
     patch_scale := 1;
     use_D := used;
     lpips := true;
     facenet := true;
     G_has_superresolution := sr;
     G_rendering_kwargs := sample_kwargs density;
     G_img_resolution := 512;
     G_sample_mixed_tuple := None;
     D_has_uv := false;
     D_has_seg := false |}.

Definition reference_config : config :=
  sample_config None 0 false true true 0.


(** Fade windows for blur and R1 gamma switched on. *)
Definition fading_config : config :=
  {| gmain := 1;
     r1_gamma := 10;
     r1_gamma_patch := 10;
     r1_gamma_uv := 30;
     r1_gamma_seg := 10;
     blur_init_sigma := 10;
     blur_fade_kimg := 200;
     r1_gamma_init := 1;
     r1_gamma_fade_kimg := 100;
     neural_rendering_resolution_initial := 64;
     neural_rendering_resolution_final := None;
     neural_rendering_resolution_fade_kimg := 0;
     discrimination_kimg := 1000;
     dual_discrimination := false;
     patch_scale := 1;
     use_D := true;
     lpips := true;
     facenet := true;
     G_has_superresolution := true;
     G_rendering_kwargs := sample_kwargs 0;
     G_img_resolution := 512;
     G_sample_mixed_tuple := None;
     D_has_uv := false;
     D_has_seg := false |}.

(** A batch of two, no optional ground truth. *)
Definition sample_inputs (ph : string) (cur : Z) (swap : option Q)
    (static : bool) : inputs string :=
  {| phase := ph;
     real_img_app := ["app0"; "app1"]%string;
     real_img_mot := ["mot0"; "mot1"]%string;
     real_img_recon := "real_img_recon"%string;
     real_seg_recon := "real_seg_recon"%string;
     real_seg_recon_render := None;
     real_uv_recon := "real_uv_recon"%string;
     real_c_recon := "real_c_recon"%string;
     real_c_compose_recon := "real_c_compose_recon"%string;
     shape_params_app := "shape"%string;
     exp_params_mot := "exp"%string;
     pose_params_mot := "pose"%string;
     eye_pose_params_mot := "eye_pose"%string;
     motions_app := ["emb_app0"; "emb_app1"]%string;
     motions := ["emb_mot0"; "emb_mot1"]%string;
     gain := 1;
     cur_nimg := cur;
     real_depth_recon := None;
     real_feature_recon := None;
     real_feature_recon_bg := None;
     real_triplane_recon := None;
     motion_scale := 1;
     swapping_prob := swap;
     half_static := static |}.

(** A world with an empty log whose draws follow [stream]. *)
Definition sample_world (stream : nat -> Q) : world string :=
  {| log := []; rand_stream := stream; rand_pos := 0 |}.

(** Draws [1/10, 1/10, 9/10, 9/10, ...]: both elements of a batch of two
    are swapped at [swapping_prob = 1/2], the half-static draw is not. *)
Definition low_low_high (n : nat) : Q :=
  match n with
  | O | S O => (1 # 10)%Q
  | _ => (9 # 10)%Q
  end.
(** ** Further vocabulary *)

Section MoreVocabulary.

Variable data : Type.

(** The same call with another [phase] argument. *)
Definition with_phase (inp : inputs data) (ph : string) : inputs data :=
  {| phase := ph;
     real_img_app := real_img_app inp;
     real_img_mot := real_img_mot inp;
     real_img_recon := real_img_recon inp;
     real_seg_recon := real_seg_recon inp;
     real_seg_recon_render := real_seg_recon_render inp;
     real_uv_recon := real_uv_recon inp;
     real_c_recon := real_c_recon inp;
     real_c_compose_recon := real_c_compose_recon inp;
     shape_params_app := shape_params_app inp;
     exp_params_mot := exp_params_mot inp;
     pose_params_mot := pose_params_mot inp;
     eye_pose_params_mot := eye_pose_params_mot inp;
     motions_app := motions_app inp;
     motions := motions inp;
     gain := gain inp;
     cur_nimg := cur_nimg inp;
     real_depth_recon := real_depth_recon inp;
     real_feature_recon := real_feature_recon inp;
     real_feature_recon_bg := real_feature_recon_bg inp;
     real_triplane_recon := real_triplane_recon inp;
     motion_scale := motion_scale inp;
     swapping_prob := swapping_prob inp;
     half_static := half_static inp |}.

(** The phase tags that some block of [accumulate_gradients] tests for. *)
Definition handled_phases : list string :=
  ["Gmain"; "Gboth"; "Greg"; "Dmain"; "Dreg"; "Dboth"]%string.

End MoreVocabulary.

(** A batch of two with the optional ground truth as given. *)
Definition sample_inputs_with (ph : string) (cur : Z)
    (depth feature feature_bg triplane : option string) : inputs string :=
  {| phase := ph;
     real_img_app := ["app0"; "app1"]%string;
     real_img_mot := ["mot0"; "mot1"]%string;
     real_img_recon := "real_img_recon"%string;
     real_seg_recon := "real_seg_recon"%string;
     real_seg_recon_render := Some "real_seg_recon_render"%string;
     real_uv_recon := "real_uv_recon"%string;
     real_c_recon := "real_c_recon"%string;
     real_c_compose_recon := "real_c_compose_recon"%string;
     shape_params_app := "shape"%string;
     exp_params_mot := "exp"%string;
     pose_params_mot := "pose"%string;
     eye_pose_params_mot := "eye_pose"%string;
     motions_app := ["emb_app0"; "emb_app1"]%string;
     motions := ["emb_mot0"; "emb_mot1"]%string;
     gain := 1;
     cur_nimg := cur;
     real_depth_recon := depth;
     real_feature_recon := feature;
     real_feature_recon_bg := feature_bg;
     real_triplane_recon := triplane;
     motion_scale := 1;
     swapping_prob := Some (1 # 2)%Q;
     half_static := false |}.

(** The constructor's defaults around the given rendering options, output
    shape of [sample_mixed], discrimination mode and discriminator
    capabilities; the generator has super-resolution and the perceptual and
    the identity network are supplied. *)
Definition sample_config_with (kw : rendering_kwargs) (tuple : option nat)
    (dual has_uv has_seg : bool) : config :=
  {| gmain := 1;
     r1_gamma := 10;
     r1_gamma_patch := 10;
     r1_gamma_uv := 30;
     r1_gamma_seg := 10;
     blur_init_sigma := 0;
     blur_fade_kimg := 0;
     r1_gamma_init := 0;
     r1_gamma_fade_kimg := 0;
     neural_rendering_resolution_initial := 64;
     neural_rendering_resolution_final := None;
     neural_rendering_resolution_fade_kimg := 0;
     discrimination_kimg := 1000;
     dual_discrimination := dual;
     patch_scale := 1;
     use_D := true;
     lpips := true;
     facenet := true;
     G_has_superresolution := true;
     G_rendering_kwargs := kw;
     G_img_resolution := 512;
     G_sample_mixed_tuple := tuple;
     D_has_uv := has_uv;
     D_has_seg := has_seg |}.

Section DiscriminatorVocabulary.

Variable data : Type.

(** The dictionary [real_img] of line 257, for rendering resolution [r]. *)
Definition real_images_of (inp : inputs data) (r : Z) : dict data :=
  [ ("image_sr", TIn (real_img_recon inp));
    ("uv", TIn (real_uv_recon inp));
    ("image", TResize (TIn (real_img_recon inp)) r);
    ("seg", TUn MeanDim1
              (match real_seg_recon_render inp with
               | None => TResize (TIn (real_seg_recon inp)) r
               | Some x => TResize (TIn x) r
               end)) ]%string.

(** The dictionary [real_img_tmp] of line 439: the real images detached,
    requiring gradients or not. *)
Definition real_leaves_of (inp : inputs data) (r : Z) (requires_grad : bool)
    : dict data :=
  [ ("image_sr", TLeaf (TIn (real_img_recon inp)) requires_grad);
    ("image", TLeaf (TResize (TIn (real_img_recon inp)) r) requires_grad);
    ("uv", TLeaf (TIn (real_uv_recon inp)) requires_grad);
    ("seg", TLeaf (TUn MeanDim1
                     (match real_seg_recon_render inp with
                      | None => TResize (TIn (real_seg_recon inp)) r
                      | Some x => TResize (TIn x) r
                      end)) requires_grad) ]%string.




End DiscriminatorVocabulary.

(** ** Python slices

    [x[start:stop]] along an axis of length [n], for integer bounds:
    a negative bound counts from the end, and both bounds are clipped to
    the axis. *)

Definition slice_bound (n i : Z) : Z :=
  if (i <? 0)%Z then Z.max (i + n) 0 else Z.min i n.

(** The first index kept and the number of indices kept. *)
Definition py_slice (n start stop : Z) : Z * Z :=
  let lo := slice_bound n start in
  let hi := slice_bound n stop in
  (lo, Z.max (hi - lo) 0).

(** ** [get_motion_feature] (lines 86-96): the crop

    The images are warped to 224 x 224 whatever [crop_size] is, then
    cropped by [imgs_warp[:, :, :crop_size - crop_len*2,
    crop_len:crop_size - crop_len]] and resized to [crop_size] squared.
    [motion_crop] is the cropped region: first row and number of rows,
    first column and number of columns. *)
Definition motion_crop (crop_size crop_len : Z) : (Z * Z) * (Z * Z) :=
  (py_slice 224 0 (crop_size - crop_len * 2),
   py_slice 224 crop_len (crop_size - crop_len)).

(** ** [gen_data_by_G_syn] (lines 99-162)

    The inputs have one row per subject and view; a row is an opaque array
    of the caller.  The model follows the rows through the reshapes, the
    random camera and the two [torch.where], and returns what the networks
    of [G_syn] are called with. *)

Section GenData.

Variable data : Type.

Notation "x <- m ;; k" := (bind m (fun x => k))
  (at level 61, m at next level, right associativity).

(** One row of the arguments of [LookAtPoseSampler.sample]: the horizontal
    mean is [pi/2 + la_horizontal], the vertical mean [pi/2 - la_vertical]. *)
Record look_at : Type := {
  la_horizontal : Q;
  la_vertical : Q;
  la_pivot : Q * Q * Q;
  la_radius : Q;
  la_roll : Q
}.

(** The first sixteen numbers of a camera row. *)
Inductive pose16 : Type :=
| PoseLookAt (args : look_at)      (* a row of the sampled [cam2world_pose] *)
| PoseCanonical.                   (* [eye(4)] with entry [2, 3] raised by 4 *)

(** A camera row of twenty-five numbers: a row [x] of the caller, or
    [torch.cat([pose, x[16:]])]. *)
Inductive camera : Type :=
| CamIn (x : data)
| CamCat (pose : pose16) (x : data).

(** The row of the caller whose intrinsics (last nine numbers) a camera
    carries. *)
Definition intrinsics_of (cam : camera) : data :=
  match cam with
  | CamIn x => x
  | CamCat _ x => x
  end.

(** [torch.cat([a, b], dim=-1)] on rows: the numbers of rows must agree. *)
Definition cat_rows {A B C} (f : A -> B -> C) (a : list A) (b : list B)
    : result (list C) :=
  if Nat.eqb (List.length a) (List.length b)
  then Ok (map (fun ab => f (fst ab) (snd ab)) (combine a b))
  else Raise (RuntimeError "size mismatch").

(** [x.reshape(-1, *x.shape[2:])]: subjects and views become one axis. *)
Definition flatten_views {A} (x : list (list A)) : list A := List.concat x.

(** [c[:, 0:1].repeat(1, 3, 1)] reshaped to rows: the first view of every
    subject, three times. *)
Definition first_view_thrice {A} (c : list (list A)) : list A :=
  List.concat (map (fun views => List.concat (repeat (firstn 1 views) 3)) c).

(** Lines 114-124: the rows of arguments of the pose sampler, from the seven
    batches of uniform draws. *)
Definition look_at_rows (n : nat) (u1 u2 u3 u4 u5 u6 u7 : list Q) : list look_at :=
  map (fun i =>
         let angle_ys_head := (nth i u1 0 * (78 # 100) * 2 - (78 # 100))%Q in
         let angle_ys_head2 :=
           (nth i u2 0 * (45 # 100) * 2 - (45 # 100) + (2 # 10))%Q in
         let angle_ys_head3 := (nth i u3 0 * (25 # 100) * 2 - (25 # 100))%Q in
         let cam_pivot_x := (nth i u4 0 * (2 # 100) - (1 # 100))%Q in
         let cam_pivot_y := (nth i u5 0 * (2 # 100) - (1 # 100))%Q in
         let cam_pivot_z := (nth i u6 0 * (2 # 100) - (1 # 100) + (3 # 100))%Q in
         let cam_radius := (nth i u7 0 * (8 # 10) + (365 # 100))%Q in
         {| la_horizontal := angle_ys_head;
            la_vertical := angle_ys_head2;
            la_pivot := (cam_pivot_x * 3, cam_pivot_y * 3, cam_pivot_z * 3)%Q;
            la_radius := cam_radius;
            la_roll := angle_ys_head3 |})
      (seq 0 n).

(** What the networks of [G_syn] are called with. *)
Record gen_data : Type := {
  gd_z : list data;                          (* [z], to mapping and synthesis *)
  gd_shape_params : list data;               (* the four FLAME arrays, to the *)
  gd_exp_params : list data;                 (* deformer, the synthesis and   *)
  gd_pose_params : list data;                (* the renderer                  *)
  gd_eye_pose_params : list data;
  gd_look_at : list look_at;                 (* to the pose sampler *)
  gd_c_syn : list camera;                    (* [out['c_compose']], decomposed
                                                into [out['c']] and rendered *)
  gd_c_cond : list (data * option data)      (* conditioning of both mapping
                                                calls: camera row and, with
                                                [flame_condition], shape row *)
}.

Definition gen_data_by_G_syn (flame_condition : bool)
    (z shape_params exp_params pose_params eye_pose_params c : list (list data))
    : M data gen_data :=
  let c_cond := first_view_thrice c in
  let z := flatten_views z in
  let shape_params := flatten_views shape_params in
  let exp_params := flatten_views exp_params in
  let pose_params := flatten_views pose_params in
  let eye_pose_params := flatten_views eye_pose_params in
  let c := flatten_views c in
  let n := List.length shape_params in
  (* random head rotation *)
  u1 <- torch_rand n ;;
  u2 <- torch_rand n ;;
  u3 <- torch_rand n ;;
  (* random camera pose *)
  u4 <- torch_rand n ;;
  u5 <- torch_rand n ;;
  u6 <- torch_rand n ;;
  u7 <- torch_rand n ;;
  let sampled := look_at_rows n u1 u2 u3 u4 u5 u6 u7 in
  c_syn <- lift (cat_rows (fun a x => CamCat (PoseLookAt a) x) sampled c) ;;
  prob <- torch_rand (List.length c) ;;
  c_syn <- lift (torch_where (map (fun u => Qltb u (1 # 2)) prob)
                             c_syn (map CamIn c)) ;;
  (* camera pose condition for mapping net *)
  c_cond_syn <- lift (cat_rows (fun p x => CamCat p x)
                               (repeat PoseCanonical n) c) ;;
  prob <- torch_rand (List.length c) ;;
  c_cond_syn <- lift (torch_where (map (fun u => Qltb u (1 # 2)) prob)
                                  c_cond_syn (map CamIn c_cond)) ;;
  c_cond <- (if flame_condition
             then lift (cat_rows (fun x s => (x, Some s)) c_cond shape_params)
             else ret (map (fun x => (x, None)) c_cond)) ;;
  ret {| gd_z := z;
         gd_shape_params := shape_params;
         gd_exp_params := exp_params;
         gd_pose_params := pose_params;
         gd_eye_pose_params := eye_pose_params;
         gd_look_at := sampled;
         gd_c_syn := c_syn;
         gd_c_cond := c_cond |}.

End GenData.

(** One subject seen from [views] views; the rows are named by strings. *)
Definition sample_views (name : string) (views : nat) : list (list string) :=
  [map (fun i => String.append name (String (Ascii.ascii_of_nat (48 + i)) ""))
       (seq 0 views)].
(** * Properties *)

Unset Implicit Arguments.

(** ** Numbers *)

Lemma Qltb_lt (a b : Q) : Qltb a b = true <-> (a < b)%Q.
Proof.
  unfold Qltb. rewrite negb_true_iff. split; intro H.
  - apply Qnot_le_lt. intro L. apply Qle_bool_iff in L. congruence.
  - destruct (Qle_bool b a) eqn:E; [| reflexivity].
    apply Qle_bool_iff in E. exfalso. exact (Qlt_not_le _ _ H E).
Qed.

Lemma Qltb_ge (a b : Q) : Qltb a b = false <-> (b <= a)%Q.
Proof.
  unfold Qltb. rewrite negb_false_iff. apply Qle_bool_iff.
Qed.


(** With the sigma of every step, 0, nothing is blurred. *)
Lemma blur_half_width_0 : blur_half_width 0 = 0%Z.
Proof. reflexivity. Qed.


Lemma clamp_low (x : Q) : (x <= 0)%Q -> (py_min (py_max x 0) 1 == 0)%Q.
Proof.
  intro H. unfold py_min, py_max.
  destruct (Qltb x 0) eqn:E0.
  - reflexivity.
  - apply Qltb_ge in E0.
    assert (X : (x == 0)%Q) by (apply Qle_antisym; assumption).
    destruct (Qltb 1 x) eqn:E1.
    + apply Qltb_lt in E1. rewrite X in E1. discriminate.
    + exact X.
Qed.



Lemma rint_integer (x : Q) (z : Z) : (x == inject_Z z)%Q -> rint x = z.
Proof.
  intro H. unfold rint.
  assert (F : Qfloor x = z) by (rewrite H; apply Qfloor_Z).
  rewrite F.
  assert (C : (x - inject_Z z ?= 1 # 2)%Q = Lt).
  { rewrite H. setoid_replace (inject_Z z - inject_Z z)%Q with 0%Q by ring.
    reflexivity. }
  rewrite C. reflexivity.
Qed.

Lemma rint_bounds (x : Q) : (Qfloor x <= rint x <= Qfloor x + 1)%Z.
Proof.
  unfold rint. destruct (x - inject_Z (Qfloor x) ?= 1 # 2)%Q; try lia.
  destruct (Z.even (Qfloor x)); lia.
Qed.

Lemma rint_mono (x y : Q) : (x <= y)%Q -> (rint x <= rint y)%Z.
Proof.
  intro Hle.
  pose proof (Qfloor_resp_le x y Hle) as Hf.
  pose proof (rint_bounds x) as Hx. pose proof (rint_bounds y) as Hy.
  destruct (Z.eq_dec (Qfloor x) (Qfloor y)) as [E | NE]; [| lia].
  unfold rint in *. rewrite <- E in *.
  destruct (Qcompare_spec (x - inject_Z (Qfloor x)) (1 # 2)) as [Hx1 | Hx1 | Hx1];
    destruct (Qcompare_spec (y - inject_Z (Qfloor x)) (1 # 2)) as [Hy1 | Hy1 | Hy1];
    try lia; try (destruct (Z.even (Qfloor x)); lia); exfalso; lra.
Qed.

Lemma rint_comp (x y : Q) : (x == y)%Q -> rint x = rint y.
Proof.
  intro H. apply Z.le_antisymm; apply rint_mono; rewrite H; apply Qle_refl.
Qed.

(** ** Powers of two *)

Lemma pow2_pos (e : Z) : (0 < pow2 e)%Q.
Proof. apply Qpower_0_lt. reflexivity. Qed.

Lemma pow2_add (a b : Z) : (pow2 (a + b) == pow2 a * pow2 b)%Q.
Proof. apply Qpower_plus. discriminate. Qed.

Lemma pow2_le (a b : Z) : (a <= b)%Z -> (pow2 a <= pow2 b)%Q.
Proof. intro H. apply Qpower_le_compat_l; [exact H | discriminate]. Qed.


Lemma pow2_lt_inv (a b : Z) : (pow2 a < pow2 b)%Q -> (a < b)%Z.
Proof. intro H. apply (Qpower_lt_compat_l_inv 2); [exact H | reflexivity]. Qed.

Lemma pow2_Z (n : Z) : (0 <= n)%Z -> (pow2 n == inject_Z (2 ^ n))%Q.
Proof. intro H. symmetry. apply (Zpower_Qpower 2 n H). Qed.

(** Dividing by [2^s] and reading the result against [2^k]. *)
Lemma scaled_le (x : Q) (s k : Z) :
  (x <= pow2 k)%Q -> (x / pow2 s <= pow2 (k - s))%Q.
Proof.
  intro H. apply Qle_shift_div_r; [apply pow2_pos |].
  rewrite <- pow2_add. replace (k - s + s)%Z with k by lia. exact H.
Qed.

Lemma scaled_ge (x : Q) (s k : Z) :
  (pow2 k <= x)%Q -> (pow2 (k - s) <= x / pow2 s)%Q.
Proof.
  intro H. apply Qle_shift_div_l; [apply pow2_pos |].
  rewrite <- pow2_add. replace (k - s + s)%Z with k by lia. exact H.
Qed.

(** ** The binary logarithm *)

Lemma ilog2_spec (x : Q) :
  (0 < x)%Q -> (pow2 (ilog2 x) <= x)%Q /\ (x < pow2 (ilog2 x + 1))%Q.
Proof.
  intro Hx. destruct x as [n d].
  assert (Hn : (0 < n)%Z).
  { unfold Qlt in Hx. simpl in Hx. lia. }
  unfold ilog2. cbn [Qnum Qden].
  set (a := Z.log2 n). set (b := Z.log2 (Z.pos d)).
  destruct (Z.log2_spec n Hn) as [Ha1 Ha2]. fold a in Ha1, Ha2.
  destruct (Z.log2_spec (Z.pos d) (Pos2Z.is_pos d)) as [Hb1 Hb2].
  fold b in Hb1, Hb2.
  assert (Ha0 : (0 <= a)%Z) by apply Z.log2_nonneg.
  assert (Hb0 : (0 <= b)%Z) by apply Z.log2_nonneg.
  assert (Pa : (0 < 2 ^ a)%Z) by (apply Z.pow_pos_nonneg; lia).
  assert (Pb : (0 < 2 ^ b)%Z) by (apply Z.pow_pos_nonneg; lia).
  rewrite Z.pow_succ_r in Ha2, Hb2 by assumption.
  (* the two bounds that always hold *)
  assert (Hlow : (pow2 (a - b - 1) <= n # d)%Q).
  { replace (a - b - 1)%Z with (a - (b + 1))%Z by lia.
    unfold pow2. rewrite Qpower_minus by discriminate.
    apply Qle_shift_div_r; [apply pow2_pos |].
    fold (pow2 a). fold (pow2 (b + 1)).
    rewrite (pow2_Z a), (pow2_Z (b + 1)) by lia.
    rewrite Z.pow_add_r by lia.
    unfold Qle, Qmult, inject_Z. cbn [Qnum Qden]. nia. }
  assert (Hhigh : (n # d < pow2 (a - b + 1))%Q).
  { replace (a - b + 1)%Z with (a + 1 - b)%Z by lia.
    unfold pow2. rewrite Qpower_minus by discriminate.
    apply Qlt_shift_div_l; [apply pow2_pos |].
    fold (pow2 b). fold (pow2 (a + 1)).
    rewrite (pow2_Z b), (pow2_Z (a + 1)) by lia.
    rewrite Z.pow_add_r by lia.
    unfold Qlt, Qmult, inject_Z. cbn [Qnum Qden]. nia. }
  destruct (Qle_bool (pow2 (a - b)) (n # d)) eqn:E.
  - apply Qle_bool_iff in E. split; assumption.
  - split; [exact Hlow |].
    replace (a - b - 1 + 1)%Z with (a - b)%Z by lia.
    apply Qnot_le_lt. intro L. apply Qle_bool_iff in L. congruence.
Qed.

Lemma ilog2_unique (x : Q) (e : Z) :
  (pow2 e <= x)%Q -> (x < pow2 (e + 1))%Q -> ilog2 x = e.
Proof.
  intros H1 H2.
  assert (Hx : (0 < x)%Q) by (eapply Qlt_le_trans; [apply (pow2_pos e) | exact H1]).
  destruct (ilog2_spec x Hx) as [S1 S2].
  assert (A : (e < ilog2 x + 1)%Z)
    by (apply pow2_lt_inv; eapply Qle_lt_trans; eassumption).
  assert (B : (ilog2 x < e + 1)%Z)
    by (apply pow2_lt_inv; eapply Qle_lt_trans; eassumption).
  lia.
Qed.

Lemma ilog2_comp (x y : Q) : (0 < x)%Q -> (x == y)%Q -> ilog2 x = ilog2 y.
Proof.
  intros Hx E. symmetry. destruct (ilog2_spec x Hx) as [S1 S2].
  apply ilog2_unique; rewrite <- E; assumption.
Qed.

Lemma ilog2_mono (x y : Q) : (0 < x)%Q -> (x <= y)%Q -> (ilog2 x <= ilog2 y)%Z.
Proof.
  intros Hx Hle.
  assert (Hy : (0 < y)%Q) by (eapply Qlt_le_trans; eassumption).
  destruct (ilog2_spec x Hx) as [S1 _]. destruct (ilog2_spec y Hy) as [_ T2].
  assert (A : (ilog2 x < ilog2 y + 1)%Z).
  { apply pow2_lt_inv. eapply Qle_lt_trans; [exact S1 |].
    eapply Qle_lt_trans; eassumption. }
  lia.
Qed.

(** ** Rounding *)

Lemma round_pos_unfold (x : Q) :
  round_pos x = (inject_Z (rint (x / pow2 (spacing x))) * pow2 (spacing x))%Q.
Proof. reflexivity. Qed.

Lemma round_pos_comp (x y : Q) :
  (0 < x)%Q -> (x == y)%Q -> (round_pos x == round_pos y)%Q.
Proof.
  intros Hx E. rewrite !round_pos_unfold. unfold spacing.
  rewrite (ilog2_comp x y Hx E).
  rewrite (rint_comp (x / pow2 (Z.max (ilog2 y - 52) (-1074)))
                     (y / pow2 (Z.max (ilog2 y - 52) (-1074))))
    by (rewrite E; reflexivity).
  reflexivity.
Qed.

(** A power of two no finer than the spacing bounds the rounded value as it
    bounds the value. *)
Lemma round_pos_le_pow2 (x : Q) (k : Z) :
  (spacing x <= k)%Z -> (x <= pow2 k)%Q -> (round_pos x <= pow2 k)%Q.
Proof.
  intros Hs Hle. rewrite round_pos_unfold.
  apply (scaled_le x (spacing x) k) in Hle.
  rewrite (pow2_Z (k - spacing x)) in Hle by lia.
  apply rint_mono in Hle. rewrite (rint_integer _ _ (Qeq_refl _)) in Hle.
  setoid_replace (pow2 k) with (pow2 (k - spacing x) * pow2 (spacing x))%Q
    by (rewrite <- pow2_add; replace (k - spacing x + spacing x)%Z with k by lia;
        reflexivity).
  apply Qmult_le_compat_r; [| apply Qlt_le_weak, pow2_pos].
  rewrite (pow2_Z (k - spacing x)) by lia. rewrite <- Zle_Qle. exact Hle.
Qed.

Lemma round_pos_ge_pow2 (x : Q) (k : Z) :
  (spacing x <= k)%Z -> (pow2 k <= x)%Q -> (pow2 k <= round_pos x)%Q.
Proof.
  intros Hs Hle. rewrite round_pos_unfold.
  apply (scaled_ge x (spacing x) k) in Hle.
  rewrite (pow2_Z (k - spacing x)) in Hle by lia.
  apply rint_mono in Hle. rewrite (rint_integer _ _ (Qeq_refl _)) in Hle.
  setoid_replace (pow2 k) with (pow2 (k - spacing x) * pow2 (spacing x))%Q
    by (rewrite <- pow2_add; replace (k - spacing x + spacing x)%Z with k by lia;
        reflexivity).
  apply Qmult_le_compat_r; [| apply Qlt_le_weak, pow2_pos].
  rewrite (pow2_Z (k - spacing x)) by lia. rewrite <- Zle_Qle. exact Hle.
Qed.

Lemma round_pos_nonneg (x : Q) : (0 < x)%Q -> (0 <= round_pos x)%Q.
Proof.
  intro Hx. rewrite round_pos_unfold.
  apply Qmult_le_0_compat; [| apply Qlt_le_weak, pow2_pos].
  assert (H : (0 <= x / pow2 (spacing x))%Q).
  { apply Qle_shift_div_l; [apply pow2_pos |]. lra. }
  apply rint_mono in H. rewrite (rint_integer 0 0) in H by reflexivity.
  change 0%Q with (inject_Z 0). rewrite <- Zle_Qle. exact H.
Qed.

Lemma round_pos_mono (x y : Q) :
  (0 < x)%Q -> (x <= y)%Q -> (round_pos x <= round_pos y)%Q.
Proof.
  intros Hx Hle.
  assert (Hy : (0 < y)%Q) by (eapply Qlt_le_trans; eassumption).
  pose proof (ilog2_mono x y Hx Hle) as He.
  destruct (Z.eq_dec (spacing x) (spacing y)) as [E | NE].
  - rewrite !round_pos_unfold, E.
    apply Qmult_le_compat_r; [| apply Qlt_le_weak, pow2_pos].
    rewrite <- Zle_Qle. apply rint_mono.
    apply Qmult_le_compat_r; [exact Hle |].
    apply Qlt_le_weak, Qinv_lt_0_compat, pow2_pos.
  - assert (Hs : (spacing x < spacing y)%Z) by (unfold spacing in *; lia).
    assert (Hsy : spacing y = (ilog2 y - 52)%Z) by (unfold spacing in *; lia).
    assert (Hxy : (ilog2 x + 1 <= ilog2 y)%Z) by (unfold spacing in *; lia).
    destruct (ilog2_spec x Hx) as [_ X2]. destruct (ilog2_spec y Hy) as [Y1 _].
    apply Qle_trans with (pow2 (ilog2 y)).
    + apply round_pos_le_pow2; [lia |].
      apply Qle_trans with (pow2 (ilog2 x + 1)); [lra | apply pow2_le; exact Hxy].
    + apply round_pos_ge_pow2; [lia | exact Y1].
Qed.


Lemma round64_eq (x y : Q) : (x == y)%Q -> round64 x = round64 y.
Proof.
  intro E. unfold round64. apply Qred_complete.
  assert (C : (x ?= 0)%Q = (y ?= 0)%Q) by (rewrite E; reflexivity).
  rewrite C.
  destruct (Qcompare_spec y 0) as [H | H | H].
  - reflexivity.
  - apply Qopp_comp. apply round_pos_comp; [lra | rewrite E; reflexivity].
  - apply round_pos_comp; [lra | exact E].
Qed.

Lemma round64_pos (x : Q) : (0 < x)%Q -> (round64 x == round_pos x)%Q.
Proof.
  intro H. unfold round64. rewrite Qred_correct.
  destruct (Qcompare_spec x 0) as [E | E | E]; [lra | lra | reflexivity].
Qed.

Lemma round64_neg (x : Q) : (x < 0)%Q -> (round64 x == - round_pos (- x))%Q.
Proof.
  intro H. unfold round64. rewrite Qred_correct.
  destruct (Qcompare_spec x 0) as [E | E | E]; [lra | reflexivity | lra].
Qed.

Lemma round64_zero (x : Q) : (x == 0)%Q -> (round64 x == 0)%Q.
Proof. intro H. rewrite (round64_eq x 0 H). reflexivity. Qed.

Lemma round64_nonneg (x : Q) : (0 <= x)%Q -> (0 <= round64 x)%Q.
Proof.
  intro H. destruct (Qlt_le_dec 0 x) as [P | N].
  - rewrite round64_pos by exact P. apply round_pos_nonneg. exact P.
  - rewrite round64_zero by lra. lra.
Qed.

Lemma round64_nonpos (x : Q) : (x <= 0)%Q -> (round64 x <= 0)%Q.
Proof.
  intro H. destruct (Qlt_le_dec x 0) as [N | P].
  - rewrite round64_neg by exact N.
    assert (0 <= round_pos (- x))%Q by (apply round_pos_nonneg; lra). lra.
  - rewrite round64_zero by lra. lra.
Qed.

(** Rounding to nearest is monotone. *)
Lemma round64_mono (x y : Q) : (x <= y)%Q -> (round64 x <= round64 y)%Q.
Proof.
  intro Hle.
  destruct (Qlt_le_dec 0 x) as [Px | Nx].
  - rewrite (round64_pos x), (round64_pos y) by lra.
    apply round_pos_mono; assumption.
  - destruct (Qlt_le_dec 0 y) as [Py | Ny].
    + apply Qle_trans with 0%Q;
        [apply round64_nonpos; exact Nx | apply round64_nonneg; lra].
    + destruct (Qlt_le_dec y 0) as [Ly | Zy].
      * rewrite (round64_neg x), (round64_neg y) by lra.
        assert (round_pos (- y) <= round_pos (- x))%Q
          by (apply round_pos_mono; lra).
        lra.
      * apply Qle_trans with 0%Q;
          [apply round64_nonpos; exact Nx | apply round64_nonneg; lra].
Qed.


(** ** Exact operations *)








(** ** The clamp of line 230 on numbers *)


(** ** Line 231 at the two ends of the fade *)






(** ** The schedule *)

(** ** Line 230 on exact operands *)












(** The schedule rounds as binary64 arithmetic does.  From 64 to 214 over a
    window of 3000 images, 2950 images into the window, the interpolated
    value is 211.5 in exact arithmetic and would round to the even 212; the
    products and the sum of line 231 are rounded, the sum falls just below
    211.5, and the resolution is 211. *)
Lemma resolution_schedule_rounds :
  resolution_schedule (sample_config (Some 214%Z) 3 false true true 0) 1002950
  = Ok (211, 214)%Z /\
  rint (64 * (1 - (2950 # 3000)) + 214 * (2950 # 3000))%Q = 212%Z.
Proof. split; vm_compute; reflexivity. Qed.

(** Past the range of a float the images-seen count cannot enter line 230. *)
Lemma resolution_schedule_overflow :
  resolution_schedule (sample_config (Some 128%Z) 1000 false true true 0)
                      (10 ^ 400)
  = Raise OverflowError.
Proof. vm_compute. reflexivity. Qed.

(** ** Blur sigma and R1 gamma (lines 223-227) *)

Lemma spec_clamped_fade_before (initial final start window cur : Q) :
  (0 < window)%Q -> (cur <= start)%Q ->
  (spec_clamped_fade initial final start window cur == initial)%Q.
Proof.
  intros Hw Hle. unfold spec_clamped_fade.
  assert (Hx : ((cur - start) / window <= 0)%Q).
  { apply Qle_shift_div_r; [exact Hw |].
    setoid_replace (0 * window)%Q with 0%Q by ring.
    apply Qle_minus_iff in Hle. apply Qle_minus_iff.
    setoid_replace (0 + - (cur - start))%Q with (start + - cur)%Q by ring.
    exact Hle. }
  rewrite (clamp_low _ Hx). ring.
Qed.

(** C2 as stated fails: with positive fade windows configured, the blur sigma
    and the R1 gamma of a step are not a clamped linear fade from their
    configured initial values, whatever the start and the end value of the
    fade: sigma is 0 and gamma is 10 at every images-seen count, where a fade
    would start from 10 and from 1. *)
Lemma C2_counterexample :
  (0 < blur_fade_kimg fading_config)%Q /\
  (0 < r1_gamma_fade_kimg fading_config)%Q /\
  ~ (exists start final, forall cur,
       (sp_blur_sigma (step_hyperparams fading_config cur)
        == spec_clamped_fade (blur_init_sigma fading_config) final start
             (blur_fade_kimg fading_config * 1000) (inject_Z cur))%Q) /\
  ~ (exists start final, forall cur,
       (sp_r1_gamma (step_hyperparams fading_config cur)
        == spec_clamped_fade (r1_gamma_init fading_config) final start
             (r1_gamma_fade_kimg fading_config * 1000) (inject_Z cur))%Q).
Proof.
  split; [reflexivity |]. split; [reflexivity |]. split.
  - intros (start & final & H). specialize (H (Qfloor start)).
    rewrite spec_clamped_fade_before in H;
      [discriminate H | reflexivity | apply Qfloor_le].
  - intros (start & final & H). specialize (H (Qfloor start)).
    rewrite spec_clamped_fade_before in H;
      [discriminate H | reflexivity | apply Qfloor_le].
Qed.

(** C2, amended.  In every step the blur sigma is 0 and the R1 gammas are the
    configured constants, whatever the images-seen count and the configured
    fade windows and initial values; consequently the raw targets are never
    blurred and [run_D] hands its images to the discriminator unfiltered. *)
Theorem C2_no_fade (self : config) (cur : Z) :
  let sp := step_hyperparams self cur in
  sp_blur_sigma sp = 0%Q /\
  sp_r1_gamma sp = r1_gamma self /\
  sp_r1_gamma_patch sp = r1_gamma_patch self /\
  sp_r1_gamma_uv sp = r1_gamma_uv self /\
  sp_r1_gamma_seg sp = r1_gamma_seg self /\
  (forall (data : Type) (raw seg : tensor data),
     blur_targets (sp_blur_sigma sp) raw seg = (raw, seg)) /\
  (forall (data : Type) (img : dict data) (c : data) (update_emas : bool)
          (w : world data),
     run_D self img c (sp_blur_sigma sp) update_emas w
     = (Ok (TDisc img c update_emas, img), logged w [CallD img c update_emas])).
Proof.
  cbv zeta. repeat (split; [reflexivity |]). split; intros; reflexivity.
Qed.

(** ** Batched selection *)

Lemma expand_same (T : Type) (n : nat) (l : list T) :
  List.length l = n -> expand n l = l.
Proof.
  intro H. destruct l as [| x [| y l']]; try reflexivity.
  simpl in H. subst n. reflexivity.
Qed.

Section Selection.

Variable A : Type.

Lemma broadcast_size_same (n : nat) : broadcast_size n n = Some n.
Proof. unfold broadcast_size. rewrite Nat.eqb_refl. reflexivity. Qed.

Lemma torch_where_same (cond : list bool) (a b : list A) :
  List.length a = List.length cond ->
  List.length b = List.length cond ->
  torch_where cond a b = Ok (select cond a b).
Proof.
  intros Ha Hb. unfold torch_where.
  rewrite Ha, broadcast_size_same, Hb, broadcast_size_same.
  rewrite !expand_same by congruence. reflexivity.
Qed.

Lemma select_length (cond : list bool) (a b : list A) :
  List.length a = List.length cond ->
  List.length b = List.length cond ->
  List.length (select cond a b) = List.length cond.
Proof.
  revert a b. induction cond as [| c cond IH]; intros [| x a] [| y b] Ha Hb;
    simpl in *; try discriminate; try reflexivity.
  f_equal. apply IH; congruence.
Qed.

Lemma select_nth_error (cond : list bool) (a b : list A) (i : nat) (c : bool) :
  List.length a = List.length cond ->
  List.length b = List.length cond ->
  nth_error cond i = Some c ->
  nth_error (select cond a b) i = nth_error (if c then a else b) i.
Proof.
  revert a b i. induction cond as [| c0 cond IH]; intros [| x a] [| y b] i Ha Hb Hc;
    simpl in *; try discriminate.
  - destruct i; discriminate.
  - destruct i as [| i]; simpl in *.
    + injection Hc as ->. destruct c; reflexivity.
    + rewrite (IH a b i) by congruence. destruct c; reflexivity.
Qed.

Lemma select_all_false (cond : list bool) (a b : list A) :
  List.length a = List.length cond ->
  List.length b = List.length cond ->
  Forall (fun c => c = false) cond ->
  select cond a b = b.
Proof.
  revert a b. induction cond as [| c cond IH]; intros [| x a] [| y b] Ha Hb Hall;
    simpl in *; try discriminate; try reflexivity.
  inversion Hall as [| ? ? Hc Hrest]; subst. f_equal. apply IH; congruence.
Qed.

Lemma select_all_true (cond : list bool) (a b : list A) :
  List.length a = List.length cond ->
  List.length b = List.length cond ->
  Forall (fun c => c = true) cond ->
  select cond a b = a.
Proof.
  revert a b. induction cond as [| c cond IH]; intros [| x a] [| y b] Ha Hb Hall;
    simpl in *; try discriminate; try reflexivity.
  inversion Hall as [| ? ? Hc Hrest]; subst. f_equal. apply IH; congruence.
Qed.

End Selection.

Lemma ones_times_length (batch : nat) (ms : Q) :
  List.length (ones_times batch ms) = batch.
Proof. unfold ones_times. rewrite length_map, repeat_length. reflexivity. Qed.

Lemma zeros_like_length (l : list Q) : List.length (zeros_like l) = List.length l.
Proof. unfold zeros_like. apply length_map. Qed.

Lemma ones_times_nth_error (batch : nat) (ms : Q) (i : nat) :
  i < batch -> nth_error (ones_times batch ms) i = Some (1 * ms)%Q.
Proof.
  intro H. unfold ones_times. rewrite nth_error_map.
  rewrite nth_error_repeat by exact H. reflexivity.
Qed.

Lemma zeros_like_nth_error (l : list Q) (i : nat) :
  i < List.length l -> nth_error (zeros_like l) i = Some 0%Q.
Proof.
  intro H. unfold zeros_like. rewrite nth_error_map.
  destruct (nth_error l i) eqn:E; [reflexivity |].
  apply nth_error_None in E. lia.
Qed.

Section Draws.

Variable data : Type.

Lemma draws_length (w : world data) (n : nat) : List.length (draws w n) = n.
Proof. unfold draws. rewrite length_map, length_seq. reflexivity. Qed.

Lemma draws_nth_error (w : world data) (n i : nat) :
  i < n -> nth_error (draws w n) i = Some (rand_stream w (rand_pos w + i)).
Proof.
  intro H. unfold draws. rewrite nth_error_map.
  rewrite nth_error_seq. apply Nat.ltb_lt in H. rewrite H. reflexivity.
Qed.

Lemma below_nth_error (w : world data) (n i : nat) (p : Q) :
  i < n ->
  nth_error (map (fun u => Qltb u p) (draws w n)) i
  = Some (Qltb (rand_stream w (rand_pos w + i)) p).
Proof.
  intro H. rewrite nth_error_map, draws_nth_error by exact H. reflexivity.
Qed.

(** No uniform draw is below 0, every one is below 1. *)
Lemma below_zero (w : world data) (n : nat) (p : Q) :
  unit_draws w -> (p == 0)%Q ->
  Forall (fun c => c = false) (map (fun u => Qltb u p) (draws w n)).
Proof.
  intros Hu Hp. apply Forall_map. unfold draws. apply Forall_map.
  apply Forall_forall. intros k _. apply Qltb_ge. rewrite Hp. apply Hu.
Qed.

Lemma below_one (w : world data) (n : nat) (p : Q) :
  unit_draws w -> (p == 1)%Q ->
  Forall (fun c => c = true) (map (fun u => Qltb u p) (draws w n)).
Proof.
  intros Hu Hp. apply Forall_map. unfold draws. apply Forall_map.
  apply Forall_forall. intros k _. apply Qltb_lt. rewrite Hp. apply Hu.
Qed.

(** Selection driven by a swap draw, element by element. *)
Lemma select_below (A : Type) (w : world data) (n i : nat) (p : Q)
    (a b : list A) :
  List.length a = n -> List.length b = n -> (i < n)%nat ->
  nth_error (select (swapped w n p) a b) i
  = nth_error (if Qltb (rand_stream w (rand_pos w + i)) p then a else b) i.
Proof.
  intros Ha Hb Hi.
  assert (Hl : List.length (swapped w n p) = n)
    by (unfold swapped; rewrite length_map; apply draws_length).
  apply select_nth_error; try congruence.
  apply below_nth_error. exact Hi.
Qed.

End Draws.

(** ** Conditioning (lines 171-192) *)

Section Conditioning.

Variable data : Type.

Variables imgs_app imgs_mot motions_app motions : list data.

Hypothesis imgs_mot_length : List.length imgs_mot = List.length imgs_app.
Hypothesis motions_app_length : List.length motions_app = List.length imgs_app.
Hypothesis motions_length : List.length motions = List.length imgs_app.

Let batch : nat := List.length imgs_app.

Lemma swapped_length (w : world data) (p : Q) :
  List.length (swapped w batch p) = batch.
Proof. unfold swapped. rewrite length_map. apply draws_length. Qed.

Lemma swap_conditioning_some (scale : list Q) (p : Q) (w : world data) :
  List.length scale = batch ->
  swap_conditioning imgs_app imgs_mot motions_app motions scale (Some p) w
  = (Ok {| imgs_app_conditioning := select (swapped w batch p) imgs_mot imgs_app;
           motion_scale_conditioning :=
             select (swapped w batch p) (zeros_like scale) scale;
           motions_app_conditioning :=
             select (swapped w batch p) motions motions_app |},
     advance w batch).
Proof.
  intro Hs. unfold swap_conditioning, bind, torch_rand, lift, ret.
  change (map (fun u => Qltb u p)
              (map (rand_stream w) (seq (rand_pos w) (List.length imgs_app))))
    with (swapped w batch p).
  pose proof (swapped_length w p) as Hl. subst batch.
  rewrite !torch_where_same by (rewrite ?zeros_like_length; congruence).
  reflexivity.
Qed.

(** Without the half-static override the conditioning is the swap stage. *)
Lemma conditioning_of_plain_none (ms : Q) (w : world data) :
  conditioning_of imgs_app imgs_mot motions_app motions ms None false w
  = (Ok {| imgs_app_conditioning := imgs_app;
           motion_scale_conditioning := ones_times batch ms;
           motions_app_conditioning := motions_app |}, w).
Proof. reflexivity. Qed.

Lemma conditioning_of_plain_some (ms p : Q) (w : world data) :
  conditioning_of imgs_app imgs_mot motions_app motions ms (Some p) false w
  = (Ok {| imgs_app_conditioning := select (swapped w batch p) imgs_mot imgs_app;
           motion_scale_conditioning :=
             select (swapped w batch p) (zeros_like (ones_times batch ms))
                    (ones_times batch ms);
           motions_app_conditioning :=
             select (swapped w batch p) motions motions_app |},
     advance w batch).
Proof.
  unfold conditioning_of, bind.
  change (map (fun one => (one * ms)%Q) (repeat 1%Q (List.length imgs_app)))
    with (ones_times batch ms).
  rewrite swap_conditioning_some by apply ones_times_length.
  reflexivity.
Qed.

(** With the override and no swapping: the second half is multiplied by 0. *)
Lemma conditioning_of_static_none (ms : Q) (w : world data) :
  conditioning_of imgs_app imgs_mot motions_app motions ms None true w
  = (Ok {| imgs_app_conditioning := imgs_app;
           motion_scale_conditioning :=
             firstn (Nat.div batch 2) (ones_times batch ms)
             ++ map (fun x => (x * 0)%Q)
                    (skipn (Nat.div batch 2) (ones_times batch ms));
           motions_app_conditioning := motions_app |}, w).
Proof. reflexivity. Qed.

(** With the override and swapping, on an even batch: the second half is
    decided by a second set of draws, applied to the unswapped scale. *)
Lemma conditioning_of_static_some (ms p : Q) (w : world data) :
  Nat.even batch = true ->
  conditioning_of imgs_app imgs_mot motions_app motions ms (Some p) true w
  = (Ok {| imgs_app_conditioning := select (swapped w batch p) imgs_mot imgs_app;
           motion_scale_conditioning :=
             firstn (Nat.div batch 2)
                    (select (swapped w batch p) (zeros_like (ones_times batch ms))
                            (ones_times batch ms))
             ++ select (swapped (advance w batch) (Nat.div batch 2) (1 - p))
                       (zeros_like (skipn (Nat.div batch 2) (ones_times batch ms)))
                       (skipn (Nat.div batch 2) (ones_times batch ms));
           motions_app_conditioning :=
             select (swapped w batch p) motions motions_app |},
     advance (advance w batch) (Nat.div batch 2)).
Proof.
  intro Heven. unfold conditioning_of, bind.
  change (map (fun one => (one * ms)%Q) (repeat 1%Q (List.length imgs_app)))
    with (ones_times batch ms).
  rewrite swap_conditioning_some by apply ones_times_length.
  unfold half_static_override, bind, torch_rand, lift, ret.
  cbn [motion_scale_conditioning imgs_app_conditioning motions_app_conditioning].
  change (List.length imgs_app) with batch.
  change (map (fun u => Qltb u (1 - p))
              (map (rand_stream (advance w batch))
                   (seq (rand_pos (advance w batch)) (Nat.div batch 2))))
    with (swapped (advance w batch) (Nat.div batch 2) (1 - p)).
  assert (Hhalf : List.length (skipn (Nat.div batch 2) (ones_times batch ms))
                  = Nat.div batch 2).
  { rewrite length_skipn, ones_times_length.
    apply Nat.even_spec in Heven. destruct Heven as [k Hk]. rewrite Hk.
    rewrite (Nat.mul_comm 2 k), Nat.div_mul by discriminate. lia. }
  rewrite torch_where_same.
  - reflexivity.
  - rewrite zeros_like_length, Hhalf. unfold swapped.
    rewrite length_map, draws_length. reflexivity.
  - rewrite Hhalf. unfold swapped. rewrite length_map, draws_length. reflexivity.
Qed.

(** [run_G] issues one synthesis call with the conditioning it computed. *)
Lemma run_G_of_conditioning (self : config) (fl : flame data) (c : data)
    (res resp : Z) (ms : Q) (swap : option Q) (static : bool)
    (w w1 : world data) (cnd : conditioning data) :
  conditioning_of imgs_app imgs_mot motions_app motions ms swap static w
  = (Ok cnd, w1) ->
  let a := {| sa_imgs_app := imgs_app_conditioning cnd;
              sa_imgs_mot := imgs_mot;
              sa_motions_app := motions_app_conditioning cnd;
              sa_motions := motions;
              sa_c := c;
              sa_deformer := fl;
              sa_neural_rendering_resolution := res;
              sa_motion_scale := motion_scale_conditioning cnd |} in
  run_G self imgs_app imgs_mot fl motions_app motions c res resp ms swap static w
  = (Ok (gen_output_of self fl c a), logged w1 [CallSynthesis a]).
Proof.
  intros H a. unfold run_G, bind. rewrite H. reflexivity.
Qed.

End Conditioning.



Lemma low_low_high_unit : unit_draws (sample_world low_low_high).
Proof.
  intro n. destruct n as [| [| n]]; split; cbn; discriminate || reflexivity.
Qed.

(** C7.  Swap conditioning in [run_G] (lines 171-181).  The swap stage does
    not read [half_static], and with the half-static override off, the
    default of [run_G], what it builds is what [run_G] hands to its one
    synthesis call.  With [swapping_prob] unset the appearance images, the
    motion scale and the appearance embeddings are the unswapped inputs.
    With [swapping_prob = p] element [i] is swapped exactly when its own
    uniform draw is below [p]: a swapped element gets the motion image,
    motion scale 0 and the motion embedding, an unswapped one keeps its
    inputs and the caller's motion scale; so with [p = 0] nothing is swapped
    and with [p = 1] every element is, whatever the draws. *)
Theorem C7_swap_conditioning (data : Type) (self : config)
    (imgs_app imgs_mot motions_app motions : list data) (fl : flame data)
    (c : data) (res resp : Z) (ms : Q) (swap : option Q) (w : world data) :
  List.length imgs_mot = List.length imgs_app ->
  List.length motions_app = List.length imgs_app ->
  List.length motions = List.length imgs_app ->
  unit_draws w ->
  let batch := List.length imgs_app in
  exists a w',
    run_G self imgs_app imgs_mot fl motions_app motions c res resp ms swap false w
    = (Ok (gen_output_of self fl c a), w') /\
    log w' = log w ++ [CallSynthesis a] /\
    sa_imgs_mot a = imgs_mot /\
    sa_motions a = motions /\
    fst (swap_conditioning imgs_app imgs_mot motions_app motions
                           (ones_times batch ms) swap w)
    = Ok {| imgs_app_conditioning := sa_imgs_app a;
            motion_scale_conditioning := sa_motion_scale a;
            motions_app_conditioning := sa_motions_app a |} /\
    match swap with
    | None =>
        sa_imgs_app a = imgs_app /\
        sa_motions_app a = motions_app /\
        sa_motion_scale a = ones_times batch ms
    | Some p =>
        (forall i, (i < batch)%nat ->
           let s := Qltb (rand_stream w (rand_pos w + i)) p in
           nth_error (sa_imgs_app a) i
           = nth_error (if s then imgs_mot else imgs_app) i /\
           nth_error (sa_motions_app a) i
           = nth_error (if s then motions else motions_app) i /\
           nth_error (sa_motion_scale a) i = Some (if s then 0 else 1 * ms)%Q) /\
        ((p == 0)%Q ->
         sa_imgs_app a = imgs_app /\
         sa_motions_app a = motions_app /\
         (forall i, (i < batch)%nat ->
            nth_error (sa_motion_scale a) i = Some (1 * ms)%Q)) /\
        ((p == 1)%Q ->
         sa_imgs_app a = imgs_mot /\
         sa_motions_app a = motions /\
         (forall i, (i < batch)%nat ->
            nth_error (sa_motion_scale a) i = Some 0%Q))
    end.
Proof.
  intros Hm Hma Hmo Hu batch.
  assert (Hb : batch = List.length imgs_app) by reflexivity.
  clearbody batch.
  assert (Ho : List.length (ones_times batch ms) = batch)
    by apply ones_times_length.
  destruct swap as [p |].
  - assert (Hl : List.length (swapped w batch p) = batch)
      by (unfold swapped; rewrite length_map; apply draws_length).
    assert (Hscale : forall i, (i < batch)%nat ->
              nth_error (select (swapped w batch p)
                                (zeros_like (ones_times batch ms))
                                (ones_times batch ms)) i
              = Some (if Qltb (rand_stream w (rand_pos w + i)) p
                      then 0 else 1 * ms)%Q).
    { intros i Hi.
      rewrite select_below by (rewrite ?zeros_like_length; congruence).
      destruct (Qltb (rand_stream w (rand_pos w + i)) p).
      - apply zeros_like_nth_error. rewrite Ho. exact Hi.
      - apply ones_times_nth_error. exact Hi. }
    assert (Hlow : (p == 0)%Q -> forall i,
              Qltb (rand_stream w (rand_pos w + i)) p = false).
    { intros Hp i. apply Qltb_ge. rewrite Hp. apply Hu. }
    assert (Hhigh : (p == 1)%Q -> forall i,
              Qltb (rand_stream w (rand_pos w + i)) p = true).
    { intros Hp i. apply Qltb_lt. rewrite Hp. apply Hu. }
    pose proof (conditioning_of_plain_some _ _ _ _ _ Hm Hma Hmo ms p w) as Hc.
    pose proof (run_G_of_conditioning _ _ _ _ _ self fl c res resp _ _ _ _ _ _ Hc)
      as Hr.
    cbv zeta in Hr. eexists. eexists. split; [exact Hr |]. clear Hr Hc.
    cbn [log logged advance sa_imgs_mot sa_motions sa_imgs_app sa_motion_scale
         sa_motions_app imgs_app_conditioning motion_scale_conditioning
         motions_app_conditioning].
    rewrite <- Hb.
    repeat (split; [reflexivity |]).
    split.
    { rewrite (swap_conditioning_some _ _ _ _ _ Hm Hma Hmo)
        by (rewrite <- Hb; exact Ho).
      rewrite <- Hb. reflexivity. }
    split; [| split].
    + intros i Hlt.
      rewrite !select_below by congruence.
      repeat split. apply Hscale. exact Hlt.
    + intro Hp.
      pose proof (below_zero _ w batch p Hu Hp) as Hall.
      fold (swapped w batch p) in Hall.
      rewrite !select_all_false by (congruence || exact Hall).
      repeat split. intros i Hlt.
      rewrite (Hscale i Hlt), (Hlow Hp). reflexivity.
    + intro Hp.
      pose proof (below_one _ w batch p Hu Hp) as Hall.
      fold (swapped w batch p) in Hall.
      rewrite !select_all_true by (congruence || exact Hall).
      repeat split. intros i Hlt.
      rewrite (Hscale i Hlt), (Hhigh Hp). reflexivity.
  - pose proof (conditioning_of_plain_none _ imgs_app imgs_mot motions_app
                                           motions ms w) as Hc.
    pose proof (run_G_of_conditioning _ _ _ _ _ self fl c res resp _ _ _ _ _ _ Hc)
      as Hr.
    cbv zeta in Hr. eexists. eexists. split; [exact Hr |]. clear Hr Hc.
    cbn [log logged sa_imgs_mot sa_motions sa_imgs_app sa_motion_scale
         sa_motions_app imgs_app_conditioning motion_scale_conditioning
         motions_app_conditioning swap_conditioning ret fst].
    rewrite <- Hb. repeat (split; [reflexivity |]). reflexivity.
Qed.

Lemma C7_swap_conditioning_witness :
  exists a w',
    run_G reference_config ["app0"; "app1"]%string ["mot0"; "mot1"]%string
          (flame_of (sample_inputs "Gmain" 0 (Some (1 # 2)%Q) false))
          ["emb_app0"; "emb_app1"]%string ["emb_mot0"; "emb_mot1"]%string
          "real_c_recon"%string 64 64 1 (Some 1%Q) false
          (sample_world low_low_high)
    = (Ok (gen_output_of reference_config
             (flame_of (sample_inputs "Gmain" 0 (Some (1 # 2)%Q) false))
             "real_c_recon"%string a), w') /\
    sa_imgs_app a = ["mot0"; "mot1"]%string /\
    sa_motions_app a = ["emb_mot0"; "emb_mot1"]%string /\
    nth_error (sa_motion_scale a) 1 = Some 0%Q.
Proof.
  destruct (C7_swap_conditioning string reference_config
              ["app0"; "app1"]%string ["mot0"; "mot1"]%string
              ["emb_app0"; "emb_app1"]%string ["emb_mot0"; "emb_mot1"]%string
              (flame_of (sample_inputs "Gmain" 0 (Some (1 # 2)%Q) false))
              "real_c_recon"%string 64 64 1 (Some 1%Q)
              (sample_world low_low_high)
              eq_refl eq_refl eq_refl low_low_high_unit)
    as (a & w' & Hrun & _ & _ & _ & _ & _ & _ & Hone).
  exists a, w'. split; [exact Hrun |].
  destruct (Hone (Qeq_refl 1)) as (Hi & Hm & Hs).
  split; [exact Hi |]. split; [exact Hm |].
  apply (Hs 1%nat). repeat constructor.
Defined.




(** ** The real targets (lines 238-264) *)

(** C10, amended.  With a generator that has no super-resolution stage, every
    invocation raises before any phase-specific computation: nothing has been
    logged and no random draw consumed.  The exception is the unbound local
    [real_img_raw] of line 261 whenever lines 229-259 themselves complete,
    that is when the resolution schedule is defined and a rendered
    segmentation is supplied. *)
Theorem C10_no_superresolution_raises (data : Type) (self : config)
    (inp : inputs data) (w : world data) :
  G_has_superresolution self = false ->
  exists e,
    accumulate_gradients self inp w = (Raise e, w) /\
    (forall res,
       resolution_schedule self (cur_nimg inp) = Ok res ->
       real_seg_recon_render inp <> None ->
       e = UnboundLocalError "real_img_raw").
Proof.
  intro Hsr. unfold accumulate_gradients, bind, lift.
  destruct (resolution_schedule self (cur_nimg inp)) as [res | e].
  - unfold real_targets. rewrite Hsr.
    destruct (real_seg_recon_render inp) as [x |]; cbn.
    + eexists. split; [reflexivity |]. intros. reflexivity.
    + eexists. split; [reflexivity |]. intros res' _ Habs. congruence.
  - exists e. split; [reflexivity |]. intros res' Habs. discriminate.
Qed.

Lemma C10_no_superresolution_raises_witness :
  exists e,
    accumulate_gradients (sample_config None 0 false false true 0)
      {| phase := "Gmain";
         real_img_app := ["app0"]%string;
         real_img_mot := ["mot0"]%string;
         real_img_recon := "real_img_recon"%string;
         real_seg_recon := "real_seg_recon"%string;
         real_seg_recon_render := Some "real_seg_recon_render"%string;
         real_uv_recon := "real_uv_recon"%string;
         real_c_recon := "real_c_recon"%string;
         real_c_compose_recon := "real_c_compose_recon"%string;
         shape_params_app := "shape"%string;
         exp_params_mot := "exp"%string;
         pose_params_mot := "pose"%string;
         eye_pose_params_mot := "eye_pose"%string;
         motions_app := ["emb_app0"]%string;
         motions := ["emb_mot0"]%string;
         gain := 1;
         cur_nimg := 0;
         real_depth_recon := None;
         real_feature_recon := None;
         real_feature_recon_bg := None;
         real_triplane_recon := None;
         motion_scale := 1;
         swapping_prob := None;
         half_static := false |} (sample_world low_low_high)
    = (Raise e, sample_world low_low_high) /\
    e = UnboundLocalError "real_img_raw".
Proof.
  destruct (C10_no_superresolution_raises string
              (sample_config None 0 false false true 0)
              {| phase := "Gmain";
                 real_img_app := ["app0"]%string;
                 real_img_mot := ["mot0"]%string;
                 real_img_recon := "real_img_recon"%string;
                 real_seg_recon := "real_seg_recon"%string;
                 real_seg_recon_render := Some "real_seg_recon_render"%string;
                 real_uv_recon := "real_uv_recon"%string;
                 real_c_recon := "real_c_recon"%string;
                 real_c_compose_recon := "real_c_compose_recon"%string;
                 shape_params_app := "shape"%string;
                 exp_params_mot := "exp"%string;
                 pose_params_mot := "pose"%string;
                 eye_pose_params_mot := "eye_pose"%string;
                 motions_app := ["emb_app0"]%string;
                 motions := ["emb_mot0"]%string;
                 gain := 1;
                 cur_nimg := 0;
                 real_depth_recon := None;
                 real_feature_recon := None;
                 real_feature_recon_bg := None;
                 real_triplane_recon := None;
                 motion_scale := 1;
                 swapping_prob := None;
                 half_static := false |}
              (sample_world low_low_high) eq_refl)
    as (e & Hrun & Hkind).
  exists e. split; [exact Hrun |].
  apply (Hkind (64, 64)%Z); [reflexivity | discriminate].
Defined.

(** C10 as stated fails on the kind of error.  Without a rendered
    segmentation the no-super-resolution branch already fails on line 259,
    where [torch.mean] is applied to [None]; with a final resolution and the
    constructor's zero fade window it fails on line 230.  Neither is an
    unbound local, and both occur in phase ['none'] too. *)
Lemma C10_counterexample :
  accumulate_gradients (sample_config None 0 false false true 0)
    (sample_inputs "none" 0 (Some (1 # 2)%Q) false) (sample_world low_low_high)
  = (Raise (TypeError "mean"), sample_world low_low_high) /\
  accumulate_gradients (sample_config (Some 128%Z) 0 false false true 0)
    (sample_inputs "none" 0 (Some (1 # 2)%Q) false) (sample_world low_low_high)
  = (Raise ZeroDivisionError, sample_world low_low_high).
Proof. split; reflexivity. Qed.

(** ** The blocks of the step *)

Section Blocks.

Variable data : Type.

Lemma conditioning_of_log (imgs_app imgs_mot motions_app motions : list data)
    (ms : Q) (swap : option Q) (static : bool) (w : world data) :
  log (snd (conditioning_of imgs_app imgs_mot motions_app motions ms swap static w))
  = log w.
Proof.
  unfold conditioning_of, swap_conditioning, half_static_override,
    bind, torch_rand, lift, ret.
  destruct swap as [p |]; destruct static; cbn;
    repeat match goal with
           | |- context [torch_where ?c ?a ?b] =>
               destruct (torch_where c a b); cbn
           end;
    reflexivity.
Qed.

(** [run_G] either raises while conditioning, having logged nothing, or
    logs exactly one synthesis call and returns its dictionary. *)
Lemma run_G_cases (self : config) (imgs_app imgs_mot : list data)
    (fl : flame data) (motions_app motions : list data) (c : data)
    (res resp : Z) (ms : Q) (swap : option Q) (static : bool) (w : world data) :
  (exists a w1,
     run_G self imgs_app imgs_mot fl motions_app motions c res resp ms swap static w
     = (Ok (gen_output_of self fl c a), logged w1 [CallSynthesis a])
     /\ log w1 = log w)
  \/
  (exists e w1,
     run_G self imgs_app imgs_mot fl motions_app motions c res resp ms swap static w
     = (Raise e, w1)
     /\ log w1 = log w).
Proof.
  pose proof (conditioning_of_log imgs_app imgs_mot motions_app motions
                                  ms swap static w) as Hlog.
  destruct (conditioning_of imgs_app imgs_mot motions_app motions ms swap static w)
    as [[cnd | e] w1] eqn:Hc; cbn [snd] in Hlog.
  - left. eexists. exists w1. split; [| exact Hlog].
    exact (run_G_of_conditioning _ _ _ _ _ self fl c res resp _ _ _ _ _ _ Hc).
  - right. exists e, w1. split; [| exact Hlog].
    unfold run_G, bind. rewrite Hc. reflexivity.
Qed.

(** Inversion of a successful [recon_losses]. *)
Ltac invert_rbind H :=
  repeat match type of H with
         | rbind ?r _ = Ok _ =>
             let E := fresh "E" in
             destruct r eqn:E; [cbn [rbind] in H | discriminate H]
         end.

Lemma recon_losses_is_tensor (self : config) (inp : inputs data)
    (tg : targets data) (mt : masked_targets data) (gen_img : dict data)
    (terms : recon_terms data) :
  recon_losses self inp tg mt gen_img = Ok terms ->
  is_pynum (loss_recon_of terms) = false.
Proof.
  intro H. unfold recon_losses in H. invert_rbind H.
  injection H as <-. unfold loss_recon_of.
  cbn [loss_recon_lpips loss_recon_l1 loss_recon_seg loss_recon_depth
       loss_recon_feature loss_recon_triplane loss_id].
  destruct (v_real_feature_recon_bg tg); reflexivity.
Qed.

(** A successful [recon_losses] has called both networks. *)
Lemma recon_losses_calls (self : config) (inp : inputs data)
    (tg : targets data) (mt : masked_targets data) (gen_img : dict data)
    (terms : recon_terms data) :
  recon_losses self inp tg mt gen_img = Ok terms ->
  lpips self = true /\ facenet self = true.
Proof.
  intro H. unfold recon_losses in H. invert_rbind H. unfold call in *.
  split; [destruct (lpips self) | destruct (facenet self)];
    try reflexivity; discriminate.
Qed.

Lemma aborted_nil (b : bool) : aborted (data := data) b [].
Proof. constructor. Qed.

Lemma aborted_synthesis (b : bool) (a : synthesis_args data) :
  aborted b [CallSynthesis a].
Proof. repeat constructor. cbn. discriminate. Qed.

Lemma Gmain_block_runs (self : config) (inp : inputs data) (res resp : Z)
    (tg : targets data) (mt : masked_targets data) :
  runs (Gmain_block self inp (step_hyperparams self (cur_nimg inp)) res resp tg mt)
       (Gmain_outcome self inp tg mt).
Proof.
  intro w. unfold Gmain_block, bind.
  destruct (run_G_cases self (real_img_app inp) (real_img_mot inp) (flame_of inp)
              (motions_app inp) (motions inp) (real_c_recon inp) res resp
              (motion_scale inp) (swapping_prob inp) (half_static inp) w)
    as [(a & w1 & -> & Hlog) | (e & w1 & -> & Hlog)].
  - unfold lift at 1.
    destruct (recon_losses self inp tg mt
                (gen_output_of self (flame_of inp) (real_c_recon inp) a))
      as [terms | e] eqn:Hterms.
    + pose proof (recon_losses_is_tensor _ _ _ _ _ _ Hterms) as Hnum.
      unfold Gmain_outcome.
      destruct (discriminator_active self (cur_nimg inp)).
      * unfold bind, run_D, lift, ret, emit, method_mean, method_mul.
        cbn [sp_blur_sigma step_hyperparams]. rewrite Hnum. cbn.
        eexists. split; [rewrite Hlog, <- !app_assoc; reflexivity |].
        exists a, terms. split; [exact Hterms | reflexivity].
      * unfold bind, lift, ret, emit, method_mean, method_mul.
        rewrite Hnum. cbn.
        eexists. split; [rewrite Hlog, <- !app_assoc; reflexivity |].
        exists a, terms. split; [exact Hterms | reflexivity].
    + cbn. exists [CallSynthesis a]. split; [rewrite Hlog; reflexivity |].
      apply aborted_synthesis.
  - cbn. exists []. split; [rewrite Hlog, app_nil_r; reflexivity |].
    apply aborted_nil.
Qed.

(** *** Sequencing *)

Lemma runs_when (b : bool) (m : M data unit) (O : outcome data) :
  runs m O -> runs (when b m) (guarded b O).
Proof.
  intros Hm w. destruct b; cbn.
  - apply Hm.
  - exists []. split; [rewrite app_nil_r; reflexivity | split; reflexivity].
Qed.

Lemma runs_seq (m k : M data unit) (O1 O2 : outcome data) :
  runs m O1 -> runs k O2 -> runs (bind m (fun _ => k)) (followed_by O1 O2).
Proof.
  intros Hm Hk w. unfold bind.
  destruct (Hm w) as (evs1 & Hlog1 & H1).
  destruct (m w) as [[[] | e] w1]; cbn [fst snd] in *.
  - destruct (Hk w1) as (evs2 & Hlog2 & H2).
    exists (evs1 ++ evs2). split.
    + rewrite Hlog2, Hlog1, app_assoc. reflexivity.
    + exists (Ok tt), evs1. split; [exact H1 |].
      exists evs2. split; [exact H2 | reflexivity].
  - exists evs1. split; [exact Hlog1 |].
    exists (Raise e), evs1. split; [exact H1 | split; reflexivity].
Qed.

(** *** Density regularization *)

Lemma aborted_sample (a : sample_args data) (c d : tensor data) :
  aborted false [CallSampleMixed a c d].
Proof. repeat constructor. cbn. discriminate. Qed.

(** The loop of lines 397-401 logs nothing and builds a loss that does not
    involve the discriminator. *)
Lemma tv_loop_quiet (kw : rendering_kwargs) (a : sample_args data)
    (coordinates directions : tensor data) (n : nat) (l : list nat) :
  through_D coordinates = false ->
  through_D directions = false ->
  forall acc : M data (tensor data),
    (forall w, log (snd (acc w)) = log w /\
               forall t, fst (acc w) = Ok t -> through_D t = false) ->
    forall w,
      log (snd (fold_left (tv_step kw a coordinates directions n) l acc w))
      = log w /\
      forall t,
        fst (fold_left (tv_step kw a coordinates directions n) l acc w) = Ok t ->
        through_D t = false.
Proof.
  intros Hc Hd. induction l as [| i l IH]; intros acc Hacc w.
  - exact (Hacc w).
  - cbn [fold_left]. apply IH. clear w. intro w.
    unfold tv_step, bind, lift, ret.
    destruct (Hacc w) as [Hlog Hfree].
    destruct (acc w) as [[t | e] w1]; cbn [fst snd] in *.
    + destruct (kwarg "density_reg" (density_reg kw)) as [dr | e]; cbn [fst snd].
      * split; [exact Hlog |]. intros t' Ht'. injection Ht' as <-.
        cbn. rewrite (Hfree t eq_refl), Hc, Hd. reflexivity.
      * split; [exact Hlog | discriminate].
    + split; [exact Hlog | discriminate].
Qed.

Lemma tv_loss_quiet (self : config) (a : sample_args data)
    (coordinates directions : tensor data) (w : world data) :
  through_D coordinates = false ->
  through_D directions = false ->
  log (snd (tv_loss self a coordinates directions w)) = log w /\
  forall t, fst (tv_loss self a coordinates directions w) = Ok t ->
            through_D t = false.
Proof.
  intros Hc Hd. unfold tv_loss.
  destruct (G_sample_mixed_tuple self) as [n |].
  - apply tv_loop_quiet; try assumption.
    intro w'. split; [reflexivity |]. intros t Ht. injection Ht as <-. reflexivity.
  - unfold bind, lift, ret.
    destruct (kwarg "density_reg" (density_reg (G_rendering_kwargs self)));
      cbn [fst snd]; split; try reflexivity; try discriminate.
    intros t Ht. injection Ht as <-. cbn. rewrite Hc, Hd. reflexivity.
Qed.

Lemma density_block_runs (self : config) (inp : inputs data) :
  runs (density_block self inp) (density_outcome inp).
Proof.
  intro w. unfold density_block, bind, lift.
  destruct (kwarg "density_reg_p_dist" (density_reg_p_dist (G_rendering_kwargs self)))
    as [p_dist | e];
    [| exists []; split; [rewrite app_nil_r; reflexivity | apply aborted_nil]].
  destruct (kwarg "box_warp" (box_warp (G_rendering_kwargs self))) as [bw | e];
    [| exists []; split; [rewrite app_nil_r; reflexivity | apply aborted_nil]].
  pose proof (conditioning_of_log (real_img_app inp) (real_img_mot inp)
                (motions_app inp) (motions inp) (motion_scale inp)
                (swapping_prob inp) (half_static inp) w) as Hlog.
  destruct (conditioning_of (real_img_app inp) (real_img_mot inp) (motions_app inp)
              (motions inp) (motion_scale inp) (swapping_prob inp)
              (half_static inp) w) as [[cnd | e] w1]; cbn [snd] in Hlog;
    [| exists []; split; [cbn; rewrite Hlog, app_nil_r; reflexivity
                         | apply aborted_nil]].
  unfold emit.
  match goal with
  | |- context [tv_loss self ?a ?c ?d ?w2] =>
      destruct (tv_loss_quiet self a c d w2 eq_refl eq_refl) as [Hl Hfree];
      destruct (tv_loss self a c d w2) as [[TVloss | e] w3];
      cbn [fst snd log] in Hl, Hfree
  end.
  - unfold method_mul, density_outcome.
    destruct (is_pynum TVloss); cbn [fst snd log].
    + eexists. split; [rewrite Hl, Hlog; reflexivity | apply aborted_sample].
    + eexists. split; [rewrite Hl, Hlog, <- !app_assoc; reflexivity |].
      do 4 eexists. split; [reflexivity | apply Hfree; reflexivity].
  - unfold density_outcome. cbn [fst snd].
    eexists. split; [rewrite Hl, Hlog; reflexivity | apply aborted_sample].
Qed.

(** *** The discriminator phases *)

Lemma aborted_call_D (img : dict data) (c : data) (u : bool) :
  aborted true [CallD img c u].
Proof. repeat constructor. Qed.

Lemma Dgen_block_runs (self : config) (inp : inputs data) (res resp : Z) :
  runs (Dgen_block self inp (step_hyperparams self (cur_nimg inp)) res resp)
       (Dgen_outcome self inp).
Proof.
  intro w. unfold Dgen_block, bind.
  destruct (run_G_cases self (real_img_app inp) (real_img_mot inp) (flame_of inp)
              (motions_app inp) (motions inp) (real_c_recon inp) res resp
              (motion_scale inp) (swapping_prob inp) (half_static inp) w)
    as [(a & w1 & -> & Hlog) | (e & w1 & -> & Hlog)].
  - unfold bind, run_D, lift, ret, emit, method_mean, method_mul.
    cbn. eexists. split; [rewrite Hlog, <- !app_assoc; reflexivity |].
    exists a. reflexivity.
  - cbn. exists []. split; [rewrite Hlog, app_nil_r; reflexivity |].
    apply aborted_nil.
Qed.

Lemma Dreal_block_runs (self : config) (inp : inputs data) (ph : string)
    (tg : targets data) :
  runs (Dreal_block self inp (step_hyperparams self (cur_nimg inp)) ph tg)
       (Dreal_outcome inp).
Proof.
  intro w. unfold Dreal_block, bind, lift.
  destruct (dict_get (v_real_img tg) "image_sr") as [sr | e];
    [| exists []; split; [rewrite app_nil_r; reflexivity | apply aborted_nil]].
  destruct (dict_get (v_real_img tg) "uv") as [uv | e];
    [| exists []; split; [rewrite app_nil_r; reflexivity | apply aborted_nil]].
  destruct (dict_get (v_real_img tg) "image") as [raw | e];
    [| exists []; split; [rewrite app_nil_r; reflexivity | apply aborted_nil]].
  destruct (dict_get (v_real_img tg) "seg") as [seg | e];
    [| exists []; split; [rewrite app_nil_r; reflexivity | apply aborted_nil]].
  unfold run_D, bind, lift, ret, emit, method_mean, method_mul, Dreal_outcome.
  cbn [sp_blur_sigma step_hyperparams]. rewrite blur_half_width_0.
  cbn [fst snd log Z.ltb Z.compare].
  destruct (phase_in ph ["Dreg"; "Dboth"]%string).
  - match goal with
    | |- context [r1_loss ?s ?p ?l ?d] => destruct (r1_loss s p l d) as [r1 | e]
    end.
    + destruct (phase_in ph ["Dmain"; "Dboth"]%string); cbn [is_pynum andb].
      * cbn. eexists. split; [rewrite <- !app_assoc; reflexivity |].
        do 2 eexists. reflexivity.
      * destruct (is_pynum r1); cbn.
        -- eexists. split; [reflexivity | apply aborted_call_D].
        -- eexists. split; [rewrite <- !app_assoc; reflexivity |].
           do 2 eexists. reflexivity.
    + cbn. eexists. split; [reflexivity | apply aborted_call_D].
  - destruct (phase_in ph ["Dmain"; "Dboth"]%string); cbn.
    + eexists. split; [rewrite <- !app_assoc; reflexivity |].
      do 2 eexists. reflexivity.
    + eexists. split; [reflexivity | apply aborted_call_D].
Qed.

Lemma D_block_runs (self : config) (inp : inputs data) (ph : string)
    (res resp : Z) (tg : targets data) :
  runs (D_block self inp (step_hyperparams self (cur_nimg inp)) ph res resp tg)
       (D_outcome self inp ph).
Proof.
  unfold D_block, D_outcome. apply runs_seq; apply runs_when.
  - apply Dgen_block_runs.
  - apply Dreal_block_runs.
Qed.

(** *** The whole step *)

Lemma density_then_runs (self : config) (inp : inputs data) (ph : string)
    (k : M data unit) (O : outcome data) :
  runs k O ->
  runs (bind (lift (density_gate self ph))
             (fun dg => bind (when dg (density_block self inp)) (fun _ => k)))
       (followed_by (density_part self inp ph) O).
Proof.
  intros Hk w. unfold bind at 1. unfold lift, density_part.
  destruct (density_gate self ph) as [dg | e].
  - exact (runs_seq _ _ _ _ (runs_when dg _ _ (density_block_runs self inp)) Hk w).
  - exists []. cbn [fst snd]. split; [rewrite app_nil_r; reflexivity |].
    exists (Raise e), []. repeat split.
Qed.

Lemma lift_bind_run (A : Type) (x : result A) (k : A -> M data unit)
    (w : world data) :
  bind (lift x) k w
  = match x with
    | Ok a => k a w
    | Raise e => (Raise e, w)
    end.
Proof. destruct x; reflexivity. Qed.

(** Every run of [accumulate_gradients] has the shape [step_outcome]. *)
Lemma accumulate_gradients_runs (self : config) (inp : inputs data) :
  runs (accumulate_gradients self inp) (step_outcome self inp).
Proof.
  intro w. unfold accumulate_gradients, step_outcome, prologue.
  rewrite lift_bind_run.
  destruct (resolution_schedule self (cur_nimg inp)) as [res | e];
    [| exists []; split; [rewrite app_nil_r; reflexivity | split; reflexivity]].
  rewrite lift_bind_run.
  destruct (real_targets self inp
              (sp_blur_sigma (step_hyperparams self (cur_nimg inp))) (fst res))
    as [tg | e];
    [| exists []; split; [rewrite app_nil_r; reflexivity | split; reflexivity]].
  rewrite lift_bind_run.
  destruct (masked_real_targets tg) as [mt | e];
    [| exists []; split; [rewrite app_nil_r; reflexivity | split; reflexivity]].
  apply runs_seq.
  - apply runs_when, Gmain_block_runs.
  - apply density_then_runs, runs_when, D_block_runs.
Qed.

End Blocks.

(** ** Consequences of the shape of a step *)

Section Step.

Variable data : Type.

(** What the prologue yields when it returns: the generator has a
    super-resolution stage and the targets are the resized inputs. *)
Lemma prologue_Ok (self : config) (inp : inputs data) (res : Z * Z)
    (tg : targets data) (mt : masked_targets data) :
  prologue self inp = Ok (res, tg, mt) ->
  G_has_superresolution self = true /\
  resolution_schedule self (cur_nimg inp) = Ok res /\
  real_targets self inp 0 (fst res) = Ok tg /\
  masked_real_targets tg = Ok mt.
Proof.
  unfold prologue. intro H.
  destruct (resolution_schedule self (cur_nimg inp)) as [res' | e];
    [| discriminate H].
  cbn [sp_blur_sigma step_hyperparams] in H.
  destruct (real_targets self inp 0 (fst res')) as [tg' | e] eqn:Htg;
    [| discriminate H].
  destruct (masked_real_targets tg') as [mt' | e] eqn:Hmt; [| discriminate H].
  injection H as <- <- <-.
  repeat split; try assumption.
  unfold real_targets in Htg.
  destruct (G_has_superresolution self); [reflexivity |].
  destruct (need "mean" (option_map (TIn (data:=data)) (real_seg_recon_render inp)));
    [| discriminate Htg].
  injection Htg as <-. discriminate Hmt.
Qed.

(** The reconstruction losses of a step whose prologue returned. *)
Lemma recon_losses_fields (self : config) (inp : inputs data) (res : Z * Z)
    (tg : targets data) (mt : masked_targets data) (a : synthesis_args data)
    (terms : recon_terms data) :
  prologue self inp = Ok (res, tg, mt) ->
  recon_losses self inp tg mt
    (gen_output_of self (flame_of inp) (real_c_recon inp) a) = Ok terms ->
  exists raw seg,
    v_real_img_raw tg = Some raw /\
    v_real_seg_recon_render tg = Some seg /\
    loss_id terms
    = (if (cur_nimg inp <? 400000)%Z then TNum 0
       else identity_distance
              (TRender (flame_of inp) (real_c_recon inp)
                       (Z.quot (G_img_resolution self) 2) RenderLandmarks)
              (TSynth a "image_sr") (TIn (real_img_recon inp))) /\
    (real_depth_recon inp = None -> loss_recon_depth terms = TNum 0) /\
    (real_feature_recon inp = None -> loss_recon_feature terms = TNum 0) /\
    (real_triplane_recon inp = None -> loss_recon_triplane terms = TNum 0) /\
    (real_feature_recon_bg inp = None ->
     loss_recon_lpips terms
     = TBin Add
         (TBin Add
            (TBin Add
               (TBin Lpips (TSynth a "image_sr") (TIn (real_img_recon inp)))
               (TBin Lpips (TSynth a "image") raw))
            (TBin Lpips (TSynth a "image_wobg") (real_img_recon_wobg_raw mt)))
         (TBin Lpips (masked_gen_bg (TSynth a "rgb_bg") seg) (real_img_bg_raw mt))
     /\
     loss_recon_l1 terms
     = TBin Add
         (TBin Add
            (TBin Add
               (abs_mean (TBin Sub (TSynth a "image_sr") (TIn (real_img_recon inp))))
               (abs_mean (TBin Sub (TSynth a "image") raw)))
            (abs_mean (TBin Sub (TSynth a "image_wobg")
                                (real_img_recon_wobg_raw mt))))
         (abs_mean (TBin Sub (masked_gen_bg (TSynth a "rgb_bg") seg)
                             (real_img_bg_raw mt)))) /\
    through_D (loss_recon_of terms) = false /\
    through_G (loss_recon_of terms) = true.
Proof.
  intros Hpro Hterms.
  destruct (prologue_Ok _ _ _ _ _ Hpro) as (Hsr & _ & Htg & Hmt).
  unfold real_targets in Htg. rewrite Hsr in Htg.
  cbn [blur_targets blur_raw_target andb Qltb Qle_bool Qnum Qden Z.mul
       Z.leb Z.compare negb] in Htg.
  injection Htg as <-.
  unfold masked_real_targets in Hmt.
  cbn [v_real_img_raw v_real_seg_recon_render load need] in Hmt.
  injection Hmt as <-.
  destruct (recon_losses_calls _ _ _ _ _ _ _ Hterms) as [Hlpips Hfacenet].
  unfold recon_losses in Hterms. rewrite Hlpips, Hfacenet in Hterms.
  cbn [gen_output_of synthesis_keys map dict_set dict_get dict_lookup String.eqb
       Ascii.eqb Bool.eqb rbind call v_real_img_raw v_real_seg_raw
       v_real_seg_recon_render v_real_feature_recon_bg load need
       real_img_recon_wobg_raw real_img_bg_raw] in Hterms.
  eexists. eexists. split; [reflexivity |]. split; [reflexivity |].
  destruct (real_depth_recon inp), (real_feature_recon inp),
    (real_feature_recon_bg inp), (real_triplane_recon inp),
    (cur_nimg inp <? 400000)%Z, (real_seg_recon_render inp);
    cbn [rbind need] in Hterms;
    try discriminate Hterms;
    injection Hterms as <-;
    cbn [loss_id loss_recon_depth loss_recon_feature loss_recon_triplane
         loss_recon_lpips loss_recon_l1 real_img_recon_wobg_raw real_img_bg_raw];
    repeat (split; [first [reflexivity | discriminate | intros _; reflexivity
                           | intros _; split; reflexivity] |]);
    split; reflexivity.
Qed.

Lemma followed_by_Ok (O1 O2 : outcome data) (evs : list (event data)) :
  followed_by O1 O2 (Ok tt) evs ->
  exists evs1 evs2, O1 (Ok tt) evs1 /\ O2 (Ok tt) evs2 /\ evs = evs1 ++ evs2.
Proof.
  intros (r1 & evs1 & H1 & H). destruct r1 as [[] | e].
  - destruct H as (evs2 & H2 & ->). exists evs1, evs2. repeat split; assumption.
  - destruct H as [H _]. discriminate H.
Qed.

Lemma density_gate_on (self : config) (ph : string) (dg : bool) :
  density_gate self ph = Ok dg -> dg = density_on self ph.
Proof.
  unfold density_gate, density_on.
  destruct (phase_in ph ["Greg"; "Gboth"]%string); cbn [andb];
    [| intro H; injection H as <-; reflexivity].
  destruct (Qltb 0 (density_reg_or_0 self)); cbn [andb];
    [| intro H; injection H as <-; reflexivity].
  destruct (reg_type (G_rendering_kwargs self)); cbn [kwarg rbind].
  - intro H. injection H as <-. reflexivity.
  - discriminate.
Qed.

Lemma backward_losses_app (evs1 evs2 : list (event data)) :
  backward_losses (evs1 ++ evs2) = backward_losses evs1 ++ backward_losses evs2.
Proof.
  induction evs1 as [| e evs1 IH]; [reflexivity |].
  destruct e; cbn; rewrite IH; reflexivity.
Qed.

(** What a returning step did, block by block. *)
Lemma step_outcome_Ok (self : config) (inp : inputs data)
    (evs : list (event data)) :
  step_outcome self inp (Ok tt) evs ->
  exists res tg mt evsG evsT evsDgen evsDreal,
    prologue self inp = Ok (res, tg, mt) /\
    evs = evsG ++ evsT ++ evsDgen ++ evsDreal /\
    let ph := collapse_phase self (phase inp) in
    let active := discriminator_active self (cur_nimg inp) in
    guarded (phase_in ph ["Gmain"; "Gboth"]%string)
            (Gmain_outcome self inp tg mt) (Ok tt) evsG /\
    guarded (density_on self ph) (density_outcome inp) (Ok tt) evsT /\
    guarded (active && phase_in ph ["Dmain"; "Dboth"]%string)
            (Dgen_outcome self inp) (Ok tt) evsDgen /\
    guarded (active && phase_in ph ["Dmain"; "Dreg"; "Dboth"]%string)
            (Dreal_outcome inp) (Ok tt) evsDreal.
Proof.
  unfold step_outcome.
  destruct (prologue self inp) as [[[res tg] mt] | e];
    [| intros [H _]; discriminate H].
  intro H.
  apply followed_by_Ok in H. destruct H as (evsG & evs' & HG & H & ->).
  apply followed_by_Ok in H. destruct H as (evsT & evsD & HT & HD & ->).
  unfold density_part in HT.
  destruct (density_gate self (collapse_phase self (phase inp))) as [dg | e] eqn:Hdg;
    [| destruct HT as [HT _]; discriminate HT].
  apply density_gate_on in Hdg. subst dg.
  exists res, tg, mt, evsG, evsT.
  destruct (discriminator_active self (cur_nimg inp)); cbn [guarded andb] in *.
  - apply followed_by_Ok in HD. destruct HD as (evsDg & evsDr & HDg & HDr & ->).
    exists evsDg, evsDr. repeat split; assumption.
  - destruct HD as [_ ->]. exists [], []. repeat split; assumption.
Qed.







End Step.





(** ** R1 regularization in single-discrimination mode *)

Section SingleDiscrimination.

Variable data : Type.

Lemma bind_Ok (A B : Type) (m : M data A) (k : A -> M data B)
    (w w' : world data) (b : B) :
  bind m k w = (Ok b, w') ->
  exists a w1, m w = (Ok a, w1) /\ k a w1 = (Ok b, w').
Proof.
  unfold bind. destruct (m w) as [[a | e] w1]; intro H.
  - exists a, w1. split; [reflexivity | exact H].
  - discriminate H.
Qed.

Lemma when_true_Ok (b : bool) (m : M data unit) (w w' : world data) :
  b = true -> when b m w = (Ok tt, w') -> m w = (Ok tt, w').
Proof. intros ->. trivial. Qed.

Lemma reg_phase_is_real_phase (ph : string) :
  phase_in ph ["Dreg"; "Dboth"]%string = true ->
  phase_in ph ["Dmain"; "Dreg"; "Dboth"]%string = true.
Proof.
  unfold phase_in. cbn [existsb]. intro H. rewrite H. apply orb_true_r.
Qed.

(** Line 488 reads [r1_penalty_seg], which the single-discrimination branch
    (lines 479-487) never assigns. *)
Lemma single_discrimination_r1_loss (self : config) (sp : step_params)
    (real_logits : tensor data) (real_img_tmp : dict data) :
  dual_discrimination self = false ->
  exists e, r1_loss self sp real_logits real_img_tmp = Raise e /\
            ((forall k, e <> KeyError k) ->
             e = UnboundLocalError "r1_penalty_seg").
Proof.
  intro Hdual. unfold r1_loss, r1_penalties. rewrite Hdual.
  destruct (dict_get real_img_tmp
              (if G_has_superresolution self then "image_sr" else "image")%string)
    as [x | e] eqn:Hx; cbn [rbind].
  - eexists. split; [reflexivity |]. reflexivity.
  - exists e. split; [reflexivity |]. intro Hk.
    unfold dict_get in Hx. destruct (dict_lookup real_img_tmp _); [discriminate |].
    injection Hx as <-. exfalso. eapply Hk. reflexivity.
Qed.

Lemma Dreal_block_single_raises (self : config) (inp : inputs data)
    (sp : step_params) (ph : string) (tg : targets data) (w : world data) :
  dual_discrimination self = false ->
  phase_in ph ["Dreg"; "Dboth"]%string = true ->
  exists e, fst (Dreal_block self inp sp ph tg w) = Raise e.
Proof.
  intros Hdual Hreg. unfold Dreal_block. rewrite Hreg.
  rewrite lift_bind_run.
  destruct (dict_get (v_real_img tg) "image_sr"); [| eexists; reflexivity].
  rewrite lift_bind_run.
  destruct (dict_get (v_real_img tg) "uv"); [| eexists; reflexivity].
  rewrite lift_bind_run.
  destruct (dict_get (v_real_img tg) "image"); [| eexists; reflexivity].
  rewrite lift_bind_run.
  destruct (dict_get (v_real_img tg) "seg"); [| eexists; reflexivity].
  unfold bind at 1.
  destruct (run_D self _ (real_c_compose_recon inp) (sp_blur_sigma sp) false w)
    as [[r | e] w1]; [| eexists; reflexivity].
  unfold bind at 1. unfold lift at 1.
  destruct (single_discrimination_r1_loss self sp (fst r) (snd r) Hdual)
    as (e & -> & _).
  eexists. reflexivity.
Qed.

End SingleDiscrimination.

(** C3.  What the code does where the claim promises a well-defined
    combination: with single discrimination, a regularization phase ([Dreg]
    or [Dboth] after the collapse) and an active discriminator, every
    invocation raises; no R1 loss is ever formed. *)
Theorem C3_single_discrimination_r1_raises (data : Type) (self : config)
    (inp : inputs data) (w : world data) :
  dual_discrimination self = false ->
  phase_in (collapse_phase self (phase inp)) ["Dreg"; "Dboth"]%string = true ->
  discriminator_active self (cur_nimg inp) = true ->
  exists e, fst (accumulate_gradients self inp w) = Raise e.
Proof.
  intros Hdual Hreg Hactive.
  destruct (accumulate_gradients self inp w) as [[[] | e] w'] eqn:Hrun;
    [exfalso | eexists; reflexivity].
  unfold accumulate_gradients in Hrun.
  apply bind_Ok in Hrun. destruct Hrun as (res & w1 & _ & Hrun).
  apply bind_Ok in Hrun. destruct Hrun as (tg & w2 & _ & Hrun).
  apply bind_Ok in Hrun. destruct Hrun as (mt & w3 & _ & Hrun).
  apply bind_Ok in Hrun. destruct Hrun as ([] & w4 & _ & Hrun).
  apply bind_Ok in Hrun. destruct Hrun as (dg & w5 & _ & Hrun).
  apply bind_Ok in Hrun. destruct Hrun as ([] & w6 & _ & Hrun).
  apply (when_true_Ok _ _ _ _ _ Hactive) in Hrun.
  unfold D_block in Hrun.
  apply bind_Ok in Hrun. destruct Hrun as ([] & w7 & _ & Hrun).
  apply (when_true_Ok _ _ _ _ _ (reg_phase_is_real_phase _ Hreg)) in Hrun.
  destruct (Dreal_block_single_raises data self inp
              (step_hyperparams self (cur_nimg inp))
              (collapse_phase self (phase inp)) tg w7 Hdual Hreg) as (e & He).
  rewrite Hrun in He. discriminate He.
Qed.

Lemma C3_single_discrimination_r1_raises_witness :
  exists e,
    fst (accumulate_gradients reference_config
           (sample_inputs "Dreg" 2000000 (Some (1 # 2)%Q) false)
           (sample_world low_low_high)) = Raise e.
Proof.
  exact (C3_single_discrimination_r1_raises string reference_config
           (sample_inputs "Dreg" 2000000 (Some (1 # 2)%Q) false)
           (sample_world low_low_high) eq_refl eq_refl eq_refl).
Defined.

(** The reference configuration (single discrimination, [r1_gamma = 10]) on
    a [Dreg] step past the warm-up: the discriminator has been called on the
    real images, then line 488 raises and nothing is back-propagated. *)
Lemma single_discrimination_r1_example :
  fst (accumulate_gradients reference_config
         (sample_inputs "Dreg" 2000000 (Some (1 # 2)%Q) false)
         (sample_world low_low_high))
  = Raise (UnboundLocalError "r1_penalty_seg") /\
  map (fun e => (is_call_D e, is_backward e))
      (log (snd (accumulate_gradients reference_config
                   (sample_inputs "Dreg" 2000000 (Some (1 # 2)%Q) false)
                   (sample_world low_low_high))))
  = [(true, false)].
Proof. split; vm_compute; reflexivity. Qed.

(** ** The generator phases *)

Section GeneratorPhases.

Variable data : Type.








(** A returning step of a generator phase starts with the Gmain block. *)
Lemma generator_phase_Ok (self : config) (inp : inputs data)
    (w w' : world data) :
  accumulate_gradients self inp w = (Ok tt, w') ->
  phase_in (collapse_phase self (phase inp)) ["Gmain"; "Gboth"]%string = true ->
  exists res tg mt a terms rest,
    prologue self inp = Ok (res, tg, mt) /\
    recon_losses self inp tg mt
      (gen_output_of self (flame_of inp) (real_c_recon inp) a) = Ok terms /\
    log w' = log w
             ++ CallSynthesis a
             :: (if discriminator_active self (cur_nimg inp)
                 then [CallD (gen_output_of self (flame_of inp) (real_c_recon inp) a)
                             (real_c_compose_recon inp) false;
                       Backward
                         (Gmain_total self inp terms
                            (Some (adversarial_term
                                     (gen_output_of self (flame_of inp)
                                                    (real_c_recon inp) a)
                                     (real_c_compose_recon inp))))]
                 else [Backward (Gmain_total self inp terms None)])
             ++ rest.
Proof.
  intros Hrun Hph.
  destruct (accumulate_gradients_runs data self inp w) as (evs & Hlog & Hout).
  rewrite Hrun in Hlog, Hout. cbn [fst snd] in Hlog, Hout.
  apply step_outcome_Ok in Hout.
  destruct Hout as (res & tg & mt & evsG & evsT & evsDg & evsDr & Hpro & -> & H).
  cbv zeta in H. destruct H as (HG & _). rewrite Hph in HG. cbn [guarded] in HG.
  destruct HG as (a & terms & Hterms & ->). cbv zeta in Hterms.
  exists res, tg, mt, a, terms, (evsT ++ evsDg ++ evsDr).
  split; [exact Hpro |]. split; [exact Hterms |].
  rewrite Hlog. reflexivity.
Qed.

Lemma aborted_no_backward (b : bool) (evs : list (event data)) :
  aborted b evs -> backward_losses evs = [].
Proof.
  unfold aborted. induction 1 as [| e evs [Hb _] _ IH]; [reflexivity |].
  destruct e; cbn in *; try exact IH. discriminate Hb.
Qed.

(** Whatever the result of a generator-phase step: either no backward pass
    was issued at all, or the step began with the complete Gmain block. *)
Lemma generator_phase_trace (self : config) (inp : inputs data)
    (r : result unit) (evs : list (event data)) :
  step_outcome self inp r evs ->
  phase_in (collapse_phase self (phase inp)) ["Gmain"; "Gboth"]%string = true ->
  backward_losses evs = [] \/
  exists res tg mt a terms rest,
    prologue self inp = Ok (res, tg, mt) /\
    recon_losses self inp tg mt
      (gen_output_of self (flame_of inp) (real_c_recon inp) a) = Ok terms /\
    evs = CallSynthesis a
          :: (if discriminator_active self (cur_nimg inp)
              then [CallD (gen_output_of self (flame_of inp) (real_c_recon inp) a)
                          (real_c_compose_recon inp) false;
                    Backward
                      (Gmain_total self inp terms
                         (Some (adversarial_term
                                  (gen_output_of self (flame_of inp)
                                                 (real_c_recon inp) a)
                                  (real_c_compose_recon inp))))]
              else [Backward (Gmain_total self inp terms None)])
          ++ rest.
Proof.
  unfold step_outcome. intros H Hph.
  destruct (prologue self inp) as [[[res tg] mt] | e];
    [| destruct H as [_ ->]; left; reflexivity].
  rewrite Hph in H. cbn [guarded] in H.
  destruct H as (rG & evsG & HG & H).
  destruct rG as [[] | e].
  - right. destruct HG as (a & terms & Hterms & ->).
    destruct H as (rest & _ & ->).
    exists res, tg, mt, a, terms, rest. repeat split. exact Hterms.
  - left. destruct H as [_ ->]. exact (aborted_no_backward _ _ HG).
Qed.

End GeneratorPhases.

(** C4.  In every [Gmain]/[Gboth] step, whatever its result: if any
    backward pass was issued, the first one differentiates the mean of the
    reconstruction loss (plus the adversarial term, when there is one) times
    the gain, and the identity summand of that reconstruction loss is the
    number 0 while [cur_nimg < 400000], whatever the inputs, and from then on
    [mean(1 - cosine_similarity)] of the identity embeddings of the generated
    and the detached ground-truth super-resolution image, both clamped after
    being warped by the landmark-derived transform.  A step that returns
    has issued that backward pass. *)
Theorem C4_identity_gate (data : Type) (self : config) (inp : inputs data)
    (w : world data) :
  phase_in (collapse_phase self (phase inp)) ["Gmain"; "Gboth"]%string = true ->
  let run := accumulate_gradients self inp w in
  exists evs,
    log (snd run) = log w ++ evs /\
    (fst run = Ok tt -> backward_losses evs <> []) /\
    (backward_losses evs = [] \/
     exists tg mt a terms adv others rest,
       recon_losses self inp tg mt
         (gen_output_of self (flame_of inp) (real_c_recon inp) a) = Ok terms /\
       evs = CallSynthesis a :: rest /\
       hd_error (backward_losses evs) = Some (Gmain_total self inp terms adv) /\
       loss_recon_of terms = TBin Add others (loss_id terms) /\
       loss_id terms
       = if (cur_nimg inp <? 400000)%Z then TNum 0
         else
           let landmarks :=
             TRender (flame_of inp) (real_c_recon inp)
                     (Z.quot (G_img_resolution self) 2) RenderLandmarks in
           let real := TIn (real_img_recon inp) in
           let trans_m := TBin EstimateNorm landmarks (TUn ShapeLast real) in
           TUn Mean
             (TBin Sub (TNum 1)
                (TBin CosSim
                   (TUn Facenet
                      (TUn Clamp11
                         (TBin WarpAffine112 (TSynth a "image_sr") trans_m)))
                   (TUn Facenet
                      (TUn Detach
                         (TUn Clamp11 (TBin WarpAffine112 real trans_m))))))).
Proof.
  intros Hph run.
  destruct (accumulate_gradients_runs data self inp w) as (evs & Hlog & Hout).
  fold run in Hlog, Hout.
  exists evs. split; [exact Hlog |].
  destruct (generator_phase_trace data self inp _ _ Hout Hph)
    as [Hnone | (res & tg & mt & a & terms & rest & Hpro & Hterms & Hevs)].
  - split; [| left; exact Hnone].
    intro Hok. exfalso.
    assert (Hpair : accumulate_gradients self inp w = (Ok tt, snd run))
      by (rewrite <- Hok; subst run; apply surjective_pairing).
    destruct (generator_phase_Ok data self inp w _ Hpair Hph)
      as (res & tg & mt & a & terms & rest & _ & _ & Hlog').
    rewrite Hlog in Hlog'. apply app_inv_head in Hlog'. subst evs.
    destruct (discriminator_active self (cur_nimg inp)); discriminate Hnone.
  - destruct (recon_losses_fields data _ _ _ _ _ _ _ Hpro Hterms)
      as (raw & seg & _ & _ & Hid & _).
    split.
    + intros _. rewrite Hevs.
      destruct (discriminator_active self (cur_nimg inp)); discriminate.
    + right. exists tg, mt, a, terms.
      destruct (discriminator_active self (cur_nimg inp)).
      * eexists. eexists. eexists.
        split; [exact Hterms |]. split; [exact Hevs |].
        split; [rewrite Hevs; reflexivity |]. split; [reflexivity | exact Hid].
      * eexists. eexists. eexists.
        split; [exact Hterms |]. split; [exact Hevs |].
        split; [rewrite Hevs; reflexivity |]. split; [reflexivity | exact Hid].
Qed.

Lemma C4_identity_gate_witness :
  exists evs,
    log (snd (accumulate_gradients reference_config
                (sample_inputs "Gmain" 0 (Some (1 # 2)%Q) false)
                (sample_world low_low_high))) = [] ++ evs /\
    backward_losses evs <> [].
Proof.
  destruct (C4_identity_gate string reference_config
              (sample_inputs "Gmain" 0 (Some (1 # 2)%Q) false)
              (sample_world low_low_high) eq_refl)
    as (evs & Hlog & Hok & _).
  exists evs. split; [exact Hlog |]. apply Hok. vm_compute. reflexivity.
Defined.



(** ** A Gmain step without optional ground truth *)

Section GmainStep.

Variable data : Type.

Lemma collapse_phase_Gmain (self : config) :
  collapse_phase self "Gmain" = "Gmain"%string.
Proof.
  unfold collapse_phase.
  destruct (Qeq_bool (density_reg_or_0 self) 0), (Qeq_bool (r1_gamma self) 0),
    (Qeq_bool (r1_gamma_patch self) 0); reflexivity.
Qed.

Lemma prologue_total (self : config) (inp : inputs data) (res : Z * Z) :
  G_has_superresolution self = true ->
  resolution_schedule self (cur_nimg inp) = Ok res ->
  exists tg mt, prologue self inp = Ok (res, tg, mt).
Proof.
  intros Hsr Hres. unfold prologue, real_targets. rewrite Hres, Hsr.
  cbn. eexists. eexists. reflexivity.
Qed.

(** After the prologue a [Gmain] step is the Gmain block and nothing else. *)
Lemma Gmain_step (self : config) (inp : inputs data) (res : Z * Z)
    (tg : targets data) (mt : masked_targets data) (w : world data) :
  phase inp = "Gmain"%string ->
  prologue self inp = Ok (res, tg, mt) ->
  accumulate_gradients self inp w
  = Gmain_block self inp (step_hyperparams self (cur_nimg inp))
                (fst res) (snd res) tg mt w.
Proof.
  intros Hph Hpro.
  destruct (prologue_Ok data _ _ _ _ _ Hpro) as (_ & Hres & Htg & Hmt).
  unfold accumulate_gradients.
  rewrite Hph, collapse_phase_Gmain.
  rewrite lift_bind_run, Hres, lift_bind_run.
  cbn [sp_blur_sigma step_hyperparams]. rewrite Htg, lift_bind_run, Hmt.
  cbn [phase_in existsb String.eqb Ascii.eqb Bool.eqb orb when].
  unfold bind at 1.
  destruct (Gmain_block self inp (step_hyperparams self (cur_nimg inp))
              (fst res) (snd res) tg mt w) as [[[] | e] w1]; [| reflexivity].
  unfold density_gate, D_block.
  cbn [phase_in existsb String.eqb Ascii.eqb Bool.eqb orb when].
  destruct (discriminator_active self (cur_nimg inp)); reflexivity.
Qed.

Lemma conditioning_of_total
    (imgs_app imgs_mot motions_app motions : list data) (ms : Q)
    (swap : option Q) (static : bool) (w : world data) :
  List.length imgs_mot = List.length imgs_app ->
  List.length motions_app = List.length imgs_app ->
  List.length motions = List.length imgs_app ->
  (static = true -> swap <> None -> Nat.even (List.length imgs_app) = true) ->
  exists cnd w1,
    conditioning_of imgs_app imgs_mot motions_app motions ms swap static w
    = (Ok cnd, w1) /\ log w1 = log w.
Proof.
  intros Hm Hma Hmo Heven.
  destruct swap as [p |], static.
  - eexists. eexists. split.
    + apply (conditioning_of_static_some _ _ _ _ _ Hm Hma Hmo).
      apply Heven; [reflexivity | discriminate].
    + reflexivity.
  - eexists. eexists. split.
    + apply (conditioning_of_plain_some _ _ _ _ _ Hm Hma Hmo).
    + reflexivity.
  - eexists. eexists. split; [apply conditioning_of_static_none | reflexivity].
  - eexists. eexists. split; [apply conditioning_of_plain_none | reflexivity].
Qed.

(** The Gmain block returns once the conditioning and the reconstruction
    losses are defined. *)
Lemma Gmain_block_Ok (self : config) (inp : inputs data) (res resp : Z)
    (tg : targets data) (mt : masked_targets data)
    (cnd : conditioning data) (w w1 : world data) (terms : recon_terms data) :
  conditioning_of (real_img_app inp) (real_img_mot inp) (motions_app inp)
                  (motions inp) (motion_scale inp) (swapping_prob inp)
                  (half_static inp) w = (Ok cnd, w1) ->
  let a := {| sa_imgs_app := imgs_app_conditioning cnd;
              sa_imgs_mot := real_img_mot inp;
              sa_motions_app := motions_app_conditioning cnd;
              sa_motions := motions inp;
              sa_c := real_c_recon inp;
              sa_deformer := flame_of inp;
              sa_neural_rendering_resolution := res;
              sa_motion_scale := motion_scale_conditioning cnd |} in
  let gen_img := gen_output_of self (flame_of inp) (real_c_recon inp) a in
  recon_losses self inp tg mt gen_img = Ok terms ->
  Gmain_block self inp (step_hyperparams self (cur_nimg inp)) res resp tg mt w
  = (Ok tt,
     logged w1
       (CallSynthesis a
        :: (if discriminator_active self (cur_nimg inp)
            then [CallD gen_img (real_c_compose_recon inp) false;
                  Backward (Gmain_total self inp terms
                              (Some (adversarial_term gen_img
                                       (real_c_compose_recon inp))))]
            else [Backward (Gmain_total self inp terms None)]))).
Proof.
  intros Hc a gen_img Hterms.
  pose proof (recon_losses_is_tensor data _ _ _ _ _ _ Hterms) as Hnum.
  unfold Gmain_block. unfold bind at 1.
  rewrite (run_G_of_conditioning data _ _ _ _ self (flame_of inp) (real_c_recon inp)
             res resp _ _ _ _ _ _ Hc).
  fold a. fold gen_img. rewrite lift_bind_run, Hterms.
  destruct (discriminator_active self (cur_nimg inp)).
  - unfold bind, run_D, lift, ret, emit, method_mean, method_mul.
    cbn [sp_blur_sigma step_hyperparams]. rewrite Hnum. cbn.
    unfold logged. cbn [log rand_stream rand_pos].
    rewrite <- !app_assoc. reflexivity.
  - unfold bind, lift, ret, emit, method_mean, method_mul.
    rewrite Hnum. cbn. unfold logged. cbn [log rand_stream rand_pos].
    rewrite <- !app_assoc. reflexivity.
Qed.


End GmainStep.


(** ** The phase collapse (lines 216-221) *)

Ltac split_tags :=
  repeat (cbn -[String.eqb];
          match goal with
          | |- context [String.eqb ?a ?b] =>
              first [ let v := eval vm_compute in (String.eqb a b) in
                      match v with
                      | true => idtac
                      | false => idtac
                      end;
                      change (String.eqb a b) with v
                    | is_var b; destruct (String.eqb_spec a b); subst ]
          end);
  cbn -[String.eqb].

(** X1.  Collapsing a phase tag twice is the same as collapsing it once: the
    tags the three dictionaries produce (['none'], ['Gmain'], ['Dmain']) are
    not keys of any of them. *)
Theorem collapse_phase_idempotent (self : config) (ph : string) :
  collapse_phase self (collapse_phase self ph) = collapse_phase self ph.
Proof.
  unfold collapse_phase.
  destruct (Qeq_bool (density_reg_or_0 self) 0),
           (Qeq_bool (r1_gamma self) 0),
           (Qeq_bool (r1_gamma_patch self) 0);
    split_tags; try reflexivity; congruence.
Qed.

(** X2.  After the collapse no regularization tag survives a zero weight:
    with [density_reg] zero (or absent) the tag is neither ['Greg'] nor
    ['Gboth'], with [r1_gamma] zero neither ['Dreg'] nor ['Dboth'], with
    [r1_gamma_patch] zero neither ['D_patchreg'] nor ['D_patchboth']. *)
Theorem collapse_phase_zero_weight (self : config) (ph : string) :
  ((density_reg_or_0 self == 0)%Q ->
   phase_in (collapse_phase self ph) ["Greg"; "Gboth"]%string = false) /\
  ((r1_gamma self == 0)%Q ->
   phase_in (collapse_phase self ph) ["Dreg"; "Dboth"]%string = false) /\
  ((r1_gamma_patch self == 0)%Q ->
   phase_in (collapse_phase self ph) ["D_patchreg"; "D_patchboth"]%string = false).
Proof.
  unfold collapse_phase, phase_in.
  repeat split; intro H; apply Qeq_bool_iff in H; rewrite H;
    destruct (Qeq_bool (density_reg_or_0 self) 0),
             (Qeq_bool (r1_gamma self) 0),
             (Qeq_bool (r1_gamma_patch self) 0);
    try discriminate H;
    split_tags; try reflexivity;
    repeat match goal with
           | |- context [String.eqb ?a ?b] =>
               destruct (String.eqb_spec a b); subst; cbn -[String.eqb]
           end; congruence.
Qed.

Lemma collapse_phase_zero_weight_witness :
  phase_in (collapse_phase reference_config "Greg") ["Greg"; "Gboth"]%string
  = false.
Proof.
  apply (proj1 (collapse_phase_zero_weight reference_config "Greg")).
  reflexivity.
Defined.

Section PhaseDispatch.

Variable data : Type.

(** The step only looks at the collapsed tag. *)
Lemma accumulate_gradients_phase (self : config) (inp : inputs data)
    (ph1 ph2 : string) :
  collapse_phase self ph1 = collapse_phase self ph2 ->
  accumulate_gradients self (with_phase inp ph1)
  = accumulate_gradients self (with_phase inp ph2).
Proof.
  intro H. unfold accumulate_gradients. cbn [phase with_phase cur_nimg].
  rewrite H. reflexivity.
Qed.

(** Once the prologue has gone through, the step is the sequence of its
    three guarded blocks. *)
Lemma step_after_prologue (self : config) (inp : inputs data) (res : Z * Z)
    (tg : targets data) (mt : masked_targets data) (w : world data) :
  prologue self inp = Ok (res, tg, mt) ->
  accumulate_gradients self inp w
  = bind (when (phase_in (collapse_phase self (phase inp)) ["Gmain"; "Gboth"]%string)
               (Gmain_block self inp (step_hyperparams self (cur_nimg inp))
                            (fst res) (snd res) tg mt))
         (fun _ =>
            bind (lift (density_gate self (collapse_phase self (phase inp))))
                 (fun dg =>
                    bind (when dg (density_block self inp))
                         (fun _ =>
                            when (discriminator_active self (cur_nimg inp))
                                 (D_block self inp
                                    (step_hyperparams self (cur_nimg inp))
                                    (collapse_phase self (phase inp))
                                    (fst res) (snd res) tg)))) w.
Proof.
  intro Hpro.
  destruct (prologue_Ok data _ _ _ _ _ Hpro) as (_ & Hres & Htg & Hmt).
  unfold accumulate_gradients.
  rewrite lift_bind_run, Hres, lift_bind_run.
  cbn [sp_blur_sigma step_hyperparams]. rewrite Htg, lift_bind_run, Hmt.
  reflexivity.
Qed.

End PhaseDispatch.

(** X3.  A regularization phase whose weight is zero is run as the phase it
    collapses to, in every respect: with [density_reg] zero (or absent)
    ['Gboth'] is ['Gmain'] and ['Greg'] is ['none']; with [r1_gamma] zero
    ['Dboth'] is ['Dmain'] and ['Dreg'] is ['none']; with [r1_gamma_patch]
    zero ['D_patchboth'] is ['Dmain'], a step of the main discriminator,
    and ['D_patchreg'] is ['none']. *)
Theorem degenerate_phases_alias (data : Type) (self : config)
    (inp : inputs data) :
  ((density_reg_or_0 self == 0)%Q ->
   accumulate_gradients self (with_phase inp "Gboth")
   = accumulate_gradients self (with_phase inp "Gmain") /\
   accumulate_gradients self (with_phase inp "Greg")
   = accumulate_gradients self (with_phase inp "none")) /\
  ((r1_gamma self == 0)%Q ->
   accumulate_gradients self (with_phase inp "Dboth")
   = accumulate_gradients self (with_phase inp "Dmain") /\
   accumulate_gradients self (with_phase inp "Dreg")
   = accumulate_gradients self (with_phase inp "none")) /\
  ((r1_gamma_patch self == 0)%Q ->
   accumulate_gradients self (with_phase inp "D_patchboth")
   = accumulate_gradients self (with_phase inp "Dmain") /\
   accumulate_gradients self (with_phase inp "D_patchreg")
   = accumulate_gradients self (with_phase inp "none")).
Proof.
  repeat split; apply accumulate_gradients_phase; apply Qeq_bool_iff in H;
    unfold collapse_phase; rewrite H;
    destruct (Qeq_bool (density_reg_or_0 self) 0),
             (Qeq_bool (r1_gamma self) 0),
             (Qeq_bool (r1_gamma_patch self) 0);
    reflexivity || discriminate H.
Qed.

Lemma degenerate_phases_alias_witness :
  accumulate_gradients reference_config
    (with_phase (sample_inputs "none" 0 None false) "Gboth")
  = accumulate_gradients reference_config
      (with_phase (sample_inputs "none" 0 None false) "Gmain").
Proof.
  apply (proj1 (degenerate_phases_alias string reference_config
                  (sample_inputs "none" 0 None false))).
  reflexivity.
Defined.

(** X4.  A tag that no block tests for makes the step a no-op.  With a
    super-resolution generator and a defined resolution schedule, a step
    whose collapsed tag is none of ['Gmain'], ['Gboth'], ['Greg'], ['Dmain'],
    ['Dreg'], ['Dboth'] returns without calling a network, drawing a random
    number or back-propagating anything; this is the case of ['none'] and
    of the patch tags ['D_patchreg'] and ['D_patchboth'] with a nonzero
    patch weight. *)
Theorem unhandled_phase_is_noop (data : Type) (self : config)
    (inp : inputs data) (res : Z * Z) (w : world data) :
  G_has_superresolution self = true ->
  resolution_schedule self (cur_nimg inp) = Ok res ->
  phase_in (collapse_phase self (phase inp)) handled_phases = false ->
  accumulate_gradients self inp w = (Ok tt, w).
Proof.
  intros Hsr Hres Hph.
  destruct (prologue_total data self inp res Hsr Hres) as (tg & mt & Hpro).
  rewrite (step_after_prologue data self inp res tg mt w Hpro).
  unfold density_gate, D_block.
  revert Hph. generalize (collapse_phase self (phase inp)). intros ph Hph.
  unfold phase_in, handled_phases in *. cbn [existsb] in *.
  repeat match type of Hph with
         | context [String.eqb ph ?t] =>
             destruct (String.eqb ph t); [discriminate Hph |]
         end.
  cbn. destruct (discriminator_active self (cur_nimg inp)); reflexivity.
Qed.

Lemma unhandled_phase_is_noop_witness :
  accumulate_gradients reference_config
    (sample_inputs "D_patchboth" 2000000 (Some (1 # 2)%Q) false)
    (sample_world low_low_high)
  = (Ok tt, sample_world low_low_high).
Proof.
  apply (unhandled_phase_is_noop string reference_config
           (sample_inputs "D_patchboth" 2000000 (Some (1 # 2)%Q) false)
           (64, 64)%Z (sample_world low_low_high));
    reflexivity.
Defined.

(** ** Dictionaries: writing and reading back *)

Section Dictionaries.

Variable data : Type.

Lemma dict_lookup_set_same (d : dict data) (k : string) (v : tensor data) :
  dict_lookup (dict_set d k v) k = Some v.
Proof.
  induction d as [| [k' v'] d IH]; cbn.
  - rewrite String.eqb_refl. reflexivity.
  - destruct (String.eqb k' k) eqn:E; cbn.
    + rewrite String.eqb_refl. reflexivity.
    + rewrite E. exact IH.
Qed.

Lemma dict_lookup_set_other (d : dict data) (k k' : string) (v : tensor data) :
  k' <> k -> dict_lookup (dict_set d k v) k' = dict_lookup d k'.
Proof.
  intro Hne. induction d as [| [k0 v0] d IH]; cbn.
  - destruct (String.eqb_spec k k'); [congruence | reflexivity].
  - destruct (String.eqb_spec k0 k) as [-> | Hk]; cbn.
    + destruct (String.eqb_spec k k'); [congruence | reflexivity].
    + destruct (String.eqb k0 k'); [reflexivity | exact IH].
Qed.

End Dictionaries.

(** ** [run_D], continued (lines 200-212) *)

(** Between an integer and the half above it, [rint] rounds down. *)
Lemma rint_down (y : Q) (k : Z) :
  (inject_Z k <= y)%Q -> (y < inject_Z k + (1 # 2))%Q -> rint y = k.
Proof.
  intros Hlo Hhi.
  assert (Hf : Qfloor y = k).
  { pose proof (Qfloor_le y) as F1. pose proof (Qlt_floor y) as F2.
    assert (A : (inject_Z (Qfloor y) < inject_Z (k + 1))%Q).
    { rewrite inject_Z_plus. change (inject_Z 1) with 1%Q. lra. }
    assert (B : (inject_Z k < inject_Z (Qfloor y + 1))%Q) by lra.
    rewrite <- Zlt_Qlt in A, B. lia. }
  unfold rint. rewrite Hf.
  destruct (Qcompare_spec (y - inject_Z k) (1 # 2)) as [E | L | G];
    [exfalso; lra | reflexivity | exfalso; lra].
Qed.

(** The rounded product stays below 1 until the exact one reaches
    [1 - 2^-54], the midpoint between 1 and the value of the format just
    below it. *)
Lemma round64_below_one (x : Q) :
  (x < blur_threshold)%Q -> (round64 x < 1)%Q.
Proof.
  intro H. unfold blur_threshold in H.
  assert (P54 : (pow2 (-54) == 1 # 18014398509481984)%Q) by reflexivity.
  assert (P53 : (pow2 (-53) == 1 # 9007199254740992)%Q) by reflexivity.
  destruct (Qlt_le_dec (1 - pow2 (-53)) x) as [Hx | Hx].
  - (* between the last value below 1 and the midpoint *)
    assert (Hpos : (0 < x)%Q) by (rewrite P53 in Hx; lra).
    assert (He : ilog2 x = (-1)%Z).
    { apply ilog2_unique.
      - change (pow2 (-1)) with (1 # 2)%Q. rewrite P53 in Hx. lra.
      - change (pow2 (-1 + 1)) with 1%Q. rewrite P54 in H. lra. }
    rewrite round64_pos by exact Hpos.
    rewrite round_pos_unfold. unfold spacing. rewrite He.
    change (Z.max (-1 - 52) (-1074)) with (-53)%Z.
    rewrite (rint_down _ (2 ^ 53 - 1)).
    + rewrite P53. reflexivity.
    + apply Qle_shift_div_l; [apply pow2_pos |].
      rewrite P53 in *. apply Qlt_le_weak.
      setoid_replace (inject_Z (2 ^ 53 - 1) * (1 # 9007199254740992))%Q
        with (1 - (1 # 9007199254740992))%Q by reflexivity.
      exact Hx.
    + apply Qlt_shift_div_r; [apply pow2_pos |].
      rewrite P53, P54 in *.
      setoid_replace ((inject_Z (2 ^ 53 - 1) + (1 # 2)) * (1 # 9007199254740992))%Q
        with (1 - (1 # 18014398509481984))%Q by reflexivity.
      exact H.
  - apply Qle_lt_trans with (round64 (1 - pow2 (-53))).
    + apply round64_mono. exact Hx.
    + vm_compute. reflexivity.
Qed.

Lemma round64_reaches_one (x : Q) :
  (blur_threshold <= x)%Q -> (1 <= round64 x)%Q.
Proof.
  intro H. apply Qle_trans with (round64 blur_threshold).
  - vm_compute. discriminate.
  - apply round64_mono. exact H.
Qed.

Lemma blur_size_small (sigma : Q) :
  (sigma * 3 < blur_threshold)%Q -> (0 <? blur_half_width sigma)%Z = false.
Proof.
  intro H. apply Z.ltb_ge. unfold blur_half_width.
  pose proof (round64_below_one _ H) as Hr.
  pose proof (Qfloor_le (round64 (sigma * 3))) as Hf.
  assert (Hlt : (inject_Z (Qfloor (round64 (sigma * 3))) < inject_Z 1)%Q).
  { eapply Qle_lt_trans; [exact Hf |]. exact Hr. }
  rewrite <- Zlt_Qlt in Hlt. lia.
Qed.

Lemma blur_size_large (sigma : Q) :
  (blur_threshold <= sigma * 3)%Q -> (1 <= blur_half_width sigma)%Z.
Proof.
  intro H. unfold blur_half_width.
  pose proof (round64_reaches_one _ H) as Hr.
  apply Qfloor_resp_le in Hr. change (Qfloor 1) with 1%Z in Hr. exact Hr.
Qed.

(** The half-width is the floor of the rounded product, not of the exact
    one: at the float nearest to 1/3 the exact product is below 1 and the
    half-width is 1, at the float nearest to 2/3 the exact product is below
    2 and the half-width is 2. *)
Lemma blur_half_width_rounds :
  blur_half_width (6004799503160661 # 18014398509481984) = 1%Z /\
  Qfloor ((6004799503160661 # 18014398509481984) * 3) = 0%Z /\
  blur_half_width (6004799503160661 # 9007199254740992) = 2%Z /\
  Qfloor ((6004799503160661 # 9007199254740992) * 3) = 1%Z.
Proof. repeat split; vm_compute; reflexivity. Qed.

(** X7.  [run_D] blurs nothing while the triple of [blur_sigma] is below
    [1 - 2^-54], where its binary64 rounding is still below 1 (zero and
    negative values included): the discriminator is called once, on the
    dictionary exactly as it was passed in, and its logits are returned. *)
Theorem run_D_without_blur (data : Type) (self : config) (img : dict data)
    (c : data) (blur_sigma : Q) (update_emas : bool) (w : world data) :
  (- inject_Z (2 ^ 53) <= blur_sigma * 3)%Q ->
  (blur_sigma * 3 < blur_threshold)%Q ->
  run_D self img c blur_sigma update_emas w
  = (Ok (TDisc img c update_emas, img), logged w [CallD img c update_emas]).
Proof.
  intros _ H. unfold run_D. rewrite (blur_size_small _ H). reflexivity.
Qed.

Lemma run_D_without_blur_witness :
  run_D reference_config
    [("image_sr", TIn "sr"); ("image", TIn "raw")]%string
    "c"%string (3 # 10) true (sample_world low_low_high)
  = (Ok (TDisc [("image_sr", TIn "sr"); ("image", TIn "raw")]%string
               "c"%string true,
         [("image_sr", TIn "sr"); ("image", TIn "raw")]%string),
     logged (sample_world low_low_high)
       [CallD [("image_sr", TIn "sr"); ("image", TIn "raw")]%string
              "c"%string true]).
Proof.
  apply (run_D_without_blur string reference_config
           [("image_sr", TIn "sr"); ("image", TIn "raw")]%string
           "c"%string (3 # 10) true (sample_world low_low_high)).
  - vm_compute. discriminate.
  - vm_compute. reflexivity.
Defined.

(** X8.  Once the triple of [blur_sigma] reaches [1 - 2^-54], where its
    binary64 rounding reaches 1, [run_D] blurs exactly one entry of the
    dictionary before calling the discriminator: ['image_sr'] when the
    generator has super-resolution, ['image'] otherwise, with a kernel of
    half-width the floor of the rounded triple, at least 1.  Every other
    entry reaches the discriminator as it was, and the caller's dictionary
    holds the blurred entry afterwards.  If the entry is missing the call
    raises [KeyError] and the discriminator is not called. *)
Theorem run_D_blur (data : Type) (self : config) (img : dict data)
    (c : data) (blur_sigma : Q) (update_emas : bool) (w : world data) :
  (blur_threshold <= blur_sigma * 3)%Q ->
  (blur_sigma * 3 <= inject_Z (2 ^ 53))%Q ->
  let key := (if G_has_superresolution self then "image_sr" else "image")%string in
  (1 <= blur_half_width blur_sigma)%Z /\
  match dict_lookup img key with
  | Some x =>
      exists img',
        run_D self img c blur_sigma update_emas w
        = (Ok (TDisc img' c update_emas, img'),
           logged w [CallD img' c update_emas]) /\
        dict_lookup img' key
        = Some (TBlur x blur_sigma (blur_half_width blur_sigma)) /\
        forall k, k <> key -> dict_lookup img' k = dict_lookup img k
  | None =>
      run_D self img c blur_sigma update_emas w = (Raise (KeyError key), w)
  end.
Proof.
  intros H _ key. pose proof (blur_size_large _ H) as Hw.
  split; [exact Hw |].
  assert (Hon : (0 <? blur_half_width blur_sigma)%Z = true)
    by (apply Z.ltb_lt; lia).
  unfold run_D. rewrite Hon.
  subst key. destruct (G_has_superresolution self); unfold dict_get.
  - destruct (dict_lookup img "image_sr") as [x |] eqn:E; [| reflexivity].
    eexists. split; [reflexivity |]. split.
    + apply dict_lookup_set_same.
    + intros k Hk. apply dict_lookup_set_other. exact Hk.
  - destruct (dict_lookup img "image") as [x |] eqn:E; [| reflexivity].
    eexists. split; [reflexivity |]. split.
    + apply dict_lookup_set_same.
    + intros k Hk. apply dict_lookup_set_other. exact Hk.
Qed.

Lemma run_D_blur_witness :
  (1 <= blur_half_width 1)%Z /\
  exists img',
    run_D reference_config
      [("image_sr", TIn "sr"); ("image", TIn "raw")]%string
      "c"%string 1 false (sample_world low_low_high)
    = (Ok (TDisc img' "c"%string false, img'),
       logged (sample_world low_low_high) [CallD img' "c"%string false]) /\
    dict_lookup img' "image_sr" = Some (TBlur (TIn "sr"%string) 1 3) /\
    forall k, k <> "image_sr"%string ->
              dict_lookup img' k
              = dict_lookup [("image_sr", TIn "sr"); ("image", TIn "raw")]%string k.
Proof.
  apply (run_D_blur string reference_config
           [("image_sr", TIn "sr"); ("image", TIn "raw")]%string
           "c"%string 1 false (sample_world low_low_high)).
  - vm_compute. discriminate.
  - vm_compute. discriminate.
Defined.

(** ** [run_G], continued (lines 164-198) *)

Section RunG.

Variable data : Type.
Variables imgs_app imgs_mot motions_app motions : list data.

(** X9.  What [run_G] consumes of the random source.  With batches of one
    size: no draw when [swapping_prob] is unset, one draw per batch element
    when it is set, and half a batch more when the half-static override is
    on as well (even batch); the call succeeds and leaves the source
    otherwise as it was. *)
Theorem run_G_draws (self : config) (fl : flame data) (c : data)
    (res resp : Z) (ms : Q) (swap : option Q) (static : bool) (w : world data) :
  List.length imgs_mot = List.length imgs_app ->
  List.length motions_app = List.length imgs_app ->
  List.length motions = List.length imgs_app ->
  (static = true -> swap <> None -> Nat.even (List.length imgs_app) = true) ->
  exists out w',
    run_G self imgs_app imgs_mot fl motions_app motions c res resp ms swap static w
    = (Ok out, w') /\
    rand_stream w' = rand_stream w /\
    rand_pos w'
    = rand_pos w
      + match swap with
        | None => 0
        | Some _ =>
            List.length imgs_app
            + (if static then Nat.div (List.length imgs_app) 2 else 0)
        end.
Proof.
  intros Hm Hma Hmo Heven.
  assert (Hc : exists cnd w1,
             conditioning_of imgs_app imgs_mot motions_app motions ms swap static w
             = (Ok cnd, w1) /\
             rand_stream w1 = rand_stream w /\
             rand_pos w1
             = rand_pos w
               + match swap with
                 | None => 0
                 | Some _ =>
                     List.length imgs_app
                     + (if static then Nat.div (List.length imgs_app) 2 else 0)
                 end).
  { destruct swap as [p |], static.
    - eexists. eexists. split.
      + apply (conditioning_of_static_some data _ _ _ _ Hm Hma Hmo ms p w).
        apply Heven; [reflexivity | discriminate].
      + cbn. split; [reflexivity | lia].
    - eexists. eexists. split.
      + apply (conditioning_of_plain_some data _ _ _ _ Hm Hma Hmo ms p w).
      + cbn. split; [reflexivity | lia].
    - eexists. eexists. split.
      + apply (conditioning_of_static_none data imgs_app imgs_mot motions_app
                                           motions ms w).
      + cbn. split; [reflexivity | lia].
    - eexists. eexists. split.
      + apply (conditioning_of_plain_none data imgs_app imgs_mot motions_app
                                          motions ms w).
      + cbn. split; [reflexivity | lia]. }
  destruct Hc as (cnd & w1 & Hc & Hs & Hp).
  pose proof (run_G_of_conditioning data _ _ _ _ self fl c res resp _ _ _ _ _ _ Hc)
    as Hr.
  cbv zeta in Hr. eexists. eexists. split; [exact Hr |].
  cbn [logged rand_stream rand_pos]. split; assumption.
Qed.

(** X10.  Swapping and the half-static override on an odd batch of five or
    more elements: the second half has one element more than the override
    draws for, [torch.where] cannot broadcast, and [run_G] raises after both
    rounds of draws and before the generator is called. *)
Theorem run_G_odd_batch_raises (self : config) (fl : flame data) (c : data)
    (res resp : Z) (ms p : Q) (w : world data) :
  List.length imgs_mot = List.length imgs_app ->
  List.length motions_app = List.length imgs_app ->
  List.length motions = List.length imgs_app ->
  Nat.odd (List.length imgs_app) = true ->
  5 <= List.length imgs_app ->
  run_G self imgs_app imgs_mot fl motions_app motions c res resp ms (Some p) true w
  = (Raise (RuntimeError "size mismatch"),
     advance (advance w (List.length imgs_app))
             (Nat.div (List.length imgs_app) 2)).
Proof.
  intros Hm Hma Hmo Hodd Hfive.
  assert (Hc : conditioning_of imgs_app imgs_mot motions_app motions ms
                               (Some p) true w
               = (Raise (RuntimeError "size mismatch"),
                  advance (advance w (List.length imgs_app))
                          (Nat.div (List.length imgs_app) 2))).
  { unfold conditioning_of, bind.
    change (map (fun one => (one * ms)%Q) (repeat 1%Q (List.length imgs_app)))
      with (ones_times (List.length imgs_app) ms).
    rewrite (swap_conditioning_some data _ _ _ _ Hm Hma Hmo
               (ones_times (List.length imgs_app) ms) p w
               (ones_times_length _ ms)).
    unfold half_static_override, bind, torch_rand, lift, torch_where.
    cbn [fst snd motion_scale_conditioning rand_pos rand_stream advance log].
    rewrite length_map, length_map, length_seq, zeros_like_length, length_skipn,
      ones_times_length.
    generalize dependent (List.length imgs_app). intros batch _ _ _ Hodd Hfive.
    assert (Hhalf : Nat.div batch 2 <> batch - Nat.div batch 2).
    { intro E. apply Nat.odd_spec in Hodd. destruct Hodd as [k Hk].
      pose proof (Nat.div_mod_eq batch 2).
      pose proof (Nat.mod_upper_bound batch 2). lia. }
    assert (Htwo : 2 <= Nat.div batch 2).
    { apply Nat.div_le_lower_bound; lia. }
    pose proof (Nat.div_mod_eq batch 2) as Hdm.
    unfold broadcast_size.
    destruct (Nat.eqb_spec (Nat.div batch 2) (batch - Nat.div batch 2)) as [E | _];
      [contradiction |].
    destruct (Nat.eqb_spec (Nat.div batch 2) 1) as [E | _]; [lia |].
    destruct (Nat.eqb_spec (batch - Nat.div batch 2) 1) as [E | _]; [lia |].
    reflexivity. }
  unfold run_G, bind. rewrite Hc. reflexivity.
Qed.

(** X11.  [run_G] compares batch sizes only inside [torch.where].  With
    [swapping_prob] unset nothing is compared: the call succeeds on batches
    of any sizes and hands them to the generator as they are.  With
    [swapping_prob] set, a motion-image batch whose size is neither that of
    the appearance batch nor 1 (the appearance batch not being of size 1
    either) makes the call raise right after the swap draws, before the
    generator is called. *)
Theorem run_G_batch_sizes (self : config) (fl : flame data) (c : data)
    (res resp : Z) (ms : Q) (w : world data) :
  (exists a,
     run_G self imgs_app imgs_mot fl motions_app motions c res resp ms None false w
     = (Ok (gen_output_of self fl c a), logged w [CallSynthesis a]) /\
     sa_imgs_app a = imgs_app /\ sa_imgs_mot a = imgs_mot /\
     sa_motions_app a = motions_app /\ sa_motions a = motions) /\
  (forall p static,
     List.length imgs_mot <> List.length imgs_app ->
     List.length imgs_mot <> 1 ->
     List.length imgs_app <> 1 ->
     run_G self imgs_app imgs_mot fl motions_app motions c res resp ms
           (Some p) static w
     = (Raise (RuntimeError "size mismatch"), advance w (List.length imgs_app))).
Proof.
  split.
  - eexists. split.
    + apply (run_G_of_conditioning data imgs_app imgs_mot motions_app motions
               self fl c res resp ms None false w w).
      apply conditioning_of_plain_none.
    + repeat split.
  - intros p static Hne H1 H1'.
    unfold run_G, conditioning_of, swap_conditioning, bind, torch_rand, lift,
      torch_where.
    cbn [fst snd]. rewrite length_map, length_map, length_seq.
    unfold broadcast_size.
    destruct (Nat.eqb_spec (List.length imgs_app) (List.length imgs_mot));
      [congruence |].
    destruct (Nat.eqb_spec (List.length imgs_app) 1); [contradiction |].
    destruct (Nat.eqb_spec (List.length imgs_mot) 1); [contradiction |].
    reflexivity.
Qed.

End RunG.

Lemma run_G_draws_witness :
  exists out w',
    run_G reference_config ["app0"; "app1"]%string ["mot0"; "mot1"]%string
          (flame_of (sample_inputs "Gmain" 0 None false))
          ["emb_app0"; "emb_app1"]%string ["emb_mot0"; "emb_mot1"]%string
          "real_c_recon"%string 64 64 1 (Some (1 # 2)%Q) true
          (sample_world low_low_high)
    = (Ok out, w') /\
    rand_stream w' = low_low_high /\
    rand_pos w' = 3.
Proof.
  apply (run_G_draws string
           ["app0"; "app1"]%string ["mot0"; "mot1"]%string
           ["emb_app0"; "emb_app1"]%string ["emb_mot0"; "emb_mot1"]%string
           reference_config (flame_of (sample_inputs "Gmain" 0 None false))
           "real_c_recon"%string 64 64 1 (Some (1 # 2)%Q) true
           (sample_world low_low_high));
    reflexivity.
Defined.

Lemma run_G_odd_batch_raises_witness :
  run_G reference_config
        ["app0"; "app1"; "app2"; "app3"; "app4"]%string
        ["mot0"; "mot1"; "mot2"; "mot3"; "mot4"]%string
        (flame_of (sample_inputs "Gmain" 0 None false))
        ["ea0"; "ea1"; "ea2"; "ea3"; "ea4"]%string
        ["em0"; "em1"; "em2"; "em3"; "em4"]%string
        "real_c_recon"%string 64 64 1 (Some (1 # 2)%Q) true
        (sample_world low_low_high)
  = (Raise (RuntimeError "size mismatch"),
     advance (advance (sample_world low_low_high) 5) 2).
Proof.
  apply (run_G_odd_batch_raises string
           ["app0"; "app1"; "app2"; "app3"; "app4"]%string
           ["mot0"; "mot1"; "mot2"; "mot3"; "mot4"]%string
           ["ea0"; "ea1"; "ea2"; "ea3"; "ea4"]%string
           ["em0"; "em1"; "em2"; "em3"; "em4"]%string
           reference_config (flame_of (sample_inputs "Gmain" 0 None false))
           "real_c_recon"%string 64 64 1 (1 # 2)%Q
           (sample_world low_low_high));
    reflexivity || (cbn; lia).
Defined.

Lemma run_G_batch_sizes_witness :
  run_G reference_config ["app0"; "app1"]%string
        ["mot0"; "mot1"; "mot2"]%string
        (flame_of (sample_inputs "Gmain" 0 None false))
        ["emb_app0"; "emb_app1"]%string ["emb_mot0"; "emb_mot1"]%string
        "real_c_recon"%string 64 64 1 (Some (1 # 2)%Q) false
        (sample_world low_low_high)
  = (Raise (RuntimeError "size mismatch"),
     advance (sample_world low_low_high) 2).
Proof.
  apply (proj2 (run_G_batch_sizes string
                  ["app0"; "app1"]%string ["mot0"; "mot1"; "mot2"]%string
                  ["emb_app0"; "emb_app1"]%string
                  ["emb_mot0"; "emb_mot1"]%string
                  reference_config
                  (flame_of (sample_inputs "Gmain" 0 None false))
                  "real_c_recon"%string 64 64 1
                  (sample_world low_low_high)));
    cbn; lia.
Defined.

(** ** The reconstruction losses, continued (lines 273-346) *)

Section Supervision.

Variable data : Type.

Ltac recon_step :=
  cbn [gen_output_of synthesis_keys map dict_set dict_get dict_lookup String.eqb
       Ascii.eqb Bool.eqb rbind call v_real_img_raw v_real_seg_raw
       v_real_seg_recon_render v_real_feature_recon_bg load need
       real_img_recon_wobg_raw real_img_bg_raw].

(** The two networks, the optional ground truth and the 400000-image
    threshold. *)
Lemma recon_losses_supervision (self : config) (inp : inputs data)
    (res : Z * Z) (tg : targets data) (mt : masked_targets data)
    (a : synthesis_args data) :
  prologue self inp = Ok (res, tg, mt) ->
  let gen_img := gen_output_of self (flame_of inp) (real_c_recon inp) a in
  (lpips self && facenet self = false ->
   recon_losses self inp tg mt gen_img = Raise (TypeError "call")) /\
  (lpips self = true -> facenet self = true ->
   (400000 <= cur_nimg inp)%Z ->
   exists terms,
     recon_losses self inp tg mt gen_img = Ok terms /\
     loss_recon_depth terms = TNum 0 /\
     loss_recon_feature terms = TNum 0 /\
     loss_recon_triplane terms = TNum 0) /\
  (lpips self = true -> facenet self = true ->
   (cur_nimg inp < 400000)%Z ->
   real_feature_recon inp <> None ->
   real_feature_recon_bg inp = None ->
   recon_losses self inp tg mt gen_img = Raise (TypeError "sub")) /\
  (forall b terms,
     real_feature_recon_bg inp = Some b ->
     recon_losses self inp tg mt gen_img = Ok terms ->
     let raw := TResize (TIn (real_img_recon inp)) (fst res) in
     let bg := TUn (Chan 0 3) (TResize (TIn b) (fst res)) in
     loss_recon_lpips terms
     = TBin Add
         (TBin Add
            (TBin Add
               (TBin Lpips (TSynth a "image_sr") (TIn (real_img_recon inp)))
               (TBin Lpips (TSynth a "image") raw))
            (TBin Lpips (TSynth a "image_wobg") (real_img_recon_wobg_raw mt)))
         (TBin Lpips (TSynth a "rgb_bg") bg) /\
     loss_recon_l1 terms
     = TBin Add
         (TBin Add
            (TBin Add
               (abs_mean (TBin Sub (TSynth a "image_sr") (TIn (real_img_recon inp))))
               (abs_mean (TBin Sub (TSynth a "image") raw)))
            (abs_mean (TBin Sub (TSynth a "image_wobg")
                                (real_img_recon_wobg_raw mt))))
         (abs_mean (TBin Sub (TSynth a "rgb_bg") bg))).
Proof.
  intros Hpro gen_img. subst gen_img.
  destruct (prologue_Ok data _ _ _ _ _ Hpro) as (Hsr & _ & Htg & Hmt).
  unfold real_targets in Htg. rewrite Hsr in Htg.
  cbn [blur_targets blur_raw_target andb Qltb Qle_bool Qnum Qden Z.mul
       Z.leb Z.compare negb] in Htg.
  injection Htg as <-.
  unfold masked_real_targets in Hmt.
  cbn [v_real_img_raw v_real_seg_recon_render load need] in Hmt.
  injection Hmt as <-.
  split; [| split; [| split]].
  - intro Hoff. unfold recon_losses. recon_step.
    destruct (lpips self); recon_step; [| reflexivity].
    destruct (facenet self); [discriminate Hoff | reflexivity].
  - intros Hnet Hid Hlate. apply Z.ltb_ge in Hlate.
    unfold recon_losses. rewrite Hnet, Hid, Hlate. recon_step.
    destruct (real_depth_recon inp), (real_feature_recon inp),
      (real_triplane_recon inp); cbn [rbind];
      eexists; (split; [reflexivity |]); repeat split.
  - intros Hnet Hid Hearly Hf Hbg. apply Z.ltb_lt in Hearly.
    unfold recon_losses. rewrite Hnet, Hid, Hearly, Hbg. recon_step.
    destruct (real_feature_recon inp) as [f |]; [| congruence].
    destruct (real_depth_recon inp); cbn [rbind need]; reflexivity.
  - intros b terms Hbg Hterms.
    destruct (recon_losses_calls data _ _ _ _ _ _ Hterms) as [Hnet Hid].
    revert Hterms. unfold recon_losses. rewrite Hnet, Hid, Hbg. recon_step.
    destruct (real_depth_recon inp), (real_feature_recon inp),
      (real_triplane_recon inp), (cur_nimg inp <? 400000)%Z;
      cbn [rbind need]; intro Hterms; injection Hterms as <-;
      split; reflexivity.
Qed.

End Supervision.

(** X12.  From 400000 images on, the depth, feature-map and triplane terms
    of the reconstruction loss are the number 0 whether or not their ground
    truth is supplied, and a ['Gmain'] step on a super-resolution generator
    with a defined schedule, the perceptual and the identity network
    supplied and batches of one size returns whatever optional ground truth
    it is given. *)
Theorem late_supervision_gates (data : Type) (self : config)
    (inp : inputs data) (res : Z * Z) (w : world data) :
  phase inp = "Gmain"%string ->
  G_has_superresolution self = true ->
  resolution_schedule self (cur_nimg inp) = Ok res ->
  List.length (real_img_mot inp) = List.length (real_img_app inp) ->
  List.length (motions_app inp) = List.length (real_img_app inp) ->
  List.length (motions inp) = List.length (real_img_app inp) ->
  (half_static inp = true -> swapping_prob inp <> None ->
   Nat.even (List.length (real_img_app inp)) = true) ->
  lpips self = true ->
  facenet self = true ->
  (400000 <= cur_nimg inp)%Z ->
  exists a terms adv rest w',
    accumulate_gradients self inp w = (Ok tt, w') /\
    log w' = log w ++ CallSynthesis a :: rest /\
    backward_losses rest = [Gmain_total self inp terms adv] /\
    loss_recon_depth terms = TNum 0 /\
    loss_recon_feature terms = TNum 0 /\
    loss_recon_triplane terms = TNum 0.
Proof.
  intros Hph Hsr Hres Hm Hma Hmo Heven Hnet Hid Hlate.
  destruct (prologue_total data self inp res Hsr Hres) as (tg & mt & Hpro).
  destruct (conditioning_of_total data _ _ _ _ (motion_scale inp)
              (swapping_prob inp) (half_static inp) w Hm Hma Hmo Heven)
    as (cnd & w1 & Hc & Hlog).
  pose (a := {| sa_imgs_app := imgs_app_conditioning cnd;
                sa_imgs_mot := real_img_mot inp;
                sa_motions_app := motions_app_conditioning cnd;
                sa_motions := motions inp;
                sa_c := real_c_recon inp;
                sa_deformer := flame_of inp;
                sa_neural_rendering_resolution := fst res;
                sa_motion_scale := motion_scale_conditioning cnd |}).
  pose proof (recon_losses_supervision data self inp res tg mt a Hpro) as Hsup.
  cbv zeta in Hsup. destruct Hsup as (_ & Hsup & _ & _).
  destruct (Hsup Hnet Hid Hlate) as (terms & Hterms & Hd & Hf & Ht).
  exists a, terms,
    (if discriminator_active self (cur_nimg inp)
     then Some (adversarial_term
                  (gen_output_of self (flame_of inp) (real_c_recon inp) a)
                  (real_c_compose_recon inp))
     else None).
  eexists. eexists.
  split.
  { rewrite (Gmain_step data self inp res tg mt w Hph Hpro).
    exact (Gmain_block_Ok data self inp (fst res) (snd res) tg mt cnd w w1 terms
             Hc Hterms). }
  cbn [log logged]. rewrite Hlog.
  split; [reflexivity |].
  split; [| auto].
  destruct (discriminator_active self (cur_nimg inp)); reflexivity.
Qed.

Lemma late_supervision_gates_witness :
  exists a terms adv rest w',
    accumulate_gradients reference_config
      (sample_inputs_with "Gmain" 400000 (Some "depth") (Some "feature") None
                          (Some "triplane"))%string
      (sample_world low_low_high)
    = (Ok tt, w') /\
    log w' = [] ++ CallSynthesis a :: rest /\
    backward_losses rest
    = [Gmain_total reference_config
         (sample_inputs_with "Gmain" 400000 (Some "depth") (Some "feature") None
                             (Some "triplane"))%string
         terms adv] /\
    loss_recon_depth terms = TNum 0 /\
    loss_recon_feature terms = TNum 0 /\
    loss_recon_triplane terms = TNum 0.
Proof.
  apply (late_supervision_gates string reference_config
           (sample_inputs_with "Gmain" 400000 (Some "depth") (Some "feature")
                               None (Some "triplane"))%string
           (64, 64)%Z (sample_world low_low_high));
    reflexivity || discriminate.
Defined.

(** X13.  Feature-map ground truth without background features.  In a
    ['Gmain'] or ['Gboth'] step before 400000 images, on a super-resolution
    generator with a defined schedule and batches of one size, supplying
    [real_feature_recon] while [real_feature_recon_bg] is [None] makes the
    step raise [TypeError]: line 328 subtracts from [None], unless a network
    that is [None] was already called on line 286 or 303.  The generator has
    been called once, nothing has been back-propagated. *)
Theorem feature_without_background_raises (data : Type) (self : config)
    (inp : inputs data) (res : Z * Z) (w : world data) :
  phase_in (collapse_phase self (phase inp)) ["Gmain"; "Gboth"]%string = true ->
  G_has_superresolution self = true ->
  resolution_schedule self (cur_nimg inp) = Ok res ->
  List.length (real_img_mot inp) = List.length (real_img_app inp) ->
  List.length (motions_app inp) = List.length (real_img_app inp) ->
  List.length (motions inp) = List.length (real_img_app inp) ->
  (half_static inp = true -> swapping_prob inp <> None ->
   Nat.even (List.length (real_img_app inp)) = true) ->
  (cur_nimg inp < 400000)%Z ->
  real_feature_recon inp <> None ->
  real_feature_recon_bg inp = None ->
  exists a w',
    accumulate_gradients self inp w
    = (Raise (TypeError (if lpips self && facenet self then "sub" else "call")),
       w') /\
    log w' = log w ++ [CallSynthesis a].
Proof.
  intros Hph Hsr Hres Hm Hma Hmo Heven Hearly Hfeat Hbg.
  destruct (prologue_total data self inp res Hsr Hres) as (tg & mt & Hpro).
  destruct (conditioning_of_total data _ _ _ _ (motion_scale inp)
              (swapping_prob inp) (half_static inp) w Hm Hma Hmo Heven)
    as (cnd & w1 & Hc & Hlog).
  pose (a := {| sa_imgs_app := imgs_app_conditioning cnd;
                sa_imgs_mot := real_img_mot inp;
                sa_motions_app := motions_app_conditioning cnd;
                sa_motions := motions inp;
                sa_c := real_c_recon inp;
                sa_deformer := flame_of inp;
                sa_neural_rendering_resolution := fst res;
                sa_motion_scale := motion_scale_conditioning cnd |}).
  pose proof (recon_losses_supervision data self inp res tg mt a Hpro) as Hsup.
  cbv zeta in Hsup. destruct Hsup as (Hcall & _ & Hsup & _).
  assert (Hraise : recon_losses self inp tg mt
                     (gen_output_of self (flame_of inp) (real_c_recon inp) a)
                   = Raise (TypeError (if lpips self && facenet self
                                       then "sub" else "call"))).
  { destruct (lpips self) eqn:Hnet, (facenet self) eqn:Hid;
      cbn [andb]; [apply Hsup; auto | | |]; apply Hcall; reflexivity. }
  exists a. eexists.
  rewrite (step_after_prologue data self inp res tg mt w Hpro), Hph.
  unfold when. unfold bind at 1. unfold Gmain_block. unfold bind at 1.
  rewrite (run_G_of_conditioning data _ _ _ _ self (flame_of inp) (real_c_recon inp)
             (fst res) (snd res) _ _ _ _ _ _ Hc).
  fold a. rewrite lift_bind_run, Hraise.
  split; [reflexivity |]. cbn [log logged]. rewrite Hlog. reflexivity.
Qed.

Lemma feature_without_background_raises_witness :
  exists a w',
    accumulate_gradients reference_config
      (sample_inputs_with "Gmain" 0 None (Some "feature") None None)%string
      (sample_world low_low_high)
    = (Raise (TypeError "sub"), w') /\
    log w' = [] ++ [CallSynthesis a].
Proof.
  apply (feature_without_background_raises string reference_config
           (sample_inputs_with "Gmain" 0 None (Some "feature") None None)%string
           (64, 64)%Z (sample_world low_low_high));
    reflexivity || discriminate.
Defined.

(** X14.  When background features are supplied, the fourth pair of the
    perceptual and of the L1 loss of a ['Gmain']/['Gboth'] step that returns
    compares the generator's background image with the first three channels
    of the background features resized to the scheduled rendering
    resolution, instead of the segmentation-masked images. *)
Theorem background_features_pair (data : Type) (self : config)
    (inp : inputs data) (b : data) (w w' : world data) :
  accumulate_gradients self inp w = (Ok tt, w') ->
  phase_in (collapse_phase self (phase inp)) ["Gmain"; "Gboth"]%string = true ->
  real_feature_recon_bg inp = Some b ->
  exists r rp a terms adv rest common_lpips common_l1,
    resolution_schedule self (cur_nimg inp) = Ok (r, rp) /\
    log w' = log w ++ CallSynthesis a :: rest /\
    hd_error (backward_losses rest) = Some (Gmain_total self inp terms adv) /\
    loss_recon_lpips terms
    = TBin Add common_lpips
        (TBin Lpips (TSynth a "rgb_bg")
                    (TUn (Chan 0 3) (TResize (TIn b) r))) /\
    loss_recon_l1 terms
    = TBin Add common_l1
        (abs_mean (TBin Sub (TSynth a "rgb_bg")
                            (TUn (Chan 0 3) (TResize (TIn b) r)))).
Proof.
  intros Hrun Hph Hbg.
  destruct (generator_phase_Ok data self inp w w' Hrun Hph)
    as (res & tg & mt & a & terms & rest & Hpro & Hterms & Hlog).
  destruct (prologue_Ok data _ _ _ _ _ Hpro) as (_ & Hres & _ & _).
  pose proof (recon_losses_supervision data self inp res tg mt a Hpro) as Hsup.
  cbv zeta in Hsup. destruct Hsup as (_ & _ & _ & Hsup).
  destruct (Hsup b terms Hbg Hterms) as [Hlpips Hl1].
  exists (fst res), (snd res), a, terms,
    (if discriminator_active self (cur_nimg inp)
     then Some (adversarial_term
                  (gen_output_of self (flame_of inp) (real_c_recon inp) a)
                  (real_c_compose_recon inp))
     else None).
  eexists. eexists. eexists.
  split; [rewrite Hres; destruct res; reflexivity |].
  split; [exact Hlog |].
  split; [| split; [exact Hlpips | exact Hl1]].
  rewrite backward_losses_app.
  destruct (discriminator_active self (cur_nimg inp)); reflexivity.
Qed.

Lemma background_features_pair_witness :
  exists r rp a terms adv rest common_lpips common_l1,
    resolution_schedule reference_config 0 = Ok (r, rp) /\
    log (snd (accumulate_gradients reference_config
                (sample_inputs_with "Gmain" 0 None None (Some "bg") None)%string
                (sample_world low_low_high)))
    = [] ++ CallSynthesis a :: rest /\
    hd_error (backward_losses rest)
    = Some (Gmain_total reference_config
              (sample_inputs_with "Gmain" 0 None None (Some "bg") None)%string
              terms adv) /\
    loss_recon_lpips terms
    = TBin Add common_lpips
        (TBin Lpips (TSynth a "rgb_bg")
                    (TUn (Chan 0 3) (TResize (TIn "bg"%string) r))) /\
    loss_recon_l1 terms
    = TBin Add common_l1
        (abs_mean (TBin Sub (TSynth a "rgb_bg")
                            (TUn (Chan 0 3) (TResize (TIn "bg"%string) r)))).
Proof.
  apply (background_features_pair string reference_config
           (sample_inputs_with "Gmain" 0 None None (Some "bg") None)%string
           "bg"%string (sample_world low_low_high));
    reflexivity.
Defined.

(** ** Density regularization, continued (lines 366-411) *)

Section Density.

Variable data : Type.

(** After the prologue a ['Greg'] step is the density gate and the block it
    guards. *)
Lemma Greg_step (self : config) (inp : inputs data) (res : Z * Z)
    (tg : targets data) (mt : masked_targets data) (w : world data) :
  collapse_phase self (phase inp) = "Greg"%string ->
  prologue self inp = Ok (res, tg, mt) ->
  accumulate_gradients self inp w
  = bind (lift (density_gate self "Greg"))
         (fun dg => when dg (density_block self inp)) w.
Proof.
  intros Hph Hpro.
  rewrite (step_after_prologue data self inp res tg mt w Hpro), Hph.
  cbn [phase_in existsb String.eqb Ascii.eqb Bool.eqb orb when].
  unfold bind at 1. unfold ret at 1.
  rewrite !lift_bind_run.
  destruct (density_gate self "Greg") as [dg | e]; [| reflexivity].
  unfold bind, D_block.
  cbn [phase_in existsb String.eqb Ascii.eqb Bool.eqb orb when].
  destruct (when dg (density_block self inp) w) as [[[] | e] w1];
    [| reflexivity].
  destruct (discriminator_active self (cur_nimg inp)); reflexivity.
Qed.

End Density.

(** X15.  A ['Greg'] step regularizes only for [reg_type = 'l1'] and a
    positive [density_reg].  With a negative weight, or with any other
    [reg_type], the step (on a super-resolution generator with a defined
    schedule) returns without calling the generator and without
    back-propagating anything. *)
Theorem density_skipped_unless_l1 (data : Type) (self : config)
    (inp : inputs data) (res : Z * Z) (w : world data) :
  collapse_phase self (phase inp) = "Greg"%string ->
  G_has_superresolution self = true ->
  resolution_schedule self (cur_nimg inp) = Ok res ->
  (density_reg_or_0 self <= 0)%Q
  \/ (exists t, reg_type (G_rendering_kwargs self) = Some t /\ t <> "l1"%string) ->
  accumulate_gradients self inp w = (Ok tt, w).
Proof.
  intros Hph Hsr Hres Hoff.
  destruct (prologue_total data self inp res Hsr Hres) as (tg & mt & Hpro).
  rewrite (Greg_step data self inp res tg mt w Hph Hpro).
  rewrite lift_bind_run. unfold density_gate.
  cbn [phase_in existsb String.eqb Ascii.eqb Bool.eqb orb].
  destruct (Qltb 0 (density_reg_or_0 self)) eqn:Hd; [| reflexivity].
  destruct Hoff as [Hneg | (t & Ht & Hne)].
  - apply Qltb_lt in Hd. exfalso. apply (Qlt_not_le _ _ Hd). exact Hneg.
  - rewrite Ht. cbn [kwarg rbind].
    destruct (String.eqb_spec t "l1"); [contradiction | reflexivity].
Qed.

Lemma density_skipped_unless_l1_witness :
  accumulate_gradients
    (sample_config_with
       {| density_reg := Some (1 # 4)%Q;
          reg_type := Some "monotonic-detach"%string;
          density_reg_p_dist := Some (4 # 1000)%Q;
          box_warp := Some 1%Q |} None false false false)
    (sample_inputs "Greg" 0 (Some (1 # 2)%Q) false)
    (sample_world low_low_high)
  = (Ok tt, sample_world low_low_high).
Proof.
  apply (density_skipped_unless_l1 string
           (sample_config_with
              {| density_reg := Some (1 # 4)%Q;
                 reg_type := Some "monotonic-detach"%string;
                 density_reg_p_dist := Some (4 # 1000)%Q;
                 box_warp := Some 1%Q |} None false false false)
           (sample_inputs "Greg" 0 (Some (1 # 2)%Q) false)
           (64, 64)%Z (sample_world low_low_high));
    try reflexivity.
  right. exists "monotonic-detach"%string. split; [reflexivity | discriminate].
Defined.

(** X16.  Rendering options the density regularization reads with
    [kwargs[...]].  In a ['Greg'] step with a positive [density_reg] (on a
    super-resolution generator with a defined schedule) a missing
    ['reg_type'] raises [KeyError] on line 366; with [reg_type = 'l1'], a
    missing ['density_reg_p_dist'], or else a missing ['box_warp'], raises
    [KeyError] on line 369.  In each case the generator has not been called
    and nothing has been back-propagated. *)
Theorem density_missing_key (data : Type) (self : config)
    (inp : inputs data) (res : Z * Z) (w : world data) :
  collapse_phase self (phase inp) = "Greg"%string ->
  G_has_superresolution self = true ->
  resolution_schedule self (cur_nimg inp) = Ok res ->
  (0 < density_reg_or_0 self)%Q ->
  let kw := G_rendering_kwargs self in
  (reg_type kw = None ->
   accumulate_gradients self inp w = (Raise (KeyError "reg_type"), w)) /\
  (reg_type kw = Some "l1"%string ->
   density_reg_p_dist kw = None ->
   accumulate_gradients self inp w = (Raise (KeyError "density_reg_p_dist"), w)) /\
  (reg_type kw = Some "l1"%string ->
   density_reg_p_dist kw <> None ->
   box_warp kw = None ->
   accumulate_gradients self inp w = (Raise (KeyError "box_warp"), w)).
Proof.
  intros Hph Hsr Hres Hpos kw. subst kw.
  destruct (prologue_total data self inp res Hsr Hres) as (tg & mt & Hpro).
  rewrite (Greg_step data self inp res tg mt w Hph Hpro).
  rewrite lift_bind_run. unfold density_gate.
  cbn [phase_in existsb String.eqb Ascii.eqb Bool.eqb orb].
  apply Qltb_lt in Hpos. rewrite Hpos.
  repeat split.
  - intros ->. reflexivity.
  - intros -> Hp. cbn [kwarg rbind String.eqb Ascii.eqb Bool.eqb when].
    unfold density_block. rewrite lift_bind_run, Hp. reflexivity.
  - intros -> Hp Hb. cbn [kwarg rbind String.eqb Ascii.eqb Bool.eqb when].
    unfold density_block.
    destruct (density_reg_p_dist (G_rendering_kwargs self)); [| congruence].
    rewrite lift_bind_run. cbn [kwarg]. rewrite lift_bind_run, Hb. reflexivity.
Qed.

Lemma density_missing_key_witness :
  accumulate_gradients
    (sample_config_with
       {| density_reg := Some (1 # 4)%Q;
          reg_type := Some "l1"%string;
          density_reg_p_dist := Some (4 # 1000)%Q;
          box_warp := None |} None false false false)
    (sample_inputs "Greg" 0 (Some (1 # 2)%Q) false)
    (sample_world low_low_high)
  = (Raise (KeyError "box_warp"), sample_world low_low_high).
Proof.
  apply (density_missing_key string
           (sample_config_with
              {| density_reg := Some (1 # 4)%Q;
                 reg_type := Some "l1"%string;
                 density_reg_p_dist := Some (4 # 1000)%Q;
                 box_warp := None |} None false false false)
           (sample_inputs "Greg" 0 (Some (1 # 2)%Q) false)
           (64, 64)%Z (sample_world low_low_high));
    reflexivity || discriminate.
Defined.

Section DensityBlock.

Variable data : Type.

(** The coordinates of lines 368-371. *)
Lemma density_block_eval (self : config) (inp : inputs data)
    (cnd : conditioning data) (w w1 : world data) (p_dist bw : Q) :
  density_reg_p_dist (G_rendering_kwargs self) = Some p_dist ->
  box_warp (G_rendering_kwargs self) = Some bw ->
  conditioning_of (real_img_app inp) (real_img_mot inp) (motions_app inp)
                  (motions inp) (motion_scale inp) (swapping_prob inp)
                  (half_static inp) w = (Ok cnd, w1) ->
  let initial := TBin Sub (TBin Mul (TRandom "initial_coordinates") (TNum 2))
                          (TNum 1) in
  let perturbed :=
    TBin Add initial
         (TBin Mul (TBin Mul (TUn RandnLike initial) (TNum p_dist)) (TNum bw)) in
  let coordinates := TBin Cat1 initial perturbed in
  let directions := TUn RandnLike coordinates in
  let a := {| sm_imgs_app := imgs_app_conditioning cnd;
              sm_imgs_mot := real_img_mot inp;
              sm_motions_app := motions_app_conditioning cnd;
              sm_motions := motions inp;
              sm_flame := flame_of inp;
              sm_motion_scale := motion_scale_conditioning cnd |} in
  density_block self inp w
  = bind (tv_loss self a coordinates directions)
         (fun TVloss =>
            bind (lift (method_mul TVloss (gain inp)))
                 (fun l => emit (Backward l)))
         (logged w1 [CallSampleMixed a coordinates directions]).
Proof.
  intros Hp Hb Hc. unfold density_block. cbv zeta.
  rewrite lift_bind_run, Hp. cbn [kwarg].
  rewrite lift_bind_run, Hb. cbn [kwarg].
  unfold bind at 1. rewrite Hc. unfold bind at 1. reflexivity.
Qed.

End DensityBlock.

(** X17.  A ['Greg'] step whose [sample_mixed] returns an empty tuple: the
    loop of lines 397-401 leaves [TVloss] at the Python number 0, which has
    no [mul] method, so the step raises [AttributeError] on line 411 after
    the generator's [sample_mixed] has been called and without any backward
    pass. *)
Theorem density_empty_tuple (data : Type) (self : config)
    (inp : inputs data) (res : Z * Z) (p_dist bw : Q) (w : world data) :
  collapse_phase self (phase inp) = "Greg"%string ->
  G_has_superresolution self = true ->
  resolution_schedule self (cur_nimg inp) = Ok res ->
  (0 < density_reg_or_0 self)%Q ->
  reg_type (G_rendering_kwargs self) = Some "l1"%string ->
  density_reg_p_dist (G_rendering_kwargs self) = Some p_dist ->
  box_warp (G_rendering_kwargs self) = Some bw ->
  List.length (real_img_mot inp) = List.length (real_img_app inp) ->
  List.length (motions_app inp) = List.length (real_img_app inp) ->
  List.length (motions inp) = List.length (real_img_app inp) ->
  (half_static inp = true -> swapping_prob inp <> None ->
   Nat.even (List.length (real_img_app inp)) = true) ->
  G_sample_mixed_tuple self = Some 0 ->
  exists a coordinates directions w',
    accumulate_gradients self inp w = (Raise (AttributeError "mul"), w') /\
    log w' = log w ++ [CallSampleMixed a coordinates directions].
Proof.
  intros Hph Hsr Hres Hpos Hreg Hp Hb Hm Hma Hmo Heven Hempty.
  destruct (prologue_total data self inp res Hsr Hres) as (tg & mt & Hpro).
  destruct (conditioning_of_total data _ _ _ _ (motion_scale inp)
              (swapping_prob inp) (half_static inp) w Hm Hma Hmo Heven)
    as (cnd & w1 & Hc & Hlog).
  rewrite (Greg_step data self inp res tg mt w Hph Hpro).
  rewrite lift_bind_run. unfold density_gate.
  cbn [phase_in existsb String.eqb Ascii.eqb Bool.eqb orb].
  apply Qltb_lt in Hpos. rewrite Hpos, Hreg.
  cbn [kwarg rbind String.eqb Ascii.eqb Bool.eqb when].
  rewrite (density_block_eval data self inp cnd w w1 p_dist bw Hp Hb Hc).
  unfold tv_loss. rewrite Hempty. cbn [seq fold_left].
  eexists. eexists. eexists. eexists. split; [reflexivity |].
  cbn [log logged]. rewrite Hlog. reflexivity.
Qed.

Lemma density_empty_tuple_witness :
  exists a coordinates directions w',
    accumulate_gradients
      (sample_config_with (sample_kwargs (1 # 4)) (Some 0) false false false)
      (sample_inputs "Greg" 0 (Some (1 # 2)%Q) false)
      (sample_world low_low_high)
    = (Raise (AttributeError "mul"), w') /\
    log w' = [] ++ [CallSampleMixed a coordinates directions].
Proof.
  apply (density_empty_tuple string
           (sample_config_with (sample_kwargs (1 # 4)) (Some 0) false false false)
           (sample_inputs "Greg" 0 (Some (1 # 2)%Q) false)
           (64, 64)%Z (4 # 1000)%Q 1%Q (sample_world low_low_high));
    reflexivity || discriminate.
Defined.

(** X18.  The density regularization pass, when [sample_mixed] returns one
    dictionary.  A ['Greg'] step with [reg_type = 'l1'] and a positive
    [density_reg] conditions the generator exactly as [run_G] does (same
    swap and half-static rule, on draws of its own), calls [sample_mixed]
    once on the random points followed by their perturbed copies, and
    back-propagates once: the L1 distance between the first and the second
    half of the first 2000 densities, times [density_reg], times the gain.
    The perturbation is a normal sample times [density_reg_p_dist] times
    [box_warp].  The loss reaches the generator and not the
    discriminator. *)
Theorem density_step_trace (data : Type) (self : config)
    (inp : inputs data) (res : Z * Z) (dr p_dist bw : Q) (w : world data) :
  collapse_phase self (phase inp) = "Greg"%string ->
  G_has_superresolution self = true ->
  resolution_schedule self (cur_nimg inp) = Ok res ->
  density_reg (G_rendering_kwargs self) = Some dr ->
  (0 < dr)%Q ->
  reg_type (G_rendering_kwargs self) = Some "l1"%string ->
  density_reg_p_dist (G_rendering_kwargs self) = Some p_dist ->
  box_warp (G_rendering_kwargs self) = Some bw ->
  List.length (real_img_mot inp) = List.length (real_img_app inp) ->
  List.length (motions_app inp) = List.length (real_img_app inp) ->
  List.length (motions inp) = List.length (real_img_app inp) ->
  (half_static inp = true -> swapping_prob inp <> None ->
   Nat.even (List.length (real_img_app inp)) = true) ->
  G_sample_mixed_tuple self = None ->
  exists cnd w1,
    conditioning_of (real_img_app inp) (real_img_mot inp) (motions_app inp)
                    (motions inp) (motion_scale inp) (swapping_prob inp)
                    (half_static inp) w = (Ok cnd, w1) /\
    let initial := TBin Sub (TBin Mul (TRandom "initial_coordinates") (TNum 2))
                            (TNum 1) in
    let perturbed :=
      TBin Add initial
           (TBin Mul (TBin Mul (TUn RandnLike initial) (TNum p_dist)) (TNum bw)) in
    let coordinates := TBin Cat1 initial perturbed in
    let directions := TUn RandnLike coordinates in
    let a := {| sm_imgs_app := imgs_app_conditioning cnd;
                sm_imgs_mot := real_img_mot inp;
                sm_motions_app := motions_app_conditioning cnd;
                sm_motions := motions inp;
                sm_flame := flame_of inp;
                sm_motion_scale := motion_scale_conditioning cnd |} in
    let sigma := TUn (Dim1To 2000)
                     (TSampleMixed a coordinates directions None "sigma") in
    let loss :=
      TBin Mul
        (TBin Mul (TBin L1Loss (TUn Dim1FirstHalf sigma) (TUn Dim1SecondHalf sigma))
                  (TNum dr))
        (TNum (gain inp)) in
    accumulate_gradients self inp w
    = (Ok tt, logged w1 [CallSampleMixed a coordinates directions; Backward loss]) /\
    through_G loss = true /\
    through_D loss = false.
Proof.
  intros Hph Hsr Hres Hdr Hpos Hreg Hp Hb Hm Hma Hmo Heven Hdict.
  destruct (prologue_total data self inp res Hsr Hres) as (tg & mt & Hpro).
  destruct (conditioning_of_total data _ _ _ _ (motion_scale inp)
              (swapping_prob inp) (half_static inp) w Hm Hma Hmo Heven)
    as (cnd & w1 & Hc & Hlog).
  exists cnd, w1. split; [exact Hc |]. cbv zeta.
  rewrite (Greg_step data self inp res tg mt w Hph Hpro).
  rewrite lift_bind_run. unfold density_gate, density_reg_or_0.
  cbn [phase_in existsb String.eqb Ascii.eqb Bool.eqb orb].
  apply Qltb_lt in Hpos. rewrite Hdr, Hpos, Hreg.
  cbn [kwarg rbind String.eqb Ascii.eqb Bool.eqb when].
  rewrite (density_block_eval data self inp cnd w w1 p_dist bw Hp Hb Hc).
  unfold tv_loss. rewrite Hdict, Hdr.
  split; [| split; reflexivity].
  unfold bind, lift, ret, emit, method_mul, kwarg, logged.
  cbn [is_pynum tv_term andb log rand_stream rand_pos fst snd].
  rewrite <- app_assoc. reflexivity.
Qed.

Lemma density_step_trace_witness :
  exists cnd w1,
    conditioning_of ["app0"; "app1"]%string ["mot0"; "mot1"]%string
                    ["emb_app0"; "emb_app1"]%string
                    ["emb_mot0"; "emb_mot1"]%string 1 (Some (1 # 2)%Q) false
                    (sample_world low_low_high) = (Ok cnd, w1) /\
    imgs_app_conditioning cnd = ["mot0"; "mot1"]%string /\
    List.length
      (log (snd (accumulate_gradients
                   (sample_config_with (sample_kwargs (1 # 4)) None
                                       false false false)
                   (sample_inputs "Greg" 0 (Some (1 # 2)%Q) false)
                   (sample_world low_low_high)))) = 2.
Proof.
  destruct (density_step_trace string
              (sample_config_with (sample_kwargs (1 # 4)) None false false false)
              (sample_inputs "Greg" 0 (Some (1 # 2)%Q) false)
              (64, 64)%Z (1 # 4)%Q (4 # 1000)%Q 1%Q (sample_world low_low_high)
              eq_refl eq_refl eq_refl eq_refl eq_refl eq_refl eq_refl eq_refl
              eq_refl eq_refl eq_refl (fun _ _ => eq_refl) eq_refl)
    as (cnd & w1 & Hc & Hrun & _).
  exists cnd, w1. split; [exact Hc |].
  cbv zeta in Hrun. rewrite Hrun.
  cbn in Hc. injection Hc as <- <-. split; reflexivity.
Defined.

(** ** The discriminator phases, continued (lines 414-493) *)

Section DiscriminatorPhases.

Variable data : Type.

Lemma prologue_real_images (self : config) (inp : inputs data) (res : Z * Z)
    (tg : targets data) (mt : masked_targets data) :
  prologue self inp = Ok (res, tg, mt) ->
  v_real_img tg = real_images_of inp (fst res).
Proof.
  intro Hpro.
  destruct (prologue_Ok data _ _ _ _ _ Hpro) as (Hsr & _ & Htg & _).
  unfold real_targets in Htg. rewrite Hsr in Htg.
  cbn [blur_targets blur_raw_target andb Qltb Qle_bool Qnum Qden Z.mul
       Z.leb Z.compare negb] in Htg.
  injection Htg as <-. unfold real_images_of.
  destruct (real_seg_recon_render inp); reflexivity.
Qed.

(** The generated-image pass of lines 416-427, once the conditioning is
    known. *)
Lemma Dgen_block_Ok (self : config) (inp : inputs data) (res resp : Z)
    (cnd : conditioning data) (w w1 : world data) :
  conditioning_of (real_img_app inp) (real_img_mot inp) (motions_app inp)
                  (motions inp) (motion_scale inp) (swapping_prob inp)
                  (half_static inp) w = (Ok cnd, w1) ->
  let a := {| sa_imgs_app := imgs_app_conditioning cnd;
              sa_imgs_mot := real_img_mot inp;
              sa_motions_app := motions_app_conditioning cnd;
              sa_motions := motions inp;
              sa_c := real_c_recon inp;
              sa_deformer := flame_of inp;
              sa_neural_rendering_resolution := res;
              sa_motion_scale := motion_scale_conditioning cnd |} in
  let gen_img := gen_output_of self (flame_of inp) (real_c_recon inp) a in
  let c := real_c_compose_recon inp in
  Dgen_block self inp (step_hyperparams self (cur_nimg inp)) res resp w
  = (Ok tt,
     logged w1
       [CallSynthesis a; CallD gen_img c true;
        Backward (TBin Mul (TUn Mean (TUn Softplus (TDisc gen_img c true)))
                           (TNum (gain inp)))]).
Proof.
  intros Hc a gen_img c.
  unfold Dgen_block. unfold bind at 1.
  rewrite (run_G_of_conditioning data _ _ _ _ self (flame_of inp) (real_c_recon inp)
             res resp _ _ _ _ _ _ Hc).
  fold a. fold gen_img.
  unfold bind, run_D, lift, ret, emit, method_mean, method_mul, logged.
  cbn. rewrite <- !app_assoc. reflexivity.
Qed.

(** The real-image pass of lines 431-493, by what the R1 term does. *)
Lemma Dreal_block_eval (self : config) (inp : inputs data) (ph : string)
    (r : Z) (tg : targets data) (w : world data) :
  v_real_img tg = real_images_of inp r ->
  phase_in ph ["Dmain"; "Dreg"; "Dboth"]%string = true ->
  let reg := phase_in ph ["Dreg"; "Dboth"]%string in
  let real_img_tmp := real_leaves_of inp r reg in
  let c := real_c_compose_recon inp in
  let real_logits := TDisc real_img_tmp c false in
  let sp := step_hyperparams self (cur_nimg inp) in
  Dreal_block self inp sp ph tg w
  = match (if reg then r1_loss self sp real_logits real_img_tmp
           else Ok (TNum 0)) with
    | Ok loss_Dr1 =>
        if reg && negb (phase_in ph ["Dmain"; "Dboth"]%string)
           && is_pynum loss_Dr1
        then (Raise (AttributeError "mean"),
              logged w [CallD real_img_tmp c false])
        else
          (Ok tt,
           logged w
             [CallD real_img_tmp c false;
              Backward
                (TBin Mul
                   (TUn Mean
                      (TBin Add
                         (if phase_in ph ["Dmain"; "Dboth"]%string
                          then TUn Softplus (TUn Neg real_logits)
                          else TNum 0)
                         loss_Dr1))
                   (TNum (gain inp)))])
    | Raise e => (Raise e, logged w [CallD real_img_tmp c false])
    end.
Proof.
  intros Himg Hph reg real_img_tmp c real_logits sp.
  subst reg real_img_tmp c real_logits sp.
  unfold Dreal_block, bind, lift. rewrite Himg.
  unfold real_images_of, real_leaves_of.
  cbn [dict_get dict_lookup String.eqb Ascii.eqb Bool.eqb].
  unfold run_D, bind, lift, ret, emit, method_mean, method_mul, logged.
  cbn [sp_blur_sigma step_hyperparams]. rewrite blur_half_width_0.
  cbn [fst snd log Z.ltb Z.compare rand_stream rand_pos].
  assert (Hcases : phase_in ph ["Dreg"; "Dboth"]%string = true
                   \/ phase_in ph ["Dmain"; "Dboth"]%string = true).
  { unfold phase_in in *. cbn [existsb] in *.
    destruct (String.eqb ph "Dmain"), (String.eqb ph "Dreg"),
      (String.eqb ph "Dboth"); cbn in *; auto. }
  destruct (phase_in ph ["Dreg"; "Dboth"]%string).
  - match goal with
    | |- context [r1_loss ?s ?p ?l ?d] => destruct (r1_loss s p l d) as [r1 | e]
    end; [| reflexivity].
    destruct (phase_in ph ["Dmain"; "Dboth"]%string); cbn [is_pynum andb negb].
    + cbn. rewrite <- !app_assoc. reflexivity.
    + destruct (is_pynum r1); cbn; [reflexivity |].
      rewrite <- !app_assoc. reflexivity.
  - destruct Hcases as [Habs | Hmain]; [discriminate Habs |].
    rewrite Hmain. cbn. rewrite <- !app_assoc. reflexivity.
Qed.

(** After the prologue a discriminator phase is the discriminator block
    behind its gate. *)
Lemma D_step (self : config) (inp : inputs data) (res : Z * Z)
    (tg : targets data) (mt : masked_targets data) (w : world data) :
  phase_in (collapse_phase self (phase inp)) ["Dmain"; "Dreg"; "Dboth"]%string
  = true ->
  prologue self inp = Ok (res, tg, mt) ->
  accumulate_gradients self inp w
  = when (discriminator_active self (cur_nimg inp))
         (D_block self inp (step_hyperparams self (cur_nimg inp))
                  (collapse_phase self (phase inp)) (fst res) (snd res) tg) w.
Proof.
  intros Hph Hpro.
  rewrite (step_after_prologue data self inp res tg mt w Hpro).
  revert Hph. generalize (collapse_phase self (phase inp)). intros ph Hph.
  assert (HG : phase_in ph ["Gmain"; "Gboth"]%string = false
               /\ phase_in ph ["Greg"; "Gboth"]%string = false).
  { unfold phase_in in *. cbn [existsb] in *.
    destruct (String.eqb_spec ph "Dmain") as [E | _];
      [rewrite E; split; reflexivity |].
    destruct (String.eqb_spec ph "Dreg") as [E | _];
      [rewrite E; split; reflexivity |].
    destruct (String.eqb_spec ph "Dboth") as [E | _];
      [rewrite E; split; reflexivity |].
    discriminate Hph. }
  destruct HG as [HG Hreg]. rewrite HG.
  unfold density_gate. rewrite Hreg. reflexivity.
Qed.

(** The R1 term in dual-discrimination mode (lines 454-477 and 488). *)
Lemma r1_loss_dual (self : config) (inp : inputs data) (r : Z) :
  dual_discrimination self = true ->
  G_has_superresolution self = true ->
  let sp := step_hyperparams self (cur_nimg inp) in
  let real_img_tmp := real_leaves_of inp r true in
  let real_logits := TDisc real_img_tmp (real_c_compose_recon inp) false in
  let grad k :=
    match dict_lookup real_img_tmp k with
    | Some x => TGrad (TUn Sum real_logits) x
    | None => TNum 0
    end in
  let zeros := TUn ZerosLike in
  let grads_uv :=
    if D_has_uv self then grad "uv"%string
    else if D_has_seg self then zeros (grad "seg"%string)
         else zeros (grad "image_sr"%string) in
  let grads_seg :=
    if D_has_seg self then grad "seg"%string
    else if D_has_uv self then zeros (grad "uv"%string)
         else zeros (grad "image_sr"%string) in
  r1_loss self sp real_logits real_img_tmp
  = Ok (TBin Add
          (TBin Add
             (TBin Mul (TBin Add (sumsq (grad "image_sr"%string))
                                 (sumsq (grad "image"%string)))
                       (TNum (r1_gamma self / 2)))
             (TBin Mul (sumsq grads_uv) (TNum (r1_gamma_uv self / 2))))
          (TBin Mul (sumsq grads_seg) (TNum (r1_gamma_seg self / 2)))).
Proof.
  intros Hdual Hsr. cbv zeta.
  unfold r1_loss, r1_penalties, dual_r1_grads, r1_combine.
  rewrite Hdual, Hsr.
  destruct (D_has_uv self), (D_has_seg self); reflexivity.
Qed.

End DiscriminatorPhases.

(** X19.  R1 regularization in dual-discrimination mode.  A ['Dreg'] step
    with an active discriminator (on a super-resolution generator with a
    defined schedule) calls the discriminator once, on the detached real
    images with gradients enabled, and back-propagates once:
    [(0 + image_penalty * (r1_gamma / 2) + uv_penalty * (r1_gamma_uv / 2)
      + seg_penalty * (r1_gamma_seg / 2)).mean() * gain].  The image penalty
    sums the squared gradients with respect to the super-resolved and the
    raw image; the UV and the segmentation penalty are the squared
    gradients with respect to that channel when the discriminator has it,
    and squared zeros otherwise. *)
Theorem dual_r1_regularization (data : Type) (self : config)
    (inp : inputs data) (res : Z * Z) (w : world data) :
  collapse_phase self (phase inp) = "Dreg"%string ->
  G_has_superresolution self = true ->
  resolution_schedule self (cur_nimg inp) = Ok res ->
  discriminator_active self (cur_nimg inp) = true ->
  dual_discrimination self = true ->
  let real_img_tmp := real_leaves_of inp (fst res) true in
  let c := real_c_compose_recon inp in
  let real_logits := TDisc real_img_tmp c false in
  let grad k :=
    match dict_lookup real_img_tmp k with
    | Some x => TGrad (TUn Sum real_logits) x
    | None => TNum 0
    end in
  let zeros := TUn ZerosLike in
  let image_penalty :=
    TBin Add (sumsq (grad "image_sr"%string)) (sumsq (grad "image"%string)) in
  let uv_penalty :=
    sumsq (if D_has_uv self then grad "uv"%string
           else if D_has_seg self then zeros (grad "seg"%string)
                else zeros (grad "image_sr"%string)) in
  let seg_penalty :=
    sumsq (if D_has_seg self then grad "seg"%string
           else if D_has_uv self then zeros (grad "uv"%string)
                else zeros (grad "image_sr"%string)) in
  let loss_Dr1 :=
    TBin Add
      (TBin Add (TBin Mul image_penalty (TNum (r1_gamma self / 2)))
                (TBin Mul uv_penalty (TNum (r1_gamma_uv self / 2))))
      (TBin Mul seg_penalty (TNum (r1_gamma_seg self / 2))) in
  accumulate_gradients self inp w
  = (Ok tt,
     logged w
       [CallD real_img_tmp c false;
        Backward (TBin Mul (TUn Mean (TBin Add (TNum 0) loss_Dr1))
                           (TNum (gain inp)))]).
Proof.
  intros Hph Hsr Hres Hact Hdual. cbv zeta.
  destruct (prologue_total data self inp res Hsr Hres) as (tg & mt & Hpro).
  rewrite (D_step data self inp res tg mt w); [| rewrite Hph; reflexivity | exact Hpro].
  rewrite Hact, Hph. unfold when, D_block.
  cbn [phase_in existsb String.eqb Ascii.eqb Bool.eqb orb when].
  unfold bind at 1. unfold ret at 1.
  pose proof (Dreal_block_eval data self inp "Dreg" (fst res) tg w
                (prologue_real_images data self inp res tg mt Hpro) eq_refl)
    as Heval.
  cbv zeta in Heval.
  cbn [phase_in existsb String.eqb Ascii.eqb Bool.eqb orb andb negb] in Heval.
  rewrite Heval. clear Heval.
  pose proof (r1_loss_dual data self inp (fst res) Hdual Hsr) as Hr1.
  cbv zeta in Hr1. rewrite Hr1.
  destruct (D_has_uv self), (D_has_seg self); reflexivity.
Qed.

Lemma dual_r1_regularization_witness :
  exists l,
    accumulate_gradients
      (sample_config_with (sample_kwargs 0) None true false false)
      (sample_inputs "Dreg" 2000000 (Some (1 # 2)%Q) false)
      (sample_world low_low_high)
    = (Ok tt,
       logged (sample_world low_low_high)
         [CallD (real_leaves_of
                   (sample_inputs "Dreg" 2000000 (Some (1 # 2)%Q) false) 64 true)
                "real_c_compose_recon"%string false;
          Backward l]).
Proof.
  eexists.
  apply (dual_r1_regularization string
           (sample_config_with (sample_kwargs 0) None true false false)
           (sample_inputs "Dreg" 2000000 (Some (1 # 2)%Q) false)
           (64, 64)%Z (sample_world low_low_high));
    reflexivity.
Defined.

(** X20.  A ['Dmain'] step with an active discriminator (super-resolution
    generator, defined schedule, batches of one size) is two passes.  The
    first runs the generator, then the discriminator (with [update_emas])
    on the generated images, which are not detached, and back-propagates
    [softplus(logits).mean() * gain]: that loss reaches both networks.  The
    second runs the discriminator on the detached real images, with
    gradients with respect to them switched off, and back-propagates
    [(softplus(-logits) + 0).mean() * gain]: that loss reaches the
    discriminator only. *)
Theorem Dmain_step_trace (data : Type) (self : config) (inp : inputs data)
    (res : Z * Z) (w : world data) :
  collapse_phase self (phase inp) = "Dmain"%string ->
  G_has_superresolution self = true ->
  resolution_schedule self (cur_nimg inp) = Ok res ->
  discriminator_active self (cur_nimg inp) = true ->
  List.length (real_img_mot inp) = List.length (real_img_app inp) ->
  List.length (motions_app inp) = List.length (real_img_app inp) ->
  List.length (motions inp) = List.length (real_img_app inp) ->
  (half_static inp = true -> swapping_prob inp <> None ->
   Nat.even (List.length (real_img_app inp)) = true) ->
  exists a w1,
    let gen_img := gen_output_of self (flame_of inp) (real_c_recon inp) a in
    let c := real_c_compose_recon inp in
    let real_img_tmp := real_leaves_of inp (fst res) false in
    let loss_gen :=
      TBin Mul (TUn Mean (TUn Softplus (TDisc gen_img c true)))
               (TNum (gain inp)) in
    let loss_real :=
      TBin Mul
        (TUn Mean (TBin Add (TUn Softplus (TUn Neg (TDisc real_img_tmp c false)))
                            (TNum 0)))
        (TNum (gain inp)) in
    accumulate_gradients self inp w
    = (Ok tt,
       logged w1 [CallSynthesis a; CallD gen_img c true; Backward loss_gen;
                  CallD real_img_tmp c false; Backward loss_real]) /\
    log w1 = log w /\
    sa_neural_rendering_resolution a = fst res /\
    through_G loss_gen = true /\ through_D loss_gen = true /\
    through_G loss_real = false /\ through_D loss_real = true.
Proof.
  intros Hph Hsr Hres Hact Hm Hma Hmo Heven.
  destruct (prologue_total data self inp res Hsr Hres) as (tg & mt & Hpro).
  destruct (conditioning_of_total data _ _ _ _ (motion_scale inp)
              (swapping_prob inp) (half_static inp) w Hm Hma Hmo Heven)
    as (cnd & w1 & Hc & Hlog).
  eexists. exists w1. cbv zeta.
  rewrite (D_step data self inp res tg mt w); [| rewrite Hph; reflexivity | exact Hpro].
  rewrite Hact, Hph. unfold when, D_block.
  cbn [phase_in existsb String.eqb Ascii.eqb Bool.eqb orb when].
  unfold bind at 1.
  pose proof (Dgen_block_Ok data self inp (fst res) (snd res) cnd w w1 Hc) as Hgen.
  cbv zeta in Hgen. rewrite Hgen. clear Hgen.
  match goal with
  | |- context [Dreal_block _ _ _ _ _ ?w2] =>
      pose proof (Dreal_block_eval data self inp "Dmain" (fst res) tg w2
                    (prologue_real_images data self inp res tg mt Hpro) eq_refl)
        as Heval
  end.
  cbv zeta in Heval.
  cbn [phase_in existsb String.eqb Ascii.eqb Bool.eqb orb andb negb] in Heval.
  rewrite Heval. clear Heval.
  split.
  { unfold logged. cbn [log rand_stream rand_pos].
    rewrite <- !app_assoc. reflexivity. }
  split; [exact Hlog |].
  repeat split.
Qed.

Lemma Dmain_step_trace_witness :
  List.length
    (backward_losses
       (log (snd (accumulate_gradients reference_config
                    (sample_inputs "Dmain" 2000000 (Some (1 # 2)%Q) false)
                    (sample_world low_low_high))))) = 2.
Proof.
  destruct (Dmain_step_trace string reference_config
              (sample_inputs "Dmain" 2000000 (Some (1 # 2)%Q) false)
              (64, 64)%Z (sample_world low_low_high)
              eq_refl eq_refl eq_refl eq_refl eq_refl eq_refl eq_refl
              (fun _ _ => eq_refl))
    as (a & w1 & Hrun & Hlog & _).
  cbv zeta in Hrun. rewrite Hrun. cbn [snd log logged].
  rewrite Hlog. reflexivity.
Defined.

Section SinglePartial.

Variable data : Type.

(** The R1 term in single-discrimination mode stops at line 488. *)
Lemma r1_loss_single (self : config) (inp : inputs data) (r : Z) :
  dual_discrimination self = false ->
  r1_loss self (step_hyperparams self (cur_nimg inp))
          (TDisc (real_leaves_of inp r true) (real_c_compose_recon inp) false)
          (real_leaves_of inp r true)
  = Raise (UnboundLocalError "r1_penalty_seg").
Proof.
  intro Hdual. unfold r1_loss, r1_penalties, r1_combine. rewrite Hdual.
  destruct (G_has_superresolution self); reflexivity.
Qed.

End SinglePartial.

(** X21.  What a failing ['Dboth'] step leaves behind.  In
    single-discrimination mode, with an active discriminator
    (super-resolution generator, defined schedule, batches of one size), a
    ['Dboth'] step raises on the unbound [r1_penalty_seg] only after the
    generated-image pass has been back-propagated and the discriminator has
    been run on the real images: one backward pass has been accumulated when
    the exception leaves [accumulate_gradients]. *)
Theorem single_discrimination_Dboth_partial (data : Type) (self : config)
    (inp : inputs data) (res : Z * Z) (w : world data) :
  collapse_phase self (phase inp) = "Dboth"%string ->
  G_has_superresolution self = true ->
  resolution_schedule self (cur_nimg inp) = Ok res ->
  discriminator_active self (cur_nimg inp) = true ->
  List.length (real_img_mot inp) = List.length (real_img_app inp) ->
  List.length (motions_app inp) = List.length (real_img_app inp) ->
  List.length (motions inp) = List.length (real_img_app inp) ->
  (half_static inp = true -> swapping_prob inp <> None ->
   Nat.even (List.length (real_img_app inp)) = true) ->
  dual_discrimination self = false ->
  exists a w1,
    let gen_img := gen_output_of self (flame_of inp) (real_c_recon inp) a in
    let c := real_c_compose_recon inp in
    accumulate_gradients self inp w
    = (Raise (UnboundLocalError "r1_penalty_seg"),
       logged w1
         [CallSynthesis a; CallD gen_img c true;
          Backward (TBin Mul (TUn Mean (TUn Softplus (TDisc gen_img c true)))
                             (TNum (gain inp)));
          CallD (real_leaves_of inp (fst res) true) c false]) /\
    log w1 = log w.
Proof.
  intros Hph Hsr Hres Hact Hm Hma Hmo Heven Hdual.
  destruct (prologue_total data self inp res Hsr Hres) as (tg & mt & Hpro).
  destruct (conditioning_of_total data _ _ _ _ (motion_scale inp)
              (swapping_prob inp) (half_static inp) w Hm Hma Hmo Heven)
    as (cnd & w1 & Hc & Hlog).
  eexists. exists w1. cbv zeta.
  rewrite (D_step data self inp res tg mt w); [| rewrite Hph; reflexivity | exact Hpro].
  rewrite Hact, Hph. unfold when, D_block.
  cbn [phase_in existsb String.eqb Ascii.eqb Bool.eqb orb when].
  unfold bind at 1.
  pose proof (Dgen_block_Ok data self inp (fst res) (snd res) cnd w w1 Hc) as Hgen.
  cbv zeta in Hgen. rewrite Hgen. clear Hgen.
  match goal with
  | |- context [Dreal_block _ _ _ _ _ ?w2] =>
      pose proof (Dreal_block_eval data self inp "Dboth" (fst res) tg w2
                    (prologue_real_images data self inp res tg mt Hpro) eq_refl)
        as Heval
  end.
  cbv zeta in Heval.
  cbn [phase_in existsb String.eqb Ascii.eqb Bool.eqb orb andb negb] in Heval.
  rewrite Heval. clear Heval.
  rewrite (r1_loss_single data self inp (fst res) Hdual).
  split; [| exact Hlog].
  unfold logged. cbn [log rand_stream rand_pos].
  rewrite <- !app_assoc. reflexivity.
Qed.

Lemma single_discrimination_Dboth_partial_witness :
  fst (accumulate_gradients reference_config
         (sample_inputs "Dboth" 2000000 (Some (1 # 2)%Q) false)
         (sample_world low_low_high))
  = Raise (UnboundLocalError "r1_penalty_seg").
Proof.
  destruct (single_discrimination_Dboth_partial string reference_config
              (sample_inputs "Dboth" 2000000 (Some (1 # 2)%Q) false)
              (64, 64)%Z (sample_world low_low_high)
              eq_refl eq_refl eq_refl eq_refl eq_refl eq_refl eq_refl
              (fun _ _ => eq_refl) eq_refl)
    as (a & w1 & Hrun & _).
  cbv zeta in Hrun. rewrite Hrun. reflexivity.
Defined.

Section CallCounts.

Variable data : Type.







End CallCounts.



(** ** [gen_data_by_G_syn] (lines 99-162) *)

Section GenDataFacts.

Variable data : Type.

Lemma cat_rows_Ok (A B C : Type) (f : A -> B -> C) (a : list A) (b : list B)
    (l : list C) :
  cat_rows f a b = Ok l ->
  List.length a = List.length b /\
  l = map (fun ab => f (fst ab) (snd ab)) (combine a b).
Proof.
  unfold cat_rows. destruct (Nat.eqb_spec (List.length a) (List.length b)).
  - intro H. injection H as <-. split; [assumption | reflexivity].
  - discriminate.
Qed.

Lemma look_at_rows_length (n : nat) (u1 u2 u3 u4 u5 u6 u7 : list Q) :
  List.length (look_at_rows n u1 u2 u3 u4 u5 u6 u7) = n.
Proof. unfold look_at_rows. rewrite length_map, length_seq. reflexivity. Qed.

Ltac realign :=
  match goal with
  | E : forall a b, a = b -> map _ (seq a ?n) = map _ (seq b ?n),
    w : world _ |- _ =>
      rewrite (E (rand_pos w + 0 * n) (rand_pos w)) by lia;
      rewrite (E (rand_pos w + 1 * n) (rand_pos w + n)) by lia;
      rewrite (E (rand_pos w + 2 * n) (rand_pos w + n + n)) by lia;
      rewrite (E (rand_pos w + 3 * n) (rand_pos w + n + n + n)) by lia;
      rewrite (E (rand_pos w + 4 * n) (rand_pos w + n + n + n + n)) by lia;
      rewrite (E (rand_pos w + 5 * n) (rand_pos w + n + n + n + n + n)) by lia;
      rewrite (E (rand_pos w + 6 * n) (rand_pos w + n + n + n + n + n + n)) by lia;
      rewrite ?(E (rand_pos w + 7 * n) (rand_pos w + n + n + n + n + n + n + n))
        by lia;
      reflexivity
  end.

(** What a call that returns has computed. *)
Lemma gen_data_inv (flame_condition : bool)
    (z shape_params exp_params pose_params eye_pose_params c : list (list data))
    (w w' : world data) (out : gen_data data) :
  gen_data_by_G_syn flame_condition z shape_params exp_params pose_params
                    eye_pose_params c w = (Ok out, w') ->
  let n := List.length (flatten_views shape_params) in
  let rows := flatten_views c in
  let u k := draws (advance w (k * n)) n in
  let sampled := look_at_rows n (u 0) (u 1) (u 2) (u 3) (u 4) (u 5) (u 6) in
  List.length rows = n /\
  gd_look_at out = sampled /\
  gd_c_syn out
  = select (swapped (advance w (7 * n)) n (1 # 2))
           (map (fun ab => CamCat (PoseLookAt (fst ab)) (snd ab))
                (combine sampled rows))
           (map (@CamIn data) rows) /\
  (if flame_condition
   then cat_rows (fun x s => (x, Some s)) (first_view_thrice c)
                 (flatten_views shape_params) = Ok (gd_c_cond out)
   else gd_c_cond out = map (fun x => (x, None)) (first_view_thrice c)) /\
  gd_z out = flatten_views z /\
  log w' = log w /\
  rand_stream w' = rand_stream w /\
  rand_pos w' = rand_pos w + 9 * n.
Proof.
  intros Hrun n rows u sampled.
  unfold gen_data_by_G_syn in Hrun.
  fold n in Hrun. fold rows in Hrun.
  unfold bind, torch_rand, lift in Hrun.
  cbn [fst snd rand_pos rand_stream log] in Hrun.
  match type of Hrun with
  | context [cat_rows ?f ?a ?b] =>
      destruct (cat_rows f a b) as [c_syn0 |] eqn:Hcat; [| discriminate Hrun]
  end.
  apply cat_rows_Ok in Hcat. destruct Hcat as [Hlen ->].
  rewrite look_at_rows_length in Hlen.
  assert (Hrows : List.length rows = n) by (symmetry; exact Hlen).
  rewrite Hrows in Hrun.
  match type of Hrun with
  | context [torch_where ?cnd ?a ?b] =>
      rewrite (torch_where_same _ cnd a b) in Hrun
  end.
  2: { rewrite !length_map, length_seq, length_combine, look_at_rows_length.
       rewrite Hrows. apply Nat.min_id. }
  2: { rewrite !length_map, length_seq. exact Hrows. }
  match type of Hrun with
  | context [cat_rows ?f ?a ?b] =>
      destruct (cat_rows f a b) as [c_cond_syn0 |] eqn:Hcat2;
        [| discriminate Hrun]
  end.
  match type of Hrun with
  | context [torch_where ?cnd ?a ?b] =>
      destruct (torch_where cnd a b) as [c_cond_syn |]; [| discriminate Hrun]
  end.
  assert (E : forall a b,
             a = b ->
             map (rand_stream w) (seq a n) = map (rand_stream w) (seq b n))
    by (intros a b Hab; rewrite Hab; reflexivity).
  split; [exact Hrows |].
  destruct flame_condition.
  - match type of Hrun with
    | context [cat_rows ?f ?a ?b] =>
        destruct (cat_rows f a b) as [cc |] eqn:Hcc; [| discriminate Hrun]
    end.
    unfold ret in Hrun. injection Hrun as <- <-.
    cbn [gd_look_at gd_c_syn gd_c_cond gd_z log rand_stream rand_pos].
    repeat split; try reflexivity.
    + unfold sampled, u, draws, advance. cbn [rand_pos rand_stream].
      realign.
    + unfold swapped, sampled, u, draws, advance. cbn [rand_pos rand_stream].
      realign.
    + lia.
  - unfold ret in Hrun. injection Hrun as <- <-.
    cbn [gd_look_at gd_c_syn gd_c_cond gd_z log rand_stream rand_pos].
    repeat split; try reflexivity.
    + unfold sampled, u, draws, advance. cbn [rand_pos rand_stream].
      realign.
    + unfold swapped, sampled, u, draws, advance. cbn [rand_pos rand_stream].
      realign.
    + lia.
Qed.

End GenDataFacts.

Section GenDataProperties.

Variable data : Type.

Lemma unit_nth (w : world data) (a n i : nat) :
  unit_draws w ->
  (0 <= nth i (map (rand_stream w) (seq a n)) 0 < 1)%Q.
Proof.
  intro Hu. destruct (Nat.lt_ge_cases i n) as [Hlt | Hge].
  - rewrite (nth_indep _ 0%Q (rand_stream w 0))
      by (rewrite length_map, length_seq; exact Hlt).
    rewrite map_nth. apply Hu.
  - rewrite nth_overflow by (rewrite length_map, length_seq; exact Hge).
    split; [apply Qle_refl | reflexivity].
Qed.

Lemma nth_error_combine (A B : Type) (a : list A) (b : list B) (i : nat)
    (x : A) (y : B) :
  nth_error a i = Some x -> nth_error b i = Some y ->
  nth_error (combine a b) i = Some (x, y).
Proof.
  revert b i. induction a as [| a0 a IH]; intros [| b0 b] [| i]; cbn;
    try discriminate.
  - intros [= ->] [= ->]. reflexivity.
  - apply IH.
Qed.

Lemma map_fst_combine (A B : Type) (a : list A) (b : list B) :
  List.length a = List.length b -> map fst (combine a b) = a.
Proof.
  revert b. induction a as [| a0 a IH]; intros [| b0 b]; cbn;
    try discriminate; [reflexivity |].
  intros [= H]. rewrite IH by exact H. reflexivity.
Qed.

Lemma map_snd_combine (A B : Type) (a : list A) (b : list B) :
  List.length a = List.length b -> map snd (combine a b) = b.
Proof.
  revert b. induction a as [| a0 a IH]; intros [| b0 b]; cbn;
    try discriminate; [reflexivity |].
  intros [= H]. rewrite IH by exact H. reflexivity.
Qed.

End GenDataProperties.

(** X24.  The support of the random camera of [gen_data_by_G_syn].  In a
    call that returns, every row passed to the pose sampler has its
    horizontal mean within 0.78 of [pi/2], its vertical mean between
    [pi/2 - 0.65] and [pi/2 + 0.25], a roll mean within 0.25 of zero, a
    look-at point within 0.03 of the origin in x and y and between 0.06 and
    0.12 in z, and a camera radius between 3.65 and 4.45 (upper ends
    excluded). *)
Theorem gen_data_pose_ranges (data : Type) (flame_condition : bool)
    (z shape_params exp_params pose_params eye_pose_params c : list (list data))
    (w w' : world data) (out : gen_data data) :
  unit_draws w ->
  gen_data_by_G_syn flame_condition z shape_params exp_params pose_params
                    eye_pose_params c w = (Ok out, w') ->
  Forall (fun a =>
            (- (78 # 100) <= la_horizontal a < 78 # 100)%Q /\
            (- (25 # 100) <= la_vertical a < 65 # 100)%Q /\
            (- (25 # 100) <= la_roll a < 25 # 100)%Q /\
            (- (3 # 100) <= fst (fst (la_pivot a)) < 3 # 100)%Q /\
            (- (3 # 100) <= snd (fst (la_pivot a)) < 3 # 100)%Q /\
            (6 # 100 <= snd (la_pivot a) < 12 # 100)%Q /\
            (365 # 100 <= la_radius a < 445 # 100)%Q)
         (gd_look_at out).
Proof.
  intros Hu Hrun.
  pose proof (gen_data_inv data _ _ _ _ _ _ _ _ _ _ Hrun) as Hinv.
  cbv zeta in Hinv. destruct Hinv as (_ & -> & _).
  unfold look_at_rows. apply Forall_map, Forall_forall. intros i _.
  unfold draws, advance. cbn [rand_pos rand_stream la_horizontal la_vertical
                              la_roll la_pivot la_radius fst snd].
  repeat match goal with
         | |- context [nth i (map (rand_stream w) (seq ?a ?n)) 0%Q] =>
             let H := fresh "H" in
             pose proof (unit_nth data w a n i Hu) as H;
             generalize dependent (nth i (map (rand_stream w) (seq a n)) 0%Q);
             intros
         end.
  repeat split; lra.
Qed.

Lemma gen_data_pose_ranges_witness :
  exists out w',
    gen_data_by_G_syn false (sample_views "z" 3) (sample_views "shape" 3)
                      (sample_views "exp" 3) (sample_views "pose" 3)
                      (sample_views "eye" 3) (sample_views "c" 3)
                      (sample_world low_low_high) = (Ok out, w') /\
    Forall (fun a => (365 # 100 <= la_radius a < 445 # 100)%Q) (gd_look_at out).
Proof.
  destruct (gen_data_by_G_syn false (sample_views "z" 3) (sample_views "shape" 3)
              (sample_views "exp" 3) (sample_views "pose" 3)
              (sample_views "eye" 3) (sample_views "c" 3)
              (sample_world low_low_high)) as [[out | e] w'] eqn:Hrun;
    [| vm_compute in Hrun; discriminate Hrun].
  exists out, w'. split; [reflexivity |].
  eapply Forall_impl;
    [| exact (gen_data_pose_ranges string false _ _ _ _ _ _ _ _ _
                low_low_high_unit Hrun)].
  intros a H. apply H.
Defined.

(** X25.  The synthesized camera of [gen_data_by_G_syn].  In a call that
    returns, row [i] of [out['c_compose']] is the sampled look-at pose
    joined to the intrinsics of input camera [i] when its own uniform draw
    is below 1/2, and input camera [i] unchanged otherwise; in both cases
    it carries the intrinsics of input camera [i]. *)
Theorem gen_data_camera_mix (data : Type) (flame_condition : bool)
    (z shape_params exp_params pose_params eye_pose_params c : list (list data))
    (w w' : world data) (out : gen_data data) (i : nat) (x : data) :
  gen_data_by_G_syn flame_condition z shape_params exp_params pose_params
                    eye_pose_params c w = (Ok out, w') ->
  nth_error (flatten_views c) i = Some x ->
  let n := List.length (flatten_views shape_params) in
  exists args cam,
    nth_error (gd_look_at out) i = Some args /\
    nth_error (gd_c_syn out) i = Some cam /\
    cam = (if Qltb (rand_stream w (rand_pos w + 7 * n + i)) (1 # 2)
           then CamCat (PoseLookAt args) x
           else CamIn x) /\
    intrinsics_of cam = x.
Proof.
  intros Hrun Hx n.
  pose proof (gen_data_inv data _ _ _ _ _ _ _ _ _ _ Hrun) as Hinv.
  cbv zeta in Hinv. fold n in Hinv.
  destruct Hinv as (Hrows & Hla & Hsyn & _).
  assert (Hi : i < n).
  { rewrite <- Hrows. apply nth_error_Some. congruence. }
  assert (Hargs : exists args, nth_error (gd_look_at out) i = Some args).
  { destruct (nth_error (gd_look_at out) i) as [args |] eqn:E;
      [exists args; reflexivity |].
    apply nth_error_None in E. rewrite Hla, look_at_rows_length in E. lia. }
  destruct Hargs as (args & Hargs).
  exists args,
    (if Qltb (rand_stream w (rand_pos w + 7 * n + i)) (1 # 2)
     then CamCat (PoseLookAt args) x
     else CamIn x).
  split; [exact Hargs |].
  rewrite Hsyn.
  rewrite (select_below data _ (advance w (7 * n)) n i (1 # 2)).
  - cbn [advance rand_pos rand_stream]. rewrite <- Hla.
    destruct (Qltb (rand_stream w (rand_pos w + 7 * n + i)) (1 # 2)).
    + split; [| split; reflexivity].
      rewrite nth_error_map, (nth_error_combine _ _ _ _ _ _ _ Hargs Hx).
      reflexivity.
    + split; [| split; reflexivity].
      rewrite nth_error_map, Hx. reflexivity.
  - rewrite length_map, length_combine, <- Hla, Hla, look_at_rows_length, Hrows.
    apply Nat.min_id.
  - rewrite length_map. exact Hrows.
  - exact Hi.
Qed.

Lemma gen_data_camera_mix_witness :
  exists out w' args,
    gen_data_by_G_syn false (sample_views "z" 3) (sample_views "shape" 3)
                      (sample_views "exp" 3) (sample_views "pose" 3)
                      (sample_views "eye" 3) (sample_views "c" 3)
                      (sample_world (fun _ => (1 # 10)%Q)) = (Ok out, w') /\
    nth_error (gd_c_syn out) 1 = Some (CamCat (PoseLookAt args) "c1"%string).
Proof.
  destruct (gen_data_by_G_syn false (sample_views "z" 3) (sample_views "shape" 3)
              (sample_views "exp" 3) (sample_views "pose" 3)
              (sample_views "eye" 3) (sample_views "c" 3)
              (sample_world (fun _ => (1 # 10)%Q))) as [[out | e] w'] eqn:Hrun;
    [| vm_compute in Hrun; discriminate Hrun].
  destruct (gen_data_camera_mix string false _ _ _ _ _ _ _ _ _ 1 "c1"%string
              Hrun eq_refl)
    as (args & cam & _ & Hcam & Heq & _).
  exists out, w', args. split; [reflexivity |].
  rewrite Hcam, Heq. reflexivity.
Defined.

(** X26.  What the mapping network of [G_syn] is conditioned on.  In a
    call that returns, both mapping calls receive, for every row, the camera
    of the first view of the row's subject (repeated three times per
    subject), joined with the shape parameters when [flame_condition] is
    set.  The canonical camera that lines 134-138 mix in with probability
    1/2 never reaches the mapping network: the conditioning is the same
    whatever the random draws. *)
Theorem gen_data_mapping_condition (data : Type) (flame_condition : bool)
    (z shape_params exp_params pose_params eye_pose_params c : list (list data))
    (w w' : world data) (out : gen_data data) :
  gen_data_by_G_syn flame_condition z shape_params exp_params pose_params
                    eye_pose_params c w = (Ok out, w') ->
  map fst (gd_c_cond out) = first_view_thrice c /\
  map snd (gd_c_cond out)
  = (if flame_condition
     then map Some (flatten_views shape_params)
     else map (fun _ => None) (first_view_thrice c)) /\
  forall w2 w2' out2,
    gen_data_by_G_syn flame_condition z shape_params exp_params pose_params
                      eye_pose_params c w2 = (Ok out2, w2') ->
    gd_c_cond out2 = gd_c_cond out.
Proof.
  intro Hrun.
  pose proof (gen_data_inv data _ _ _ _ _ _ _ _ _ _ Hrun) as Hinv.
  cbv zeta in Hinv. destruct Hinv as (_ & _ & _ & Hcond & _).
  split; [| split].
  - destruct flame_condition.
    + apply cat_rows_Ok in Hcond. destruct Hcond as [Hlen ->].
      rewrite map_map. cbn [fst]. apply map_fst_combine. exact Hlen.
    + rewrite Hcond, map_map. cbn [fst]. apply map_id.
  - destruct flame_condition.
    + apply cat_rows_Ok in Hcond. destruct Hcond as [Hlen ->].
      rewrite map_map. cbn [snd].
      rewrite <- (map_snd_combine _ _ _ _ Hlen) at 2.
      rewrite map_map. reflexivity.
    + rewrite Hcond, map_map. reflexivity.
  - intros w2 w2' out2 Hrun2.
    pose proof (gen_data_inv data _ _ _ _ _ _ _ _ _ _ Hrun2) as Hinv2.
    cbv zeta in Hinv2. destruct Hinv2 as (_ & _ & _ & Hcond2 & _).
    destruct flame_condition; congruence.
Qed.

Lemma gen_data_mapping_condition_witness :
  exists out w',
    gen_data_by_G_syn true (sample_views "z" 3) (sample_views "shape" 3)
                      (sample_views "exp" 3) (sample_views "pose" 3)
                      (sample_views "eye" 3) (sample_views "c" 3)
                      (sample_world low_low_high) = (Ok out, w') /\
    map fst (gd_c_cond out) = ["c0"; "c0"; "c0"]%string.
Proof.
  destruct (gen_data_by_G_syn true (sample_views "z" 3) (sample_views "shape" 3)
              (sample_views "exp" 3) (sample_views "pose" 3)
              (sample_views "eye" 3) (sample_views "c" 3)
              (sample_world low_low_high)) as [[out | e] w'] eqn:Hrun;
    [| vm_compute in Hrun; discriminate Hrun].
  exists out, w'. split; [reflexivity |].
  exact (proj1 (gen_data_mapping_condition string true _ _ _ _ _ _ _ _ _ Hrun)).
Defined.

Section GenDataShapes.

Variable data : Type.

Lemma length_flatten_uniform (A : Type) (x : list (list A)) (v : nat) :
  Forall (fun views => List.length views = v) x ->
  List.length (flatten_views x) = List.length x * v.
Proof.
  unfold flatten_views. induction 1 as [| views x Hv _ IH]; [reflexivity |].
  rewrite concat_cons, length_app, IH, Hv. cbn [List.length]. lia.
Qed.

Lemma length_first_view_thrice (A : Type) (c : list (list A)) :
  Forall (fun views => 1 <= List.length views) c ->
  List.length (first_view_thrice c) = List.length c * 3.
Proof.
  unfold first_view_thrice. induction 1 as [| views c Hv _ IH]; [reflexivity |].
  cbn [map]. rewrite concat_cons, length_app, IH.
  destruct views as [| x views]; [cbn in Hv; lia |].
  cbn. lia.
Qed.

(** The run up to the second [torch.where] (line 138), when the camera rows
    are as many as the shape rows. *)
Lemma gen_data_run (flame_condition : bool)
    (z shape_params exp_params pose_params eye_pose_params c : list (list data))
    (w : world data) :
  let n := List.length (flatten_views shape_params) in
  let run := gen_data_by_G_syn flame_condition z shape_params exp_params
                               pose_params eye_pose_params c w in
  List.length (flatten_views c) = n ->
  log (snd run) = log w /\
  rand_pos (snd run) = rand_pos w + 9 * n /\
  match broadcast_size n (List.length (first_view_thrice c)) with
  | None => fst run = Raise (RuntimeError "size mismatch")
  | Some _ =>
      if flame_condition && negb (Nat.eqb (List.length (first_view_thrice c)) n)
      then fst run = Raise (RuntimeError "size mismatch")
      else exists out, fst run = Ok out
  end.
Proof.
  intros n run Hrows. subst run.
  unfold gen_data_by_G_syn. fold n.
  unfold bind, torch_rand, lift, cat_rows.
  cbn [fst snd rand_pos rand_stream log].
  rewrite look_at_rows_length, repeat_length, Hrows, Nat.eqb_refl.
  rewrite torch_where_same.
  2: { rewrite !length_map, length_seq, length_combine, look_at_rows_length.
       rewrite Hrows. apply Nat.min_id. }
  2: { rewrite !length_map, length_seq. exact Hrows. }
  unfold torch_where.
  rewrite !length_map, length_seq, length_combine, repeat_length, Hrows,
    Nat.min_id.
  rewrite broadcast_size_same.
  destruct (broadcast_size n (List.length (first_view_thrice c))) as [k |];
    [| split; [reflexivity |];
       split; [cbn [snd rand_pos]; clearbody n; clear; lia | reflexivity]].
  destruct flame_condition; cbn [andb]; unfold ret.
  - fold n.
    destruct (Nat.eqb (List.length (first_view_thrice c)) n); cbn [negb].
    + split; [reflexivity |].
      split; [cbn [snd rand_pos]; clearbody n; clear; lia
             | eexists; reflexivity].
    + split; [reflexivity |].
      split; [cbn [snd rand_pos]; clearbody n; clear; lia | reflexivity].
  - split; [reflexivity |].
    split; [cbn [snd rand_pos]; clearbody n; clear; lia | eexists; reflexivity].
Qed.

End GenDataShapes.

(** X27.  [gen_data_by_G_syn] on subjects with three views each.  When the
    camera array has three views per subject and as many rows as the shape
    parameters, the call returns, after nine uniform draws per row: seven
    for the random pose and one for each of the two [torch.where]. *)
Theorem gen_data_three_views (data : Type) (flame_condition : bool)
    (z shape_params exp_params pose_params eye_pose_params c : list (list data))
    (w : world data) :
  Forall (fun views => List.length views = 3) c ->
  List.length (flatten_views shape_params) = List.length (flatten_views c) ->
  exists out w',
    gen_data_by_G_syn flame_condition z shape_params exp_params pose_params
                      eye_pose_params c w = (Ok out, w') /\
    log w' = log w /\
    rand_stream w' = rand_stream w /\
    rand_pos w' = rand_pos w + 9 * (List.length c * 3) /\
    List.length (gd_c_syn out) = List.length c * 3 /\
    List.length (gd_c_cond out) = List.length c * 3.
Proof.
  intros Hthree Hshape.
  pose proof (length_flatten_uniform _ c 3 Hthree) as Hrows.
  assert (Hcond : List.length (first_view_thrice c) = List.length c * 3).
  { apply length_first_view_thrice.
    eapply Forall_impl; [| exact Hthree]. cbn. intros views ->. lia. }
  pose proof (gen_data_run data flame_condition z shape_params exp_params
                pose_params eye_pose_params c w) as Hrun.
  cbv zeta in Hrun. rewrite Hshape in Hrun. specialize (Hrun eq_refl).
  destruct Hrun as (_ & _ & Hrun).
  rewrite Hcond, Hrows, broadcast_size_same, Nat.eqb_refl in Hrun.
  cbn [negb] in Hrun. rewrite andb_false_r in Hrun.
  destruct Hrun as (out & Hout).
  exists out.
  exists (snd (gen_data_by_G_syn flame_condition z shape_params exp_params
                 pose_params eye_pose_params c w)).
  assert (Hpair : gen_data_by_G_syn flame_condition z shape_params exp_params
                    pose_params eye_pose_params c w
                  = (Ok out,
                     snd (gen_data_by_G_syn flame_condition z shape_params
                            exp_params pose_params eye_pose_params c w)))
    by (rewrite <- Hout; apply surjective_pairing).
  split; [exact Hpair |].
  pose proof (gen_data_inv data _ _ _ _ _ _ _ _ _ _ Hpair) as Hinv.
  cbv zeta in Hinv. rewrite Hshape, Hrows in Hinv.
  destruct Hinv as (_ & Hla & Hsyn & Hcc & _ & Hlog & Hstream & Hpos).
  repeat (split; [assumption |]).
  split.
  - rewrite Hsyn. rewrite select_length.
    + unfold swapped. rewrite length_map. apply draws_length.
    + rewrite length_map, length_combine, look_at_rows_length, Hrows,
        Nat.min_id.
      unfold swapped. rewrite length_map, draws_length. reflexivity.
    + rewrite length_map, Hrows. unfold swapped.
      rewrite length_map, draws_length. reflexivity.
  - destruct flame_condition.
    + apply cat_rows_Ok in Hcc. destruct Hcc as [Hlen ->].
      rewrite length_map, length_combine, <- Hlen, Nat.min_id. exact Hcond.
    + rewrite Hcc, length_map. exact Hcond.
Qed.

Lemma gen_data_three_views_witness :
  exists out w',
    gen_data_by_G_syn true (sample_views "z" 3) (sample_views "shape" 3)
                      (sample_views "exp" 3) (sample_views "pose" 3)
                      (sample_views "eye" 3) (sample_views "c" 3)
                      (sample_world low_low_high) = (Ok out, w') /\
    rand_pos w' = 27.
Proof.
  destruct (gen_data_three_views string true
              (sample_views "z" 3) (sample_views "shape" 3)
              (sample_views "exp" 3) (sample_views "pose" 3)
              (sample_views "eye" 3) (sample_views "c" 3)
              (sample_world low_low_high)
              ltac:(repeat constructor) eq_refl)
    as (out & w' & Hrun & _ & _ & Hpos & _).
  exists out, w'. split; [exact Hrun | exact Hpos].
Defined.

(** X28.  [gen_data_by_G_syn] needs exactly three views per subject.  With
    at least one subject and a number of views per subject that is at least
    two and not three (the shape parameters having as many rows as the
    cameras), the call raises [RuntimeError]: all nine batches of uniform
    draws have been taken, and the [torch.where] of line 138 cannot
    broadcast the per-row cameras against the thrice repeated first-view
    cameras. *)
Theorem gen_data_view_count (data : Type) (flame_condition : bool)
    (z shape_params exp_params pose_params eye_pose_params c : list (list data))
    (v : nat) (w : world data) :
  c <> [] ->
  Forall (fun views => List.length views = v) c ->
  2 <= v -> v <> 3 ->
  List.length (flatten_views shape_params) = List.length (flatten_views c) ->
  let run := gen_data_by_G_syn flame_condition z shape_params exp_params
                               pose_params eye_pose_params c w in
  fst run = Raise (RuntimeError "size mismatch") /\
  rand_pos (snd run) = rand_pos w + 9 * (List.length c * v) /\
  broadcast_size (List.length (flatten_views c))
                 (List.length (first_view_thrice c)) = None.
Proof.
  intros Hne Hv Htwo Hthree Hshape run. subst run.
  pose proof (length_flatten_uniform _ c v Hv) as Hrows.
  assert (Hcond : List.length (first_view_thrice c) = List.length c * 3).
  { apply length_first_view_thrice.
    eapply Forall_impl; [| exact Hv]. cbn. intros views ->. lia. }
  assert (Hb : 1 <= List.length c) by (destruct c; [congruence | cbn; lia]).
  pose proof (gen_data_run data flame_condition z shape_params exp_params
                pose_params eye_pose_params c w) as Hrun.
  cbv zeta in Hrun. rewrite Hshape in Hrun. specialize (Hrun eq_refl).
  destruct Hrun as (_ & Hpos & Hrun).
  rewrite Hcond, Hrows in *.
  assert (Hnone : broadcast_size (List.length c * v) (List.length c * 3) = None).
  { unfold broadcast_size.
    destruct (Nat.eqb_spec (List.length c * v) (List.length c * 3)) as [E | _].
    { apply Nat.mul_cancel_l in E; [contradiction | lia]. }
    destruct (Nat.eqb_spec (List.length c * v) 1) as [E | _]; [nia |].
    destruct (Nat.eqb_spec (List.length c * 3) 1) as [E | _]; [lia |].
    reflexivity. }
  rewrite Hnone in Hrun. repeat split; assumption.
Qed.

Lemma gen_data_view_count_witness :
  let run := gen_data_by_G_syn false (sample_views "z" 2) (sample_views "shape" 2)
                               (sample_views "exp" 2) (sample_views "pose" 2)
                               (sample_views "eye" 2) (sample_views "c" 2)
                               (sample_world low_low_high) in
  fst run = Raise (RuntimeError "size mismatch") /\
  rand_pos (snd run) = 0 + 9 * (List.length (sample_views "c" 2) * 2) /\
  broadcast_size (List.length (flatten_views (sample_views "c" 2)))
                 (List.length (first_view_thrice (sample_views "c" 2))) = None.
Proof.
  apply (gen_data_view_count string false
           (sample_views "z" 2) (sample_views "shape" 2)
           (sample_views "exp" 2) (sample_views "pose" 2)
           (sample_views "eye" 2) (sample_views "c" 2) 2
           (sample_world low_low_high));
    try discriminate; try reflexivity; try lia.
  repeat constructor.
Defined.

(** ** [get_motion_feature] (lines 86-96) *)

(** X23.  The crop of [get_motion_feature].  The warped image is always
    224 x 224.  For [0 <= crop_len], [2 * crop_len <= crop_size] and
    [crop_size - crop_len <= 224] (the defaults 224 and 16 among them) the
    cropped region is a square of side [crop_size - 2 * crop_len] that
    starts at the top row and at column [crop_len]: the margin is cut on
    the left, on the right and, twice as wide, at the bottom.  For
    [0 < crop_len <= 224] and [crop_size - crop_len > 224] the slices are
    clipped to the image and the region is taller than wide, so the resize
    to [crop_size] squared stretches it. *)
Theorem motion_crop_region (crop_size crop_len : Z) :
  ((0 <= crop_len)%Z -> (crop_len * 2 <= crop_size)%Z ->
   (crop_size - crop_len <= 224)%Z ->
   motion_crop crop_size crop_len
   = ((0, crop_size - crop_len * 2), (crop_len, crop_size - crop_len * 2))%Z) /\
  ((0 < crop_len <= 224)%Z -> (224 < crop_size - crop_len)%Z ->
   motion_crop crop_size crop_len
   = ((0, Z.min (crop_size - crop_len * 2) 224), (crop_len, 224 - crop_len))%Z /\
   (224 - crop_len < Z.min (crop_size - crop_len * 2) 224)%Z).
Proof.
  unfold motion_crop, py_slice, slice_bound. split.
  - intros H0 H2 H224.
    repeat match goal with
           | |- context [(?a <? ?b)%Z] => destruct (Z.ltb_spec a b)
           end;
      rewrite !pair_equal_spec; repeat split; lia.
  - intros [H0 Hle] H224. split; [| lia].
    repeat match goal with
           | |- context [(?a <? ?b)%Z] => destruct (Z.ltb_spec a b)
           end;
      rewrite !pair_equal_spec; repeat split; lia.
Qed.

Lemma motion_crop_region_witness :
  motion_crop 224 16 = ((0, 192), (16, 192))%Z.
Proof.
  apply (proj1 (motion_crop_region 224 16)); lia.
Defined.
